(** * Span / trace analysis kernel of tianchi-2025

    A shallow embedding of
    - [analysis_engine/span_finders/error_span_finder.py]
      (class [FindRootCauseSpans]) and
    - [analysis_engine/span_finders/latency_span_finder.py]
      (class [FindRootCauseSpansRT]),
    followed by the properties of the two selectors and of the baseline
    averager.

    Conventions.
    - A Python [dict] keeps its keys in insertion order and an assignment to
      an existing key keeps the key's position: module [Dict] is an
      association list with exactly this behaviour. A row of the error
      query is such a dictionary; [d[k]] on a missing key raises
      [KeyError].
    - A Python call either returns or raises: type [outcome].
    - The builtin [int] is a parameter of the error selector; [py_int] is
      its instance on ASCII literals.
    - Durations and averages are exact rationals [Q] in the row loops and
      in the adjustment; [np.mean] is a parameter of the baseline code. The
      percentile loop (lines 481-511), whose result depends on the rounding
      of sums and products, is given in exact arithmetic and over the
      operations of an arbitrary arithmetic, with binary64 as an instance.
    - The remote query service is a function handed to the code; every
      identity look-up that is issued is recorded in the result. *)

From Stdlib Require Import List String Ascii Bool Arith ZArith QArith Qminmax.
From Stdlib Require Import Lia Permutation Sorted.
From Stdlib Require Floats.
Import ListNotations.

Local Close Scope Q_scope.
Local Open Scope string_scope.
Local Open Scope list_scope.
Local Open Scope nat_scope.

(* ================================================================== *)
(** ** Python outcomes *)

Inductive exn : Type :=
| ValueError
| KeyError
| TypeError.

Inductive outcome (A : Type) : Type :=
| Returns (a : A)
| Raises (e : exn).

Arguments Returns {A} a.
Arguments Raises {A} e.

Definition bind {A B : Type} (m : outcome A) (k : A -> outcome B) : outcome B :=
  match m with
  | Returns a => k a
  | Raises e => Raises e
  end.

Notation "x <- m ;; k" := (bind m (fun x => k))
  (at level 61, m at next level, right associativity).

(** Truthiness of a Python string: only the empty string is falsy. *)
Definition truthy (s : string) : bool :=
  match s with
  | EmptyString => false
  | String _ _ => true
  end.

(** Truthiness of [d.get(k)] when the values are strings: [None] and the
    empty string are falsy. *)
Definition truthy_opt (o : option string) : bool :=
  match o with
  | Some s => truthy s
  | None => false
  end.

(* ================================================================== *)
(** ** Insertion-ordered dictionaries *)

Module Dict.
Section Defs.
Context {V : Type}.

Definition t : Type := list (string * V).

Definition empty : t := [].

(** [d.get(k)] *)
Fixpoint get (d : t) (k : string) : option V :=
  match d with
  | [] => None
  | (k', v) :: r => if String.eqb k' k then Some v else get r k
  end.

(** [k in d] *)
Definition mem (d : t) (k : string) : bool :=
  match get d k with
  | Some _ => true
  | None => false
  end.

(** [d.get(k, dflt)] *)
Definition get_default (d : t) (k : string) (dflt : V) : V :=
  match get d k with
  | Some v => v
  | None => dflt
  end.

(** [d[k] = v]: an existing key keeps its place, a new key goes last. *)
Fixpoint set (d : t) (k : string) (v : V) : t :=
  match d with
  | [] => [(k, v)]
  | (k', v') :: r =>
      if String.eqb k' k then (k', v) :: r else (k', v') :: set r k v
  end.

(** [list(d.keys())], [list(d.items())], [len(d)] *)
Definition keys (d : t) : list string := map fst d.
Definition items (d : t) : list (string * V) := d.
Definition len (d : t) : nat := List.length d.

(** [bool(d)] *)
Definition nonempty (d : t) : bool :=
  match d with
  | [] => false
  | _ :: _ => true
  end.
End Defs.
Arguments t V : clear implicits.

(** [d.setdefault(k, []).append(v)], written in the sources as
    [if k not in d: d[k] = []] followed by [d[k].append(v)]. *)
Definition append {V : Type} (d : t (list V)) (k : string) (v : V) : t (list V) :=
  set d k (get_default d k [] ++ [v]).

End Dict.

(* ================================================================== *)
(** ** [int(s)] on a decimal literal *)

(** The blanks [int] skips around the literal of an ASCII string. *)
Definition is_space (c : ascii) : bool :=
  let n := nat_of_ascii c in
  ((9 <=? n) && (n <=? 13)) || (n =? 32).

Definition digit_of (c : ascii) : option Z :=
  let n := nat_of_ascii c in
  if (48 <=? n) && (n <=? 57) then Some (Z.of_nat (n - 48)) else None.

Fixpoint lstrip (s : string) : string :=
  match s with
  | EmptyString => EmptyString
  | String c r => if is_space c then lstrip r else s
  end.

Fixpoint rstrip (s : string) : string :=
  match s with
  | EmptyString => EmptyString
  | String c r =>
      match rstrip r with
      | EmptyString => if is_space c then EmptyString else String c EmptyString
      | r' => String c r'
      end
  end.

(** Digits with single underscores between them; [prev] tells whether the
    previous character was a digit and [acc] is the value read so far. *)
Fixpoint parse_digits (acc : Z) (prev : bool) (s : string) : option Z :=
  match s with
  | EmptyString => if prev then Some acc else None
  | String c r =>
      match digit_of c with
      | Some d => parse_digits (10 * acc + d) true r
      | None =>
          if (Ascii.eqb c "_"%char) && prev then
            match r with
            | EmptyString => None
            | String c' _ =>
                match digit_of c' with
                | Some _ => parse_digits acc false r
                | None => None
                end
            end
          else None
      end
  end.

(** The number of digits of a literal. *)
Fixpoint count_digits (s : string) : nat :=
  match s with
  | EmptyString => 0
  | String c r =>
      match digit_of c with
      | Some _ => S (count_digits r)
      | None => count_digits r
      end
  end.

(** A literal without sign: more than 4300 digits (the default of
    [sys.int_max_str_digits]) are refused. *)
Definition parse_literal (s : string) : option Z :=
  if 4300 <? count_digits s then None else parse_digits 0 false s.

(** [int(s)] for a [str] of ASCII characters: surrounding blanks, an
    optional sign, decimal digits. Anything else raises [ValueError]. On a
    [str] with other characters [int] also accepts the decimal digits and
    the blanks of other scripts, which [py_int] does not know: the functions
    below take the parser as a parameter, their properties hold for every
    parser, and [py_int] is the parser of the closed examples. *)
Definition py_int (s : string) : outcome Z :=
  match rstrip (lstrip s) with
  | String "-"%char r =>
      match parse_literal r with
      | Some z => Returns (- z)%Z
      | None => Raises ValueError
      end
  | String "+"%char r =>
      match parse_literal r with
      | Some z => Returns z
      | None => Raises ValueError
      end
  | r =>
      match parse_literal r with
      | Some z => Returns z
      | None => Raises ValueError
      end
  end.

(* ================================================================== *)
(** ** error_span_finder.py *)

Module ErrorSpanFinder.

(** One row of the query result ([log_item.get_contents()]): a dictionary
    from field names to strings. *)
Definition span : Type := Dict.t string.

(** [d[k]]: a missing key raises [KeyError]. *)
Definition subscript (d : span) (k : string) : outcome string :=
  match Dict.get d k with
  | Some v => Returns v
  | None => Raises KeyError
  end.

(** State of the first loop of [process_one_trace_log]. *)
Record maps : Type := mkMaps {
  span_status : Dict.t Z;
  child_spans : Dict.t (list string)
}.

(** Lines 129-132. *)
Definition error_spans (st : Dict.t Z) : list string :=
  map fst (filter (fun kv => (1 <? snd kv)%Z) (Dict.items st)).

(** Lines 137-143: the flag [is_root] for one errored span. *)
Definition is_root (m : maps) (error_span : string) : bool :=
  match Dict.get (child_spans m) error_span with
  | Some children =>
      negb (existsb (fun child => (1 <? Dict.get_default (span_status m) child 0)%Z)
                    children)
  | None => true
  end.

(** Lines 83-89: grouping by [traceId]; a span without a (non-empty)
    trace id is dropped. *)
Definition group_span (groups : Dict.t (list span)) (s : span) : Dict.t (list span) :=
  match Dict.get s "traceId" with
  | Some trace_id => if truthy trace_id then Dict.append groups trace_id s else groups
  | None => groups
  end.

Definition trace_groups (all_spans : list span) : Dict.t (list span) :=
  fold_left group_span all_spans Dict.empty.

Section WithInt.

(** The builtin [int], applied to the status codes. *)
Variable int : string -> outcome Z.

(** One iteration of the first loop (lines 115-126). *)
Definition record_span (m : maps) (s : span) : outcome maps :=
  span_id <- subscript s "spanId" ;;
  parent_span_id <- subscript s "parentSpanId" ;;
  status_code <- subscript s "statusCode" ;;
  status <- int status_code ;;
  let st := Dict.set (span_status m) span_id status in
  if truthy parent_span_id
  then Returns (mkMaps st (Dict.append (child_spans m) parent_span_id span_id))
  else Returns (mkMaps st (child_spans m)).

Fixpoint build_maps (trace_log : list span) (m : maps) : outcome maps :=
  match trace_log with
  | [] => Returns m
  | s :: rest => m' <- record_span m s ;; build_maps rest m'
  end.

Definition process_one_trace_log (trace_log : list span) : outcome (list string) :=
  m <- build_maps trace_log (mkMaps Dict.empty Dict.empty) ;;
  Returns (filter (is_root m) (error_spans (span_status m))).

(** Lines 94-98. *)
Fixpoint process_groups (groups : list (string * list span)) : outcome (list string) :=
  match groups with
  | [] => Returns []
  | (_, trace_logs) :: rest =>
      ids <- process_one_trace_log trace_logs ;;
      more <- process_groups rest ;;
      Returns (ids ++ more)
  end.

(** [find_root_cause_spans], from the list of spans the query returned. *)
Definition find_root_cause_spans (all_spans : list span) : outcome (list string) :=
  process_groups (Dict.items (trace_groups all_spans)).

End WithInt.

(** The vocabulary of the properties below. *)

(** The row has the three fields [process_one_trace_log] reads with
    [span[...]]. *)
Definition has_fields (s : span) : bool :=
  Dict.mem s "spanId" && Dict.mem s "parentSpanId" && Dict.mem s "statusCode".

(** The fields of a row; the empty string stands for a missing field (the
    properties use them on rows that have the fields). *)
Definition spanId (s : span) : string := Dict.get_default s "spanId" "".
Definition parentSpanId (s : span) : string := Dict.get_default s "parentSpanId" "".
Definition statusCode (s : span) : string := Dict.get_default s "statusCode" "".

(** [span.get('traceId')] *)
Definition traceId (s : span) : option string := Dict.get s "traceId".

(** The integer a span's [statusCode] stands for (0 when it is no integer
    literal; the properties only use it on spans whose status parses). *)
Definition status_of (int : string -> outcome Z) (s : span) : Z :=
  match int (statusCode s) with
  | Returns z => z
  | Raises _ => 0%Z
  end.

(** The row has the three fields and its status code is an integer
    literal. *)
Definition parses (int : string -> outcome Z) (s : span) : Prop :=
  has_fields s = true /\ exists z, int (statusCode s) = Returns z.

(** [s] belongs to trace [t]: it carries the non-empty trace id [t]. *)
Definition in_trace (t : string) (s : span) : bool :=
  match traceId s with
  | Some t' => truthy t' && String.eqb t' t
  | None => false
  end.

(** [c] is a registered child of the span id [p]: its [parentSpanId] is
    non-empty and equal to [p]. *)
Definition is_child_of (p : string) (c : span) : bool :=
  truthy (parentSpanId c) && String.eqb (parentSpanId c) p.

(** The status of the last span of [trace] whose id is [x] (0 when there
    is none). *)
Definition last_status (int : string -> outcome Z) (trace : list span)
    (x : string) : Z :=
  match find (fun s => String.eqb (spanId s) x) (rev trace) with
  | Some s => status_of int s
  | None => 0%Z
  end.

(** A row with the three fields and, possibly, a trace id. *)
Definition mkSpan (span_id parent_span_id status_code : string)
    (trace_id : option string) : span :=
  [("spanId", span_id); ("parentSpanId", parent_span_id); ("statusCode", status_code)]
  ++ match trace_id with
     | Some t => [("traceId", t)]
     | None => []
     end.

End ErrorSpanFinder.

(* ================================================================== *)
(** ** latency_span_finder.py *)

Module LatencySpanFinder.

(** The names imported from [utils.constants]. That module is not part of
    the sources at hand, so the four values are a parameter of every
    function that reads them. *)
Record constants : Type := mkConstants {
  HIGH_RT_TRACES : nat;
  TRACES_FOR_AVG_RT : nat;
  PERCENT_95 : Q;
  MAX_DURATION : Q
}.

(** The defaults of [AnalysisConfig] in [config.py]. *)
Definition default_constants : constants :=
  mkConstants 2000 3000 (95 # 100)%Q (5000000 # 1)%Q.

(** [x < y] on rationals, as a boolean. *)
Definition Qlt_bool (x y : Q) : bool := negb (Qle_bool y x).

(** An element of the parsed [exclusive_duration] array: a number, or any
    other JSON value. *)
Inductive jvalue : Type :=
| JNum (q : Q)
| JOther.

(** [isinstance(duration, (int, float)) and duration > 0] *)
Definition positive_duration (v : jvalue) : option Q :=
  match v with
  | JNum q => if Qlt_bool 0 q then Some q else None
  | JOther => None
  end.

(** An element of the parsed [span_list] array, in the three shapes
    [_extract_service_and_span_name] tells apart; a field missing from a
    dictionary is the empty string, which is what [.get(k, "")] returns.
    A JSON string is represented by the value it parses to. *)
Inductive span_info : Type :=
| InfoDict (servicename serviceName spanname spanName : string)
| InfoList (fields : list string)
| InfoOther.

(** [a or b] on strings *)
Definition py_or (a b : string) : string := if truthy a then a else b.

Definition _extract_service_and_span_name (i : span_info) : string * string :=
  match i with
  | InfoDict sn1 sn2 pn1 pn2 => (py_or sn1 sn2, py_or pn1 pn2)
  | InfoList fs =>
      if 5 <=? List.length fs then (nth 3 fs "", nth 4 fs "") else ("", "")
  | InfoOther => ("", "")
  end.

(** One row of the exclusive-duration query, its four array fields parsed
    by [_parse_array_field]. One row holds the spans of one trace. *)
Record log : Type := mkLog {
  span_id : list string;
  span_index : list Z;
  exclusive_duration : list jvalue;
  span_list : list span_info
}.

(** One row of the identity query [select spanId, serviceName, spanName];
    each field is read with [log.get] and may be missing. *)
Record service_log : Type := mkServiceLog {
  sl_spanId : option string;
  sl_serviceName : option string;
  sl_spanName : option string
}.

(** [client.get_logs] for an identity query over the given span ids. *)
Definition lookup : Type := list string -> outcome (list service_log).

(** The attributes of [self] that the selector reads. *)
Record finder : Type := mkFinder {
  minus_average : bool;
  only_top1_per_trace : bool;
  span_average_durations : Dict.t Q
}.

(** The two dictionaries filled while the rows are read. *)
Record mappings : Type := mkMappings {
  span_duration_mapping : Dict.t Q;
  span_service_mapping : Dict.t (string * string)
}.

(** [f"{service_name}<sep>{span_name}"] *)
Definition combined_key (service_name span_name : string) : string :=
  (service_name ++ "<sep>" ++ span_name)%string.

(** [zip(span_ids, span_indices, exclusive_durations)] *)
Fixpoint zip3 (a : list string) (b : list Z) (c : list jvalue)
  : list (string * Z * jvalue) :=
  match a, b, c with
  | x :: a', y :: b', z :: c' => (x, y, z) :: zip3 a' b' c'
  | _, _, _ => []
  end.

(** The guarded read of [span_list[span_index]] followed by
    [if service_name and span_name] (lines 320-325, 363-368, 395-400,
    416-421). *)
Definition identity_at (spans : list span_info) (idx : Z) : option (string * string) :=
  match spans with
  | [] => None
  | _ :: _ =>
      if ((0 <=? idx)%Z && (idx <? Z.of_nat (List.length spans))%Z)%bool then
        let '(service_name, span_name) :=
          _extract_service_and_span_name (nth (Z.to_nat idx) spans InfoOther) in
        if (truthy service_name && truthy span_name)%bool
        then Some (service_name, span_name)
        else None
      else None
  end.

(** The subtraction of the average, written three times in the source
    (lines 326-336, 599-617 and 650-670): a span with an identity whose
    combined key has an average gets [min(max(0, d - avg), MAX_DURATION)],
    any other span keeps [d]. *)
Definition adjust_duration (c : constants) (averages : Dict.t Q)
    (identity : option (string * string)) (d : Q) : Q :=
  match identity with
  | Some (service_name, span_name) =>
      match Dict.get averages (combined_key service_name span_name) with
      | Some avg_duration => Qmin (Qmax 0 (d - avg_duration)) (MAX_DURATION c)
      | None => d
      end
  | None => d
  end.

(** [max(l, key=...)] of a non-empty list: the first element whose key is
    the largest. *)
Fixpoint max_from {A : Type} (key : A -> Q) (best : A) (l : list A) : A :=
  match l with
  | [] => best
  | x :: r => if Qlt_bool (key best) (key x) then max_from key x r
              else max_from key best r
  end.

Definition py_max {A : Type} (key : A -> Q) (l : list A) : option A :=
  match l with
  | [] => None
  | x :: r => Some (max_from key x r)
  end.

(** [lambda x: x[2]] on the 4-tuples of [adjusted_spans] *)
Definition adjusted_of (x : string * Z * Q * Q) : Q := snd (fst x).

(** Lines 310-345: the list [adjusted_spans] of one row. *)
Definition adjusted_spans (c : constants) (self : finder) (lg : log)
  : list (string * Z * Q * Q) :=
  flat_map
    (fun x : string * Z * jvalue =>
       let '(sid, idx, duration) := x in
       match positive_duration duration with
       | Some d =>
           let truncated_duration := Qmin d (MAX_DURATION c) in
           [(sid, idx,
             adjust_duration c (span_average_durations self)
               (identity_at (span_list lg) idx) truncated_duration,
             truncated_duration)]
       | None => []
       end)
    (zip3 (span_id lg) (span_index lg) (exclusive_duration lg)).

(** Lines 375-384: the list [valid_spans] of one row. *)
Definition valid_spans (c : constants) (lg : log) : list (string * Z * Q) :=
  flat_map
    (fun x : string * Z * jvalue =>
       let '(sid, idx, duration) := x in
       match positive_duration duration with
       | Some d => [(sid, idx, Qmin d (MAX_DURATION c))]
       | None => []
       end)
    (zip3 (span_id lg) (span_index lg) (exclusive_duration lg)).

(** [span_duration_mapping[span_id] = d] followed by the guarded
    [span_service_mapping[span_id] = (service_name, span_name)]. *)
Definition store_span (spans : list span_info) (m : mappings)
    (sid : string) (idx : Z) (d : Q) : mappings :=
  let dm := Dict.set (span_duration_mapping m) sid d in
  match identity_at spans idx with
  | Some names => mkMappings dm (Dict.set (span_service_mapping m) sid names)
  | None => mkMappings dm (span_service_mapping m)
  end.

(** Lines 407-425: one iteration over a row when every span is kept. *)
Definition collect_span (c : constants) (spans : list span_info) (m : mappings)
    (x : string * Z * jvalue) : mappings :=
  let '(sid, idx, duration) := x in
  match positive_duration duration with
  | Some d => store_span spans m sid idx (Qmin d (MAX_DURATION c))
  | None => m
  end.

(** Lines 284-429: the body of the loop over the rows. In this typed model
    no statement of the body can raise, so the handler of the [try] is
    never entered. *)
Definition process_log (c : constants) (self : finder) (m : mappings) (lg : log)
  : mappings :=
  if (negb (List.length (span_id lg) =? List.length (exclusive_duration lg))
      || negb (List.length (span_id lg) =? List.length (span_index lg)))%bool
  then m
  else if only_top1_per_trace self then
    if (minus_average self && Dict.nonempty (span_average_durations self))%bool then
      match py_max adjusted_of (adjusted_spans c self lg) with
      | Some (sid, idx, _, original_duration) =>
          store_span (span_list lg) m sid idx original_duration
      | None => m
      end
    else
      match py_max (fun x : string * Z * Q => snd x) (valid_spans c lg) with
      | Some (sid, idx, duration) => store_span (span_list lg) m sid idx duration
      | None => m
      end
  else
    fold_left (collect_span c (span_list lg))
      (zip3 (span_id lg) (span_index lg) (exclusive_duration lg)) m.

Definition collect (c : constants) (self : finder) (logs : list log) : mappings :=
  fold_left (process_log c self) logs (mkMappings Dict.empty Dict.empty).

(** [l.sort(key=..., reverse=True)] and [sorted(l, key=..., reverse=True)]:
    descending and stable. *)
Fixpoint insert_desc {A : Type} (key : A -> Q) (x : A) (l : list A) : list A :=
  match l with
  | [] => [x]
  | y :: r => if Qle_bool (key y) (key x) then x :: y :: r
              else y :: insert_desc key x r
  end.

Fixpoint sort_desc {A : Type} (key : A -> Q) (l : list A) : list A :=
  match l with
  | [] => []
  | x :: r => insert_desc key x (sort_desc key r)
  end.

(** [[l[i : i + n] for i in range(0, len(l), n)]]; the first argument
    bounds the number of slices. *)
Fixpoint chunks_aux {A : Type} (fuel n : nat) (l : list A) : list (list A) :=
  match fuel with
  | 0 => []
  | S fuel' =>
      match l with
      | [] => []
      | _ :: _ => firstn n l :: chunks_aux fuel' n (skipn n l)
      end
  end.

Definition chunks {A : Type} (n : nat) (l : list A) : list (list A) :=
  chunks_aux (List.length l) n l.

Definition batch_size : nat := 500.

(** Lines 580-585. *)
Definition record_identity (sm : Dict.t (string * string)) (sl : service_log)
  : Dict.t (string * string) :=
  match sl_spanId sl, sl_serviceName sl, sl_spanName sl with
  | Some sid, Some service_name, Some span_name =>
      if (truthy sid && truthy service_name && truthy span_name)%bool
      then Dict.set sm sid (service_name, span_name)
      else sm
  | _, _, _ => sm
  end.

(** Lines 549-589: one batch; a batch whose query raises is skipped. *)
Definition query_batch (ask : lookup) (sm : Dict.t (string * string))
    (batch : list string) : Dict.t (string * string) :=
  match ask batch with
  | Returns service_logs => fold_left record_identity service_logs sm
  | Raises _ => sm
  end.

(** Lines 528-543. *)
Definition sampled_span_ids (c : constants) (dm : Dict.t Q) : list string :=
  let span_ids := Dict.keys dm in
  if HIGH_RT_TRACES c <? List.length span_ids then
    firstn (HIGH_RT_TRACES c)
      (sort_desc (fun x => Dict.get_default dm x 0%Q) span_ids)
  else span_ids.

(** Lines 547-589: the dictionary [span_service_mapping] the batches fill. *)
Definition fetch_identities (ask : lookup) (batches : list (list string))
  : Dict.t (string * string) :=
  fold_left (query_batch ask) batches Dict.empty.

(** [_adjust_durations_with_span_average]; the second component lists the
    identity queries that were issued, in order. *)
Definition _adjust_durations_with_span_average (c : constants) (self : finder)
    (ask : lookup) (dm : Dict.t Q) : list (string * Q) * list (list string) :=
  let batches := chunks batch_size (sampled_span_ids c dm) in
  let sm := fetch_identities ask batches in
  (map (fun kv : string * Q =>
          (fst kv,
           adjust_duration c (span_average_durations self) (Dict.get sm (fst kv)) (snd kv)))
       (Dict.items dm),
   batches).

(** [_adjust_durations_directly] *)
Definition _adjust_durations_directly (c : constants) (self : finder)
    (dm : Dict.t Q) (sm : Dict.t (string * string)) : list (string * Q) :=
  map (fun kv : string * Q =>
         (fst kv,
          adjust_duration c (span_average_durations self) (Dict.get sm (fst kv)) (snd kv)))
      (Dict.items dm).

(** Which of the two adjustment routines lines 442-473 call. *)
Inductive strategy : Type :=
| Direct
| Resample.

(** [len(span_service_mapping) / len(span_duration_mapping)] *)
Definition coverage_rate (m : mappings) : Q :=
  (Z.of_nat (Dict.len (span_service_mapping m))
   # Pos.of_nat (Dict.len (span_duration_mapping m)))%Q.

Definition choose_strategy (m : mappings) : strategy :=
  if Dict.nonempty (span_service_mapping m) then
    if Qlt_bool (1 # 2) (coverage_rate m) then Direct else Resample
  else Resample.

(** Lines 440-479. *)
Definition adjusted_span_durations (c : constants) (self : finder) (ask : lookup)
    (m : mappings) : list (string * Q) * list (list string) :=
  if (minus_average self && Dict.nonempty (span_average_durations self))%bool then
    match choose_strategy m with
    | Direct =>
        (_adjust_durations_directly c self
           (span_duration_mapping m) (span_service_mapping m), [])
    | Resample =>
        _adjust_durations_with_span_average c self ask (span_duration_mapping m)
    end
  else
    (map (fun kv : string * Q => (fst kv, Qmin (snd kv) (MAX_DURATION c)))
       (Dict.items (span_duration_mapping m)), []).

(** The identity under which the chosen routine looks up the average of
    span [sid]: the entry of [span_service_mapping] that routine reads. *)
Definition resolved_identity (c : constants) (ask : lookup) (m : mappings)
    (sid : string) : option (string * string) :=
  match choose_strategy m with
  | Direct => Dict.get (span_service_mapping m) sid
  | Resample =>
      Dict.get
        (fetch_identities ask
           (chunks batch_size (sampled_span_ids c (span_duration_mapping m))))
        sid
  end.

(** A stored duration is a strictly positive raw value cut at
    [MAX_DURATION]. *)
Definition clamped (c : constants) (d : Q) : Prop :=
  exists raw, (0 < raw)%Q /\ d = Qmin raw (MAX_DURATION c).

(** The adjusted duration as the specification words it: the span [sid] has
    a clamped raw duration in [dm]; with a resolved identity whose combined
    key has a baseline, [a] is [max(0, clamped - baseline)] cut again at
    [MAX_DURATION]; with no identity or no baseline entry, [a] is the
    clamped raw duration; in every case [a] is not negative. *)
Definition spec_adjusted (c : constants) (baseline : Dict.t Q) (dm : Dict.t Q)
    (identity : option (string * string)) (sid : string) (a : Q) : Prop :=
  exists raw, (0 < raw)%Q /\
    Dict.get dm sid = Some (Qmin raw (MAX_DURATION c)) /\
    (0 <= a)%Q /\
    match identity with
    | Some (service_name, span_name) =>
        match Dict.get baseline (combined_key service_name span_name) with
        | Some avg =>
            a = Qmin (Qmax 0 (Qmin raw (MAX_DURATION c) - avg)) (MAX_DURATION c)
        | None => a = Qmin raw (MAX_DURATION c)
        end
    | None => a = Qmin raw (MAX_DURATION c)
    end.

(** [sum(...)]: from 0, left to right. *)
Fixpoint sum_from (acc : Q) (l : list Q) : Q :=
  match l with
  | [] => acc
  | x :: r => sum_from (acc + x) r
  end.

Definition total_duration (l : list (string * Q)) : Q := sum_from 0 (map snd l).

(** Lines 497-502: the loop with its [break]. *)
Fixpoint take_until (cumulative_duration target_duration : Q)
    (l : list (string * Q)) : list string :=
  match l with
  | [] => []
  | (sid, duration) :: r =>
      let cumulative_duration := (cumulative_duration + duration)%Q in
      if Qle_bool target_duration cumulative_duration then [sid]
      else sid :: take_until cumulative_duration target_duration r
  end.

(** Lines 481-511. *)
Definition top_95_percent_spans (c : constants) (adjusted : list (string * Q))
  : list string :=
  let sorted := sort_desc snd adjusted in
  if Qeq_bool (total_duration sorted) 0 then []
  else take_until 0 (total_duration sorted * PERCENT_95 c) sorted.

(** [_process_exclusive_duration_data]: the returned list, and the identity
    queries issued on the way. *)
Definition _process_exclusive_duration_data (c : constants) (self : finder)
    (ask : lookup) (logs : list log) : list string * list (list string) :=
  let m := collect c self logs in
  if Dict.nonempty (span_duration_mapping m) then
    let '(adjusted, issued) := adjusted_span_durations c self ask m in
    (top_95_percent_spans c adjusted, issued)
  else ([], []).

(** [find_top_95_percent_spans]: [response] is what the exclusive-duration
    query gave; any exception is caught and turned into the empty list. *)
Definition find_top_95_percent_spans (c : constants) (self : finder)
    (response : outcome (list log)) (ask : lookup)
  : outcome (list string) * list (list string) :=
  match response with
  | Returns logs =>
      let '(spans, issued) := _process_exclusive_duration_data c self ask logs in
      (Returns spans, issued)
  | Raises _ => (Returns [], [])
  end.

(** *** The baseline *)

(** Lines 820-822. *)
Definition collect_average_span (dm : Dict.t Q) (x : string * jvalue) : Dict.t Q :=
  match positive_duration (snd x) with
  | Some d => Dict.set dm (fst x) d
  | None => dm
  end.

(** Lines 811-822. *)
Definition collect_average_log (dm : Dict.t Q) (lg : log) : Dict.t Q :=
  if List.length (span_id lg) =? List.length (exclusive_duration lg)
  then fold_left collect_average_span (combine (span_id lg) (exclusive_duration lg)) dm
  else dm.

Definition collect_average (logs : list log) : Dict.t Q :=
  fold_left collect_average_log logs Dict.empty.

(** Lines 845-857: the span ids kept for the averages and the dictionary
    restricted to them. *)
Definition sample_for_average (c : constants) (dm : Dict.t Q)
  : list string * Dict.t Q :=
  let span_ids := Dict.keys dm in
  if TRACES_FOR_AVG_RT c <? List.length span_ids then
    let span_ids :=
      firstn (TRACES_FOR_AVG_RT c)
        (sort_desc (fun x => Dict.get_default dm x 0%Q) span_ids) in
    (span_ids,
     fold_left (fun d sid => Dict.set d sid (Dict.get_default dm sid 0%Q))
       span_ids Dict.empty)
  else (span_ids, dm).

(** Lines 895-906. *)
Definition record_service_duration (dm : Dict.t Q) (sd : Dict.t (list Q))
    (sl : service_log) : Dict.t (list Q) :=
  match sl_spanId sl, sl_serviceName sl, sl_spanName sl with
  | Some sid, Some service_name, Some span_name =>
      match Dict.get dm sid with
      | Some duration =>
          if (truthy service_name && truthy span_name)%bool
          then Dict.append sd (combined_key service_name span_name) duration
          else sd
      | None => sd
      end
  | _, _, _ => sd
  end.

(** Lines 863-910: one batch; a batch whose query raises is skipped. *)
Definition average_batch (ask : lookup) (dm : Dict.t Q) (sd : Dict.t (list Q))
    (batch : list string) : Dict.t (list Q) :=
  match ask batch with
  | Returns service_logs => fold_left (record_service_duration dm) service_logs sd
  | Raises _ => sd
  end.

(** The arithmetic mean of a non-empty list, exact. *)
Definition mean (durations : list Q) : Q :=
  (sum_from 0 durations / inject_Z (Z.of_nat (List.length durations)))%Q.

Section Baseline.

(** [np.mean]. It computes the mean in binary64 (a pairwise sum, then a
    division), so its result is the arithmetic mean up to rounding: the
    functions that call it take it as a parameter, and the properties hold
    whatever it returns. [mean] is the instance of the closed examples,
    whose means are whole numbers. *)
Variable np_mean : list Q -> Q.

(** Lines 913-916. *)
Definition store_average (averages : Dict.t Q) (kv : string * list Q) : Dict.t Q :=
  match snd kv with
  | [] => averages
  | _ :: _ => Dict.set averages (fst kv) (np_mean (snd kv))
  end.

(** [_query_span_names_for_spans]: the new value of
    [self.span_average_durations], and the identity queries issued. *)
Definition _query_span_names_for_spans (c : constants) (ask : lookup)
    (averages : Dict.t Q) (dm : Dict.t Q) : Dict.t Q * list (list string) :=
  let '(span_ids, dm) := sample_for_average c dm in
  let batches := chunks batch_size span_ids in
  let service_durations := fold_left (average_batch ask dm) batches Dict.empty in
  (fold_left store_average (Dict.items service_durations) averages, batches).

(** [_calculate_span_averages]: [response] is what the exclusive-duration
    query over the reference window gave. An exception is logged and leaves
    the averages as they were. *)
Definition _calculate_span_averages (c : constants) (response : outcome (list log))
    (ask : lookup) : Dict.t Q * list (list string) :=
  match response with
  | Returns logs =>
      let dm := collect_average logs in
      if Dict.nonempty dm then _query_span_names_for_spans c ask Dict.empty dm
      else (Dict.empty, [])
  | Raises _ => (Dict.empty, [])
  end.

(** [__init__], lines 213-221: the averages are computed only when
    [minus_average] is set and both ends of the reference window are
    given; otherwise [span_average_durations] stays [{}]. *)
Definition init (c : constants) (minus_avg only_top1 : bool)
    (normal_start_time normal_end_time : option string)
    (response : outcome (list log)) (ask : lookup) : finder :=
  mkFinder minus_avg only_top1
    (if (minus_avg && truthy_opt normal_start_time && truthy_opt normal_end_time)%bool
     then fst (_calculate_span_averages c response ask)
     else Dict.empty).

End Baseline.

(** The vocabulary of the properties of the baseline. *)

(** The rows the identity queries over [batches] bring back, a failed
    query bringing nothing. *)
Definition replies (ask : lookup) (batches : list (list string)) : list service_log :=
  flat_map (fun batch => match ask batch with
                         | Returns service_logs => service_logs
                         | Raises _ => []
                         end) batches.

(** The duration sample a returned row contributes to [key]: the duration
    of its span, when the span is one of [dm], both names are present and
    their combined key is [key]. *)
Definition sample_of (dm : Dict.t Q) (key : string) (sl : service_log) : list Q :=
  match sl_spanId sl, sl_serviceName sl, sl_spanName sl with
  | Some sid, Some service_name, Some span_name =>
      match Dict.get dm sid with
      | Some duration =>
          if (truthy service_name && truthy span_name
              && String.eqb (combined_key service_name span_name) key)%bool
          then [duration] else []
      | None => []
      end
  | _, _, _ => []
  end.

Definition samples (ask : lookup) (dm : Dict.t Q) (batches : list (list string))
    (key : string) : list Q :=
  flat_map (sample_of dm key) (replies ask batches).

End LatencySpanFinder.

(* ================================================================== *)
(** ** Lines 481-511 in the arithmetic of the interpreter *)

(** The adjusted durations are Python numbers: integers, or binary64
    floats as soon as a duration of the rows is no integer or an average
    was subtracted. [LatencySpanFinder.top_95_percent_spans] is the
    selection in exact arithmetic; here the same lines are written over the
    operations they use, so that they can be read in binary64, where sums
    and products are rounded. *)
Module Arithmetic.

(** [0], [+], [*], [<] (the only comparison [list.sort] uses), [>=] and
    [==] on the numbers. *)
Record arithmetic (num : Type) : Type := mkArithmetic {
  zero : num;
  add : num -> num -> num;
  mul : num -> num -> num;
  ltb : num -> num -> bool;
  geb : num -> num -> bool;
  eqb : num -> num -> bool
}.

Arguments zero {num} _.
Arguments add {num} _ _ _.
Arguments mul {num} _ _ _.
Arguments ltb {num} _ _ _.
Arguments geb {num} _ _ _.
Arguments eqb {num} _ _ _.

Section Selector.
Context {num : Type} (A : arithmetic num).

(** The builtin [sum]. How it adds the numbers up depends on the version
    of the interpreter and on the type of the numbers (see [Binary64]), so
    it is a parameter. *)
Variable py_sum : list num -> num.

(** [l.sort(key=..., reverse=True)]: descending and stable; an element is
    moved behind another one only if it is smaller. *)
Fixpoint insert_desc {T : Type} (key : T -> num) (x : T) (l : list T) : list T :=
  match l with
  | [] => [x]
  | y :: r => if ltb A (key x) (key y) then y :: insert_desc key x r
              else x :: y :: r
  end.

Fixpoint sort_desc {T : Type} (key : T -> num) (l : list T) : list T :=
  match l with
  | [] => []
  | x :: r => insert_desc key x (sort_desc key r)
  end.

(** Lines 497-502: the loop with its [break]. *)
Fixpoint take_until (cumulative_duration target_duration : num)
    (l : list (string * num)) : list string :=
  match l with
  | [] => []
  | (sid, duration) :: r =>
      let cumulative_duration := add A cumulative_duration duration in
      if geb A cumulative_duration target_duration then [sid]
      else sid :: take_until cumulative_duration target_duration r
  end.

(** Lines 481-511. *)
Definition top_95_percent_spans (PERCENT_95 : num) (adjusted : list (string * num))
  : list string :=
  let sorted := sort_desc snd adjusted in
  let total_duration := py_sum (map snd sorted) in
  if eqb A total_duration (zero A) then []
  else take_until (zero A) (mul A total_duration PERCENT_95) sorted.

End Selector.

(** Adding up from [0], left to right. *)
Definition sum_left {num : Type} (A : arithmetic num) (l : list num) : num :=
  fold_left (add A) l (zero A).

(** Exact arithmetic on rationals. *)
Definition exact : arithmetic Q :=
  mkArithmetic Q 0%Q Qplus Qmult LatencySpanFinder.Qlt_bool
    (fun x y => Qle_bool y x) Qeq_bool.

End Arithmetic.

(** Binary64, the arithmetic of Python's [float]. *)
Module Binary64.
Import PrimFloat.

Definition binary64 : Arithmetic.arithmetic float :=
  Arithmetic.mkArithmetic float 0%float PrimFloat.add PrimFloat.mul PrimFloat.ltb
    (fun x y => PrimFloat.leb y x) PrimFloat.eqb.

(** [sum] before CPython 3.12, and in every version on numbers that are no
    exact [float] (numpy's [float64], say): left to right from [0]. *)
Definition sum_left_to_right : list float -> float :=
  Arithmetic.sum_left binary64.

(** [sum] on floats since CPython 3.12 (builtin_sum_impl in
    bltinmodule.c): Neumaier's compensated summation. [f_result] is the
    running sum and [c] the compensation, added at the end when it is
    neither zero nor infinite nor a NaN. *)
Fixpoint compensated (f_result c : float) (l : list float) : float :=
  match l with
  | [] =>
      if (negb (PrimFloat.eqb c 0) && negb (is_nan c) && negb (is_infinity c))%bool
      then (f_result + c)%float
      else f_result
  | x :: r =>
      let t := (f_result + x)%float in
      let c := if PrimFloat.leb (abs x) (abs f_result)
               then (c + ((f_result - t) + x))%float
               else (c + ((x - t) + f_result))%float in
      compensated t c r
  end.

Definition sum_compensated (l : list float) : float :=
  match l with
  | [] => 0%float
  | x :: r => compensated (0 + x)%float 0%float r
  end.

(** The rational number a finite float stands for. *)
Definition exact_value (x : float) : option Q :=
  match FloatOps.Prim2SF x with
  | SpecFloat.S754_zero _ => Some 0%Q
  | SpecFloat.S754_finite s m e =>
      Some ((if s then (-1 # 1) else (1 # 1)) * inject_Z (Z.pos m) * Qpower (2 # 1) e)%Q
  | _ => None
  end.

(** [0.95], the float nearest to 95/100. *)
Definition percent_95 : float := (95 / 100)%float.

(** The durations of the worked example of the percentile selection. *)
Definition example_floats : list (string * float) :=
  [("a", 70); ("b", 10); ("c", 10); ("d", 5); ("e", 5)]%float.

(** Four spans lasting 5.99, 1.8, 0.36 and 0.05: the floats nearest to
    these numbers. *)
Definition rounding_example : list (string * float) :=
  [("a", 599 / 100); ("b", 18 / 10); ("c", 36 / 100); ("d", 5 / 100)]%float.

End Binary64.

(* ================================================================== *)
(** * Properties *)

(** ** Dictionaries *)

Module DictFacts.
Section Facts.
Context {V : Type}.
Implicit Types (d : Dict.t V) (k : string) (v : V).

Lemma get_set_same d k v : Dict.get (Dict.set d k v) k = Some v.
Proof.
  induction d as [|[k' v'] r IH]; simpl.
  - now rewrite String.eqb_refl.
  - destruct (String.eqb k' k) eqn:E; simpl; rewrite E; auto.
Qed.

Lemma get_set_other d k k' v :
  k <> k' -> Dict.get (Dict.set d k v) k' = Dict.get d k'.
Proof.
  intros Hne. induction d as [|[k0 v0] r IH]; simpl.
  - apply String.eqb_neq in Hne. now rewrite Hne.
  - destruct (String.eqb k0 k) eqn:E; simpl.
    + apply String.eqb_eq in E. subst k0.
      apply String.eqb_neq in Hne. now rewrite Hne.
    + now rewrite IH.
Qed.

Lemma keys_set d k v x :
  In x (Dict.keys (Dict.set d k v)) <-> x = k \/ In x (Dict.keys d).
Proof.
  unfold Dict.keys. induction d as [|[k0 v0] r IH]; simpl.
  - intuition.
  - destruct (String.eqb k0 k) eqn:E; simpl.
    + apply String.eqb_eq in E. subst k0. intuition.
    + rewrite IH. intuition.
Qed.

Lemma NoDup_keys_set d k v :
  NoDup (Dict.keys d) -> NoDup (Dict.keys (Dict.set d k v)).
Proof.
  unfold Dict.keys. induction d as [|[k0 v0] r IH]; simpl; intros H.
  - constructor; [intros [] | constructor].
  - inversion H as [|? ? Hn Hr]; subst.
    destruct (String.eqb k0 k) eqn:E; simpl.
    + constructor; assumption.
    + constructor; [|auto].
      intros Hin. apply (keys_set r k v k0) in Hin.
      destruct Hin as [->|Hin]; [|contradiction].
      now rewrite String.eqb_refl in E.
Qed.

Lemma get_Some_In d k v : Dict.get d k = Some v -> In (k, v) d.
Proof.
  induction d as [|[k0 v0] r IH]; simpl; [discriminate|].
  destruct (String.eqb k0 k) eqn:E.
  - apply String.eqb_eq in E. intros [= ->]. subst. now left.
  - intros H. right. auto.
Qed.

Lemma In_get_Some d k v :
  NoDup (Dict.keys d) -> In (k, v) d -> Dict.get d k = Some v.
Proof.
  unfold Dict.keys.
  induction d as [|[k0 v0] r IH]; simpl; intros Hnd Hin; [contradiction|].
  inversion Hnd as [|? ? Hn Hr]; subst.
  destruct Hin as [[= -> ->]|Hin].
  - now rewrite String.eqb_refl.
  - destruct (String.eqb k0 k) eqn:E; [|auto].
    apply String.eqb_eq in E. subst k0.
    exfalso. apply Hn. now apply (in_map fst) in Hin.
Qed.

Lemma get_None_keys d k : Dict.get d k = None <-> ~ In k (Dict.keys d).
Proof.
  unfold Dict.keys. induction d as [|[k0 v0] r IH]; simpl.
  - intuition.
  - destruct (String.eqb k0 k) eqn:E.
    + apply String.eqb_eq in E. subst. split; [discriminate|].
      intros H. exfalso. apply H. now left.
    + apply String.eqb_neq in E. rewrite IH. intuition.
Qed.

Lemma get_Some_keys d k v : Dict.get d k = Some v -> In k (Dict.keys d).
Proof.
  intros H. apply get_Some_In in H. now apply (in_map fst) in H.
Qed.

Lemma keys_get_Some d k : In k (Dict.keys d) -> exists v, Dict.get d k = Some v.
Proof.
  intros H. destruct (Dict.get d k) eqn:E; [eauto|].
  apply get_None_keys in E. contradiction.
Qed.

Lemma In_set d k v k' v' :
  In (k', v') (Dict.set d k v) -> (k' = k /\ v' = v) \/ In (k', v') d.
Proof.
  induction d as [|[k0 v0] r IH]; simpl.
  - intros [[= <- <-]|[]]. auto.
  - destruct (String.eqb k0 k) eqn:E; simpl.
    + apply String.eqb_eq in E. subst k0.
      intros [[= <- <-]|H]; auto.
    + intros [H|H]; auto. destruct (IH H); auto.
Qed.

Lemma nonempty_set d k v : Dict.nonempty (Dict.set d k v) = true.
Proof.
  destruct d as [|[k0 v0] r]; simpl; [reflexivity|].
  now destruct (String.eqb k0 k).
Qed.
End Facts.

(** Appending to the list stored under one key. *)
Section Append.
Context {V : Type}.

Lemma getd_append_same (d : Dict.t (list V)) k v :
  Dict.get_default (Dict.append d k v) k [] = Dict.get_default d k [] ++ [v].
Proof.
  unfold Dict.append, Dict.get_default at 1. now rewrite get_set_same.
Qed.

Lemma getd_append_other (d : Dict.t (list V)) k k' v :
  k <> k' -> Dict.get_default (Dict.append d k v) k' [] = Dict.get_default d k' [].
Proof.
  intros H. unfold Dict.append, Dict.get_default.
  now rewrite get_set_other.
Qed.

Lemma get_getd (d : Dict.t (list V)) k :
  In k (Dict.keys d) -> Dict.get d k = Some (Dict.get_default d k []).
Proof.
  intros H. unfold Dict.get_default.
  destruct (keys_get_Some d k H) as [v ->]. reflexivity.
Qed.
End Append.
(** Folding [Dict.append] over a list: [sel] says under which key an
    element goes and what is stored for it. *)
Section Grouping.
Context {A V : Type} (sel : A -> option (string * V)).

Definition add_selected (d : Dict.t (list V)) (a : A) : Dict.t (list V) :=
  match sel a with
  | Some (k, v) => Dict.append d k v
  | None => d
  end.

Definition selected (k : string) (a : A) : list V :=
  match sel a with
  | Some (k', v) => if String.eqb k' k then [v] else []
  | None => []
  end.

Lemma fold_add_selected (l : list A) :
  forall d,
  (forall k, Dict.get_default (fold_left add_selected l d) k [] =
             Dict.get_default d k [] ++ flat_map (selected k) l) /\
  (NoDup (Dict.keys d) -> NoDup (Dict.keys (fold_left add_selected l d))).
Proof.
  induction l as [|a r IH]; intros d; simpl.
  - split; auto. intros k. now rewrite app_nil_r.
  - destruct (IH (add_selected d a)) as [Hg Hnd]. split.
    + intros k. rewrite Hg, app_assoc. f_equal.
      unfold add_selected, selected. destruct (sel a) as [[k' v]|].
      * destruct (String.eqb k' k) eqn:E.
        -- apply String.eqb_eq in E. subst. apply getd_append_same.
        -- apply String.eqb_neq in E. rewrite getd_append_other by assumption.
           now rewrite app_nil_r.
      * now rewrite app_nil_r.
    + intros H. apply Hnd. unfold add_selected.
      destruct (sel a) as [[k' v]|]; auto. now apply NoDup_keys_set.
Qed.
End Grouping.

Lemma set_fresh {V : Type} (d : Dict.t V) k v :
  ~ In k (Dict.keys d) -> Dict.set d k v = d ++ [(k, v)].
Proof.
  unfold Dict.keys. induction d as [|[k0 v0] r IH]; simpl; intros H; [reflexivity|].
  destruct (String.eqb k0 k) eqn:E.
  - apply String.eqb_eq in E. subst. exfalso. apply H. now left.
  - rewrite IH; [reflexivity|]. intros Hin. apply H. now right.
Qed.

Lemma fold_set_fresh {V : Type} (g : string -> V) (ids : list string) :
  forall d, NoDup ids -> (forall k, In k ids -> ~ In k (Dict.keys d)) ->
  fold_left (fun d sid => Dict.set d sid (g sid)) ids d =
  d ++ map (fun sid => (sid, g sid)) ids.
Proof.
  induction ids as [|x r IH]; intros d Hnd Hfresh; simpl.
  - now rewrite app_nil_r.
  - inversion Hnd as [|? ? Hx Hr]; subst.
    rewrite set_fresh by (apply Hfresh; now left).
    rewrite IH; auto.
    + now rewrite <- app_assoc.
    + intros k Hk. unfold Dict.keys. rewrite map_app, in_app_iff. simpl.
      intros [H|[<-|[]]]; [|contradiction].
      apply (Hfresh k); [now right|exact H].
Qed.

Lemma find_app_first {A : Type} (f : A -> bool) (l1 l2 : list A) :
  find f (l1 ++ l2) =
  match find f l1 with
  | Some x => Some x
  | None => find f l2
  end.
Proof.
  induction l1 as [|a l1 IH]; simpl; [reflexivity|].
  destruct (f a); auto.
Qed.

End DictFacts.

(* ================================================================== *)
(** ** The error root-cause selector *)

Module ErrorSpanFacts.
Import ErrorSpanFinder DictFacts.

Lemma NoDup_map_inj {A B : Type} (f : A -> B) (l : list A) (a b : A) :
  NoDup (map f l) -> In a l -> In b l -> f a = f b -> a = b.
Proof.
  induction l as [|x l IH]; simpl; intros Hnd Ha Hb Hf; [contradiction|].
  inversion Hnd as [|? ? Hn Hr]; subst.
  destruct Ha as [->|Ha], Hb as [->|Hb]; auto.
  - exfalso. apply Hn. rewrite Hf. now apply in_map.
  - exfalso. apply Hn. rewrite <- Hf. now apply in_map.
Qed.

Lemma filter_none {A : Type} (f : A -> bool) (l : list A) :
  (forall x, In x l -> f x = false) -> filter f l = [].
Proof.
  induction l as [|x r IH]; intros H; simpl; [reflexivity|].
  rewrite (H x (or_introl eq_refl)). apply IH. intros y Hy. apply H. now right.
Qed.

Lemma in_trace_mkSpan t span_id parent_span_id status_code trace_id :
  in_trace t (mkSpan span_id parent_span_id status_code (Some trace_id)) =
  (truthy trace_id && String.eqb trace_id t)%bool.
Proof. reflexivity. Qed.

(** [py_int] raises nothing but [ValueError]. *)
Lemma py_int_exn s e : py_int s = Raises e -> e = ValueError.
Proof.
  unfold py_int.
  destruct (rstrip (lstrip s)) as [|[[] [] [] [] [] [] [] []] r];
    destruct (parse_literal _); congruence.
Qed.

(** *** Grouping by trace *)

(** What the grouping loop leaves in [trace_groups]. *)
Lemma group_spans_spec (spans : list span) :
  forall g,
  let g' := fold_left group_span spans g in
  (forall t, Dict.get_default g' t [] =
             Dict.get_default g t [] ++ filter (in_trace t) spans) /\
  (forall t, In t (Dict.keys g') <->
             In t (Dict.keys g) \/ exists s, In s spans /\ in_trace t s = true) /\
  (NoDup (Dict.keys g) -> NoDup (Dict.keys g')).
Proof.
  induction spans as [|s rest IH]; intros g; simpl.
  - repeat split; auto.
    + intros t. now rewrite app_nil_r.
    + intros [H|(s & [] & _)]. exact H.
  - destruct (IH (group_span g s)) as (Hg & Hk & Hnd).
    assert (Hstep : forall t, Dict.get_default (group_span g s) t [] =
              Dict.get_default g t [] ++ (if in_trace t s then [s] else [])).
    { intros t. unfold group_span, in_trace, traceId.
      destruct (Dict.get s "traceId") as [t'|]; [|now rewrite app_nil_r].
      destruct (truthy t'); simpl; [|now rewrite app_nil_r].
      destruct (String.eqb t' t) eqn:E.
      - apply String.eqb_eq in E. subst. apply getd_append_same.
      - apply String.eqb_neq in E. rewrite getd_append_other by assumption.
        now rewrite app_nil_r. }
    assert (Hkeys : forall t, In t (Dict.keys (group_span g s)) <->
              In t (Dict.keys g) \/ in_trace t s = true).
    { intros t. unfold group_span, in_trace, traceId.
      destruct (Dict.get s "traceId") as [t'|]; [|intuition discriminate].
      destruct (truthy t'); simpl; [|intuition discriminate].
      unfold Dict.append. rewrite keys_set.
      rewrite String.eqb_eq. intuition. }
    repeat split.
    + intros t. rewrite Hg, Hstep, <- app_assoc.
      now destruct (in_trace t s).
    + rewrite Hk, Hkeys. intros [[H|H]|(s' & Hin & H)]; eauto.
    + rewrite Hk, Hkeys. intros [H|(s' & [->|Hin] & H)]; eauto.
    + intros H. apply Hnd. unfold group_span.
      destruct (Dict.get s "traceId") as [t'|]; auto.
      destruct (truthy t'); auto. now apply NoDup_keys_set.
Qed.

Lemma trace_groups_In (spans : list span) t l :
  In (t, l) (Dict.items (trace_groups spans)) <->
  l = filter (in_trace t) spans /\ exists s, In s spans /\ in_trace t s = true.
Proof.
  destruct (group_spans_spec spans Dict.empty) as (Hg & Hk & Hnd).
  fold (trace_groups spans) in Hg, Hk, Hnd. simpl in Hg, Hk.
  specialize (Hnd (NoDup_nil _)). unfold Dict.items. split.
  - intros Hin. pose proof (In_get_Some _ _ _ Hnd Hin) as Hget.
    pose proof (get_Some_keys _ _ _ Hget) as Hkey.
    split.
    + rewrite <- Hg. unfold Dict.get_default. now rewrite Hget.
    + apply Hk in Hkey. destruct Hkey as [[]|H]. exact H.
  - intros [-> Hex]. apply get_Some_In.
    rewrite get_getd by (apply Hk; now right). now rewrite Hg.
Qed.

Lemma is_root_getd m x :
  is_root m x =
  negb (existsb (fun child => (1 <? Dict.get_default (span_status m) child 0)%Z)
          (Dict.get_default (child_spans m) x [])).
Proof.
  unfold is_root.
  change (Dict.get_default (child_spans m) x [])
    with (match Dict.get (child_spans m) x with Some l => l | None => [] end).
  now destruct (Dict.get (child_spans m) x).
Qed.

Lemma find_rev_unique (trace : list span) x s :
  NoDup (map spanId trace) ->
  (find (fun s0 => String.eqb (spanId s0) x) (rev trace) = Some s <->
   In s trace /\ spanId s = x).
Proof.
  intros Hnd. split.
  - intros H. apply find_some in H. destruct H as [Hin E].
    apply in_rev in Hin. apply String.eqb_eq in E. auto.
  - intros [Hin <-].
    destruct (find (fun s0 => String.eqb (spanId s0) (spanId s)) (rev trace)) as [s'|] eqn:E.
    + apply find_some in E. destruct E as [Hin' E].
      apply in_rev in Hin'. apply String.eqb_eq in E.
      f_equal. eapply NoDup_map_inj; eauto.
    + exfalso. pose proof (find_none _ _ E s) as Hf. simpl in Hf.
      rewrite String.eqb_refl in Hf.
      assert (In s (rev trace)) as Hr by (now apply in_rev in Hin).
      specialize (Hf Hr). discriminate.
Qed.

Section WithInt.
Variable int : string -> outcome Z.

(** *** One row *)

Lemma subscript_fields s :
  has_fields s = true ->
  subscript s "spanId" = Returns (spanId s) /\
  subscript s "parentSpanId" = Returns (parentSpanId s) /\
  subscript s "statusCode" = Returns (statusCode s).
Proof.
  unfold has_fields, Dict.mem, subscript, spanId, parentSpanId, statusCode,
    Dict.get_default.
  destruct (Dict.get s "spanId"); [|discriminate].
  destruct (Dict.get s "parentSpanId"); [|discriminate].
  destruct (Dict.get s "statusCode"); [|discriminate]. auto.
Qed.

Lemma status_of_parses s z :
  int (statusCode s) = Returns z -> status_of int s = z.
Proof. unfold status_of. now intros ->. Qed.

Lemma record_span_parses m s :
  parses int s ->
  record_span int m s =
  Returns (mkMaps (Dict.set (span_status m) (spanId s) (status_of int s))
             (if truthy (parentSpanId s)
              then Dict.append (child_spans m) (parentSpanId s) (spanId s)
              else child_spans m)).
Proof.
  intros [Hf [z Hz]]. destruct (subscript_fields s Hf) as (H1 & H2 & H3).
  unfold record_span. rewrite H1, H2, H3. simpl.
  rewrite (status_of_parses _ _ Hz), Hz. simpl.
  now destruct (truthy (parentSpanId s)).
Qed.

(** A row makes the loop raise exactly when it lacks a field ([KeyError])
    or has a status code that [int] refuses. *)
Lemma record_span_outcome m s :
  (parses int s /\ exists m', record_span int m s = Returns m') \/
  (has_fields s = false /\ record_span int m s = Raises KeyError) \/
  (has_fields s = true /\ exists e, int (statusCode s) = Raises e /\
                                    record_span int m s = Raises e).
Proof.
  destruct (has_fields s) eqn:Hf.
  - destruct (int (statusCode s)) as [z|e] eqn:Hz.
    + left. assert (Hp : parses int s) by (split; eauto).
      split; [exact Hp|]. rewrite (record_span_parses m s Hp). eauto.
    + right. right. split; [reflexivity|]. exists e. split; [reflexivity|].
      destruct (subscript_fields s Hf) as (H1 & H2 & H3).
      unfold record_span. rewrite H1, H2, H3. simpl. now rewrite Hz.
  - right. left. split; [reflexivity|].
    unfold has_fields, Dict.mem in Hf. unfold record_span, subscript.
    destruct (Dict.get s "spanId"); [|reflexivity].
    destruct (Dict.get s "parentSpanId"); [|reflexivity].
    destruct (Dict.get s "statusCode"); [discriminate|reflexivity].
Qed.

Lemma record_span_returns m s m' :
  record_span int m s = Returns m' -> parses int s.
Proof.
  intros H. destruct (record_span_outcome m s) as [[Hp _]|[[_ Hr]|[_ (e & _ & Hr)]]];
    [exact Hp|congruence|congruence].
Qed.

(** *** The first loop *)

(** What the first loop leaves in the two dictionaries. *)
Lemma build_maps_spec (trace : list span) :
  forall m, (forall s, In s trace -> parses int s) ->
  exists m', build_maps int trace m = Returns m' /\
    (forall x, Dict.get (span_status m') x =
               match find (fun s => String.eqb (spanId s) x) (rev trace) with
               | Some s => Some (status_of int s)
               | None => Dict.get (span_status m) x
               end) /\
    (forall p, Dict.get_default (child_spans m') p [] =
               Dict.get_default (child_spans m) p [] ++
               map spanId (filter (is_child_of p) trace)) /\
    (NoDup (Dict.keys (span_status m)) -> NoDup (Dict.keys (span_status m'))).
Proof.
  induction trace as [|s rest IH]; intros m Hp.
  - exists m. simpl. repeat split; auto. intros p. now rewrite app_nil_r.
  - simpl build_maps. rewrite (record_span_parses m s) by (apply Hp; now left).
    simpl bind.
    destruct (IH (mkMaps (Dict.set (span_status m) (spanId s) (status_of int s))
                    (if truthy (parentSpanId s)
                     then Dict.append (child_spans m) (parentSpanId s) (spanId s)
                     else child_spans m)))
      as (m' & Hb & Hst & Hch & Hnd).
    { intros s' Hs'. apply Hp. now right. }
    exists m'. split; [exact Hb|]. simpl in Hst, Hch, Hnd. repeat split.
    + intros x. rewrite Hst. simpl rev. rewrite find_app_first.
      destruct (find (fun s0 => String.eqb (spanId s0) x) (rev rest)); [reflexivity|].
      simpl. destruct (String.eqb (spanId s) x) eqn:E.
      * apply String.eqb_eq in E. subst x. now rewrite get_set_same.
      * apply String.eqb_neq in E. now rewrite get_set_other.
    + intros p. rewrite Hch. simpl filter. unfold is_child_of at 2.
      destruct (truthy (parentSpanId s)) eqn:Et; simpl.
      * destruct (String.eqb (parentSpanId s) p) eqn:E.
        -- apply String.eqb_eq in E. subst p. rewrite getd_append_same.
           simpl. now rewrite <- app_assoc.
        -- apply String.eqb_neq in E. now rewrite getd_append_other.
      * reflexivity.
    + intros H. apply Hnd. now apply NoDup_keys_set.
Qed.

Lemma build_maps_returns_parses (trace : list span) :
  forall m m', build_maps int trace m = Returns m' ->
  forall s, In s trace -> parses int s.
Proof.
  induction trace as [|s0 rest IH]; intros m m' Hb s Hin; [contradiction|].
  simpl in Hb.
  destruct (record_span int m s0) as [m0|e] eqn:E; simpl in Hb; [|discriminate].
  destruct Hin as [<-|Hin]; [eapply record_span_returns; eauto|].
  eapply IH; eauto.
Qed.

(** The exception of the first loop is that of the first row that has
    one. *)
Lemma build_maps_raises (trace : list span) :
  forall m e, build_maps int trace m = Raises e ->
  exists s, In s trace /\
    (has_fields s = false /\ e = KeyError \/
     has_fields s = true /\ int (statusCode s) = Raises e).
Proof.
  induction trace as [|s rest IH]; intros m e Hb; [discriminate|].
  simpl in Hb.
  destruct (record_span_outcome m s) as [[_ [m' Hr]]|[[Hf Hr]|[Hf (e' & He & Hr)]]];
    rewrite Hr in Hb; simpl in Hb.
  - destruct (IH _ _ Hb) as (s' & Hin & H). exists s'. split; [now right|exact H].
  - injection Hb as <-. exists s. split; [now left|]. left. auto.
  - injection Hb as <-. exists s. split; [now left|]. right. auto.
Qed.

(** *** One trace *)

(** [process_one_trace_log] on a trace whose rows have the three fields
    and a status that parses: an id is returned exactly when the last row
    with this id has a status above 1 and no registered child of the id
    has, in the last row with the child's id, a status above 1. *)
Lemma process_one_trace_log_spec (trace : list span) :
  (forall s, In s trace -> parses int s) ->
  exists out, process_one_trace_log int trace = Returns out /\
    NoDup out /\
    forall x, In x out <->
      (1 < last_status int trace x)%Z /\
      forall c, In c trace -> is_child_of x c = true ->
                (last_status int trace (spanId c) <= 1)%Z.
Proof.
  intros Hp.
  destruct (build_maps_spec trace (mkMaps Dict.empty Dict.empty) Hp)
    as (m & Hb & Hst & Hch & Hk).
  simpl in Hst, Hch, Hk. specialize (Hk (NoDup_nil _)).
  unfold process_one_trace_log. rewrite Hb. simpl.
  eexists. split; [reflexivity|].
  assert (Hgetd : forall y, Dict.get_default (span_status m) y 0%Z = last_status int trace y).
  { intros y. unfold Dict.get_default, last_status. rewrite Hst.
    now destruct (find (fun s => String.eqb (spanId s) y) (rev trace)). }
  assert (Herr : forall x, In x (error_spans (span_status m)) <->
                           (1 < last_status int trace x)%Z).
  { intros x. unfold error_spans. rewrite in_map_iff. split.
    - intros ((y & z) & Hfst & Hin). simpl in Hfst. subst y.
      apply filter_In in Hin. destruct Hin as [Hin Hz]. simpl in Hz.
      apply Z.ltb_lt in Hz. apply In_get_Some in Hin; auto.
      unfold Dict.items in Hin.
      rewrite <- Hgetd. unfold Dict.get_default. now rewrite Hin.
    - intros Hlt. rewrite <- Hgetd in Hlt. unfold Dict.get_default in Hlt.
      destruct (Dict.get (span_status m) x) as [z|] eqn:E; [|lia].
      exists (x, z). split; [reflexivity|]. apply filter_In. split.
      + now apply get_Some_In.
      + simpl. now apply Z.ltb_lt. }
  split.
  { apply NoDup_filter. unfold error_spans, Dict.items.
    clear - Hk. induction (span_status m) as [|[k v] r IH]; simpl; [constructor|].
    simpl in Hk. inversion Hk as [|? ? Hn Hr]; subst.
    destruct (1 <? v)%Z; simpl; [|auto].
    constructor; [|auto]. intros Hin. apply Hn.
    apply in_map_iff in Hin. destruct Hin as (y & Hy & Hin).
    apply filter_In in Hin. destruct Hin as [Hin _].
    rewrite <- Hy. now apply in_map. }
  intros x. rewrite filter_In, Herr, is_root_getd, negb_true_iff, Hch. simpl.
  split.
  - intros [Hlt Hroot]. split; [exact Hlt|].
    intros c Hc Hchild.
    destruct (Z.leb_spec (last_status int trace (spanId c)) 1) as [|Hgt];
      [assumption|exfalso].
    assert (Hex : existsb (fun child => (1 <? Dict.get_default (span_status m) child 0)%Z)
                    (map spanId (filter (is_child_of x) trace)) = true).
    { apply existsb_exists. exists (spanId c). split.
      - apply in_map. apply filter_In. auto.
      - rewrite Hgetd. now apply Z.ltb_lt. }
    congruence.
  - intros [Hlt Hno]. split; [exact Hlt|].
    apply not_true_is_false. intros Hex.
    apply existsb_exists in Hex. destruct Hex as (y & Hy & Hgt).
    apply in_map_iff in Hy. destruct Hy as (c & <- & Hc).
    apply filter_In in Hc. destruct Hc as [Hc Hchild].
    rewrite Hgetd in Hgt. apply Z.ltb_lt in Hgt.
    specialize (Hno c Hc Hchild). lia.
Qed.

Lemma process_one_trace_log_returns (trace : list span) out :
  process_one_trace_log int trace = Returns out ->
  forall s, In s trace -> parses int s.
Proof.
  unfold process_one_trace_log. intros H.
  destruct (build_maps int trace (mkMaps Dict.empty Dict.empty)) as [m|e] eqn:Hb;
    simpl in H; [|discriminate].
  eapply build_maps_returns_parses; eauto.
Qed.

Lemma process_one_trace_log_raises (trace : list span) e :
  process_one_trace_log int trace = Raises e ->
  exists s, In s trace /\
    (has_fields s = false /\ e = KeyError \/
     has_fields s = true /\ int (statusCode s) = Raises e).
Proof.
  unfold process_one_trace_log. intros H.
  destruct (build_maps int trace (mkMaps Dict.empty Dict.empty)) as [m|e'] eqn:Hb;
    simpl in H; [discriminate|].
  injection H as <-. eapply build_maps_raises; eauto.
Qed.

(** With distinct ids the last row with an id is the row with this id. *)
Lemma last_status_unique (trace : list span) s :
  NoDup (map spanId trace) -> In s trace ->
  last_status int trace (spanId s) = status_of int s.
Proof.
  intros Hnd Hin. unfold last_status.
  assert (E : find (fun s0 => String.eqb (spanId s0) (spanId s)) (rev trace) = Some s)
    by (apply find_rev_unique; auto).
  now rewrite E.
Qed.

Lemma last_status_errored (trace : list span) x :
  (1 < last_status int trace x)%Z ->
  exists s, In s trace /\ spanId s = x /\ last_status int trace x = status_of int s.
Proof.
  unfold last_status.
  destruct (find (fun s => String.eqb (spanId s) x) (rev trace)) as [s|] eqn:E; [|lia].
  intros _. apply find_some in E. destruct E as [Hin E].
  exists s. split; [now apply in_rev|]. split; [now apply String.eqb_eq|reflexivity].
Qed.

(** *** All traces *)

Lemma process_groups_spec (groups : list (string * list span)) :
  (forall t l, In (t, l) groups -> exists o, process_one_trace_log int l = Returns o) ->
  exists out, process_groups int groups = Returns out /\
    forall x, In x out <->
      exists t l o, In (t, l) groups /\ process_one_trace_log int l = Returns o /\ In x o.
Proof.
  induction groups as [|[t l] rest IH]; intros Hall; simpl.
  - exists []. split; [reflexivity|]. intros x. split; [intros []|].
    intros (? & ? & ? & [] & _).
  - destruct (Hall t l (or_introl eq_refl)) as [o Ho].
    destruct IH as (more & Hmore & Hin).
    { intros t' l' H. apply (Hall t' l'). now right. }
    rewrite Ho, Hmore. simpl. eexists. split; [reflexivity|].
    intros x. rewrite in_app_iff, Hin. split.
    + intros [H|(t' & l' & o' & H1 & H2 & H3)].
      * exists t, l, o. auto.
      * exists t', l', o'. auto.
    + intros (t' & l' & o' & [[= -> ->]|H1] & H2 & H3).
      * left. congruence.
      * right. eauto 6.
Qed.

Lemma process_groups_returns (groups : list (string * list span)) :
  forall out, process_groups int groups = Returns out ->
  forall t l, In (t, l) groups -> exists o, process_one_trace_log int l = Returns o.
Proof.
  induction groups as [|[t0 l0] rest IH]; intros out H t l Hin; [contradiction|].
  simpl in H.
  destruct (process_one_trace_log int l0) as [o|e] eqn:Ho; simpl in H; [|discriminate].
  destruct (process_groups int rest) as [more|e] eqn:Hm; simpl in H; [|discriminate].
  destruct Hin as [[= <- <-]|Hin]; [eauto|].
  eapply IH; eauto.
Qed.

Lemma process_groups_raises (groups : list (string * list span)) e :
  process_groups int groups = Raises e ->
  exists t l, In (t, l) groups /\ process_one_trace_log int l = Raises e.
Proof.
  induction groups as [|[t l] rest IH]; intros H; [discriminate|].
  simpl in H.
  destruct (process_one_trace_log int l) as [o|e'] eqn:Ho; simpl in H.
  - destruct (process_groups int rest) as [more|e'] eqn:Hm; simpl in H; [discriminate|].
    injection H as <-. destruct (IH eq_refl) as (t' & l' & Hin & Hr).
    exists t', l'. split; [now right|exact Hr].
  - injection H as <-. exists t, l. split; [now left|exact Ho].
Qed.

(** The call returns exactly when every row that carries a trace id has
    the three fields and a status code that parses. *)
Lemma find_root_cause_spans_returns (all_spans : list span) :
  (exists out, find_root_cause_spans int all_spans = Returns out) <->
  (forall s t, In s all_spans -> in_trace t s = true -> parses int s).
Proof.
  unfold find_root_cause_spans. split.
  - intros [out H] s t Hs Ht.
    destruct (process_groups_returns _ _ H t (filter (in_trace t) all_spans)) as [o Ho].
    { apply trace_groups_In. eauto. }
    apply (process_one_trace_log_returns _ _ Ho). apply filter_In. auto.
  - intros Hp.
    destruct (process_groups_spec (Dict.items (trace_groups all_spans))) as (out & H & _).
    { intros t l Hin. apply trace_groups_In in Hin. destruct Hin as [-> _].
      destruct (process_one_trace_log_spec (filter (in_trace t) all_spans))
        as (o & Ho & _); [|eauto].
      intros s Hs. apply filter_In in Hs. destruct Hs. eapply Hp; eauto. }
    eauto.
Qed.

(** What is returned, trace by trace. *)
Lemma find_root_cause_spans_spec (all_spans : list span) out :
  find_root_cause_spans int all_spans = Returns out ->
  forall x, In x out <->
    exists t,
      (1 < last_status int (filter (in_trace t) all_spans) x)%Z /\
      forall c, In c (filter (in_trace t) all_spans) -> is_child_of x c = true ->
                (last_status int (filter (in_trace t) all_spans) (spanId c) <= 1)%Z.
Proof.
  intros Hout.
  assert (Hp : forall s t, In s all_spans -> in_trace t s = true -> parses int s)
    by (apply find_root_cause_spans_returns; eauto).
  assert (Hone : forall t, exists o,
            process_one_trace_log int (filter (in_trace t) all_spans) = Returns o /\
            forall x, In x o <->
              (1 < last_status int (filter (in_trace t) all_spans) x)%Z /\
              forall c, In c (filter (in_trace t) all_spans) -> is_child_of x c = true ->
                        (last_status int (filter (in_trace t) all_spans) (spanId c) <= 1)%Z).
  { intros t.
    destruct (process_one_trace_log_spec (filter (in_trace t) all_spans))
      as (o & Ho & _ & Hspec); [|eauto].
    intros s Hs. apply filter_In in Hs. destruct Hs. eapply Hp; eauto. }
  unfold find_root_cause_spans in Hout.
  destruct (process_groups_spec (Dict.items (trace_groups all_spans))) as (out' & Hout' & Hin).
  { intros t l H. apply trace_groups_In in H. destruct H as [-> _].
    destruct (Hone t) as (o & Ho & _). eauto. }
  assert (out' = out) by congruence. subst out'.
  intros x. rewrite Hin. split.
  - intros (t & l & o & Hg & Ho & Hx).
    apply trace_groups_In in Hg. destruct Hg as [-> _].
    destruct (Hone t) as (o' & Ho' & Hspec).
    assert (o' = o) by congruence. subst o'.
    exists t. now apply Hspec.
  - intros (t & Hlt & Hno).
    destruct (Hone t) as (o & Ho & Hspec).
    destruct (last_status_errored _ _ Hlt) as (s & Hs & _ & _).
    apply filter_In in Hs. destruct Hs as [Hs Ht].
    exists t, (filter (in_trace t) all_spans), o. split.
    + apply trace_groups_In. eauto.
    + split; [exact Ho|]. apply Hspec. auto.
Qed.

(** The three spans of the example: A (status 0, no parent), B (status 2,
    child of A) and C (status 2, child of B), all of trace t1. *)
Definition chain_ABC : list span :=
  [ mkSpan "A" "" "0" (Some "t1");
    mkSpan "B" "A" "2" (Some "t1");
    mkSpan "C" "B" "2" (Some "t1") ].

(** C1, amended. [find_root_cause_spans] returns exactly when every row
    that carries a trace id has the fields [spanId], [parentSpanId] and
    [statusCode] and a status code that [int] parses. What it returns then
    is, trace by trace, the ids whose status is above 1 and none of whose
    registered children (rows of the trace with a non-empty
    [parentSpanId] equal to the id) has a status above 1 - the status of
    an id being the status of the last row of the trace with this id. When
    the span ids of each trace are distinct, these are exactly the spans
    [s] of some trace with status > 1 such that no span of the same trace
    registered as a child of [s] has status > 1; an errored span without
    registered children is then always returned. On the example A, B, C
    the result is C. *)
Theorem find_root_cause_spans_exact (all_spans : list span) :
  ((exists out, find_root_cause_spans int all_spans = Returns out) <->
   (forall s t, In s all_spans -> in_trace t s = true -> parses int s)) /\
  (forall out, find_root_cause_spans int all_spans = Returns out ->
     (forall x, In x out <->
        exists t,
          (1 < last_status int (filter (in_trace t) all_spans) x)%Z /\
          forall c, In c (filter (in_trace t) all_spans) -> is_child_of x c = true ->
            (last_status int (filter (in_trace t) all_spans) (spanId c) <= 1)%Z) /\
     ((forall t, NoDup (map spanId (filter (in_trace t) all_spans))) ->
      forall x, In x out <->
        exists t s, In s all_spans /\ in_trace t s = true /\ spanId s = x /\
          (1 < status_of int s)%Z /\
          forall c, In c all_spans -> in_trace t c = true ->
                    is_child_of x c = true -> (status_of int c <= 1)%Z)) /\
  (int "0" = Returns 0%Z -> int "2" = Returns 2%Z ->
   find_root_cause_spans int chain_ABC = Returns ["C"]).
Proof.
  split; [apply find_root_cause_spans_returns|]. split.
  - intros out Hout.
    pose proof (find_root_cause_spans_spec all_spans out Hout) as Hspec.
    split; [exact Hspec|].
    intros Hnd x. rewrite Hspec. split.
    + intros (t & Hlt & Hno).
      destruct (last_status_errored _ _ Hlt) as (s & Hs & Hid & Hst).
      pose proof Hs as Hs'. apply filter_In in Hs'. destruct Hs' as [Hin Ht].
      exists t, s. repeat split; auto; [lia|].
      intros c Hc Htc Hch.
      assert (Hc' : In c (filter (in_trace t) all_spans)) by (apply filter_In; auto).
      rewrite <- (last_status_unique _ c (Hnd t) Hc'). now apply Hno.
    + intros (t & s & Hs & Ht & Hid & Hst & Hno).
      assert (Hs' : In s (filter (in_trace t) all_spans)) by (apply filter_In; auto).
      exists t. split.
      * rewrite <- Hid. now rewrite (last_status_unique _ s (Hnd t) Hs').
      * intros c Hc Hch. rewrite (last_status_unique _ c (Hnd t) Hc).
        apply filter_In in Hc. destruct Hc. now apply Hno.
  - intros H0 H2. unfold find_root_cause_spans, chain_ABC. simpl.
    unfold process_one_trace_log. simpl. unfold record_span. simpl.
    rewrite H0, H2. reflexivity.
Qed.

End WithInt.

(** The example with the parser of ASCII literals: every row parses, the
    ids are distinct, and the result is C. *)
Lemma find_root_cause_spans_exact_witness :
  exists out, find_root_cause_spans py_int chain_ABC = Returns out /\
    out = ["C"] /\
    forall x, In x out <->
      exists t s, In s chain_ABC /\ in_trace t s = true /\ spanId s = x /\
        (1 < status_of py_int s)%Z /\
        forall c, In c chain_ABC -> in_trace t c = true ->
                  is_child_of x c = true -> (status_of py_int c <= 1)%Z.
Proof.
  destruct (find_root_cause_spans_exact py_int chain_ABC) as (Hret & Hspec & Hex).
  exists ["C"]. split; [now apply Hex|]. split; [reflexivity|].
  apply (Hspec ["C"]); [now apply Hex|].
  intros t. destruct (String.eqb "t1" t) eqn:E.
  - apply String.eqb_eq in E. subst t. vm_compute.
    repeat constructor; simpl; intuition discriminate.
  - assert (Hnil : filter (in_trace t) chain_ABC = []).
    { apply filter_none.
      intros s [<-|[<-|[<-|[]]]]; rewrite in_trace_mkSpan; simpl; exact E. }
    rewrite Hnil. constructor.
Defined.

(** The example of C1, evaluated: B is dropped because its child C errored. *)
Example find_root_cause_spans_chain :
  find_root_cause_spans py_int chain_ABC = Returns ["C"].
Proof. reflexivity. Qed.

(** A trace in which the id "a" is reported twice, first with status 2,
    then with status 0; no row names "a" as its parent. *)
Definition repeated_status_trace : list span :=
  [ mkSpan "a" "" "2" (Some "t1");
    mkSpan "a" "" "0" (Some "t1") ].

(** C1 as stated fails. On [repeated_status_trace] the first row is a span
    with status 2 > 1 and no span of the trace names it as its parent, yet
    nothing is returned: the later row with the same id overwrote the
    status. And not every input makes the call return: a row of a trace
    without [parentSpanId] makes it raise [KeyError]. *)
Lemma find_root_cause_spans_repeated_id :
  find_root_cause_spans py_int repeated_status_trace = Returns [] /\
  (exists s, In s repeated_status_trace /\ in_trace "t1" s = true /\
     spanId s = "a" /\ (1 < status_of py_int s)%Z /\
     forall c, In c repeated_status_trace -> in_trace "t1" c = true ->
               is_child_of "a" c = false) /\
  find_root_cause_spans py_int
    [[("spanId", "a"); ("statusCode", "2"); ("traceId", "t1")]] = Raises KeyError.
Proof.
  split; [reflexivity|]. split; [|reflexivity].
  exists (mkSpan "a" "" "2" (Some "t1")).
  split; [simpl; auto|]. split; [reflexivity|]. split; [reflexivity|].
  split; [reflexivity|].
  intros c [<-|[<-|[]]] _; reflexivity.
Qed.

(** A trace of two spans, the second with a status that is no integer. *)
Definition unparsable_trace : list span :=
  [ mkSpan "b" "" "2" (Some "t1");
    mkSpan "d" "b" "oops" (Some "t1") ].

(** C3 as stated fails: on [unparsable_trace] the call raises instead of
    returning the root causes of the remaining span. *)
Lemma find_root_cause_spans_unparsable_raises :
  find_root_cause_spans py_int unparsable_trace = Raises ValueError /\
  ~ (exists out, find_root_cause_spans py_int unparsable_trace = Returns out).
Proof.
  split; [reflexivity|]. intros [out H]. discriminate H.
Qed.

(** C3, amended. Empty input gives the empty list; and a span of some
    trace whose status code is no integer makes the whole call raise -
    nothing is skipped and no list is returned. The exception is the
    [ValueError] of [int] when every row that carries a trace id has the
    three fields (a row without one of them raises [KeyError] when it
    comes first). *)
Theorem find_root_cause_spans_error_handling (int : string -> outcome Z)
    (all_spans : list span) :
  (exists s t code, In s all_spans /\ in_trace t s = true /\
                    Dict.get s "statusCode" = Some code /\
                    int code = Raises ValueError) ->
  find_root_cause_spans int [] = Returns [] /\
  (exists e, find_root_cause_spans int all_spans = Raises e) /\
  ((forall code e, int code = Raises e -> e = ValueError) ->
   (forall s t, In s all_spans -> in_trace t s = true -> has_fields s = true) ->
   find_root_cause_spans int all_spans = Raises ValueError).
Proof.
  intros (s & t & code & Hs & Ht & Hcode & Hr). split; [reflexivity|].
  assert (Hraise : exists e, find_root_cause_spans int all_spans = Raises e).
  { destruct (find_root_cause_spans int all_spans) as [out|e] eqn:E; [|eauto].
    exfalso.
    assert (Hp : parses int s).
    { apply (proj1 (find_root_cause_spans_returns int all_spans)) with (t := t); eauto. }
    destruct Hp as [_ [z Hz]].
    unfold statusCode, Dict.get_default in Hz. rewrite Hcode in Hz. congruence. }
  split; [exact Hraise|].
  intros Hint Hfields. destruct Hraise as [e He]. rewrite He. f_equal.
  unfold find_root_cause_spans in He.
  apply process_groups_raises in He. destruct He as (t' & l & Hin & Hl).
  apply trace_groups_In in Hin. destruct Hin as [-> _].
  apply process_one_trace_log_raises in Hl.
  destruct Hl as (s' & Hs' & [[Hf _]|[_ Hi]]).
  - apply filter_In in Hs'. destruct Hs' as [Hs' Ht'].
    rewrite (Hfields s' t' Hs' Ht') in Hf. discriminate.
  - eapply Hint; eauto.
Qed.

Lemma find_root_cause_spans_error_handling_witness :
  find_root_cause_spans py_int [] = Returns [] /\
  find_root_cause_spans py_int unparsable_trace = Raises ValueError.
Proof.
  destruct (find_root_cause_spans_error_handling py_int unparsable_trace)
    as (Hempty & _ & Hraise).
  - exists (mkSpan "d" "b" "oops" (Some "t1")), "t1", "oops".
    split; [simpl; auto|]. repeat split; reflexivity.
  - split; [exact Hempty|]. apply Hraise.
    + apply py_int_exn.
    + intros s t [<-|[<-|[]]] _; reflexivity.
Defined.

End ErrorSpanFacts.

(* ================================================================== *)
(** ** The percentile selector and the baseline averager *)

Module LatencyFacts.
Import LatencySpanFinder DictFacts.

Local Open Scope Q_scope.

(** *** Rationals *)

Lemma Qlt_bool_iff x y : Qlt_bool x y = true <-> x < y.
Proof.
  unfold Qlt_bool. rewrite negb_true_iff. split.
  - intros H. apply Qnot_le_lt. intros Hle.
    apply Qle_bool_iff in Hle. congruence.
  - intros H. apply not_true_is_false. intros Hle.
    apply Qle_bool_iff in Hle. apply (Qlt_not_le _ _ H Hle).
Qed.


Lemma Qle_bool_false x y : Qle_bool x y = false <-> y < x.
Proof.
  rewrite <- Qlt_bool_iff. unfold Qlt_bool. now rewrite negb_true_iff.
Qed.

Lemma positive_duration_Some v d :
  positive_duration v = Some d <-> v = JNum d /\ 0 < d.
Proof.
  destruct v as [q|]; simpl.
  - destruct (Qlt_bool 0 q) eqn:E.
    + apply Qlt_bool_iff in E. split.
      * intros [= ->]. auto.
      * intros [[= ->] _]. reflexivity.
    + split; [discriminate|]. intros [[= ->] H].
      apply Qlt_bool_iff in H. congruence.
  - split; [discriminate|]. intros [H _]. discriminate.
Qed.

Lemma Qmin_nonneg x y : 0 <= x -> 0 <= y -> 0 <= Qmin x y.
Proof. intros. now apply Q.min_glb. Qed.

Lemma Qmin_le_r x y : Qmin x y <= y.
Proof. apply Q.le_min_r. Qed.

(** *** Prefixes *)

Lemma In_firstn_In {A : Type} n (l : list A) x : In x (firstn n l) -> In x l.
Proof.
  intros H. rewrite <- (firstn_skipn n l). apply in_or_app. now left.
Qed.

Lemma In_skipn_In {A : Type} n (l : list A) x : In x (skipn n l) -> In x l.
Proof.
  intros H. rewrite <- (firstn_skipn n l). apply in_or_app. now right.
Qed.

Lemma NoDup_firstn_keep {A : Type} n (l : list A) : NoDup l -> NoDup (firstn n l).
Proof.
  intros H. rewrite <- (firstn_skipn n l) in H.
  now apply NoDup_app_remove_r in H.
Qed.

(** *** Sorting *)

Section Sorting.
Context {A : Type} (key : A -> Q).

Definition descending : list A -> Prop :=
  StronglySorted (fun a b => key b <= key a).

Lemma insert_desc_perm x l : Permutation (insert_desc key x l) (x :: l).
Proof.
  induction l as [|y r IH]; simpl; [reflexivity|].
  destruct (Qle_bool (key y) (key x)); [reflexivity|].
  rewrite IH. apply perm_swap.
Qed.

Lemma sort_desc_perm l : Permutation (sort_desc key l) l.
Proof.
  induction l as [|x r IH]; simpl; [reflexivity|].
  rewrite insert_desc_perm. now constructor.
Qed.

Lemma insert_desc_sorted x l : descending l -> descending (insert_desc key x l).
Proof.
  unfold descending. induction l as [|y r IH]; simpl; intros Hs.
  - repeat constructor.
  - inversion Hs as [|? ? Hr Hall]; subst.
    destruct (Qle_bool (key y) (key x)) eqn:E.
    + apply Qle_bool_iff in E. constructor; [assumption|].
      constructor; [assumption|].
      eapply Forall_impl; [|exact Hall]. simpl. intros a Ha.
      now apply Qle_trans with (key y).
    + apply Qle_bool_false in E. constructor; [auto|].
      apply Forall_forall. intros a Ha.
      apply (Permutation_in _ (insert_desc_perm x r)) in Ha.
      destruct Ha as [<-|Ha].
      * now apply Qlt_le_weak.
      * rewrite Forall_forall in Hall. auto.
Qed.

Lemma sort_desc_sorted l : descending (sort_desc key l).
Proof.
  induction l as [|x r IH]; simpl; [constructor|].
  now apply insert_desc_sorted.
Qed.

Lemma sort_desc_length l : List.length (sort_desc key l) = List.length l.
Proof. apply Permutation_length, sort_desc_perm. Qed.

(** In a descending list every element of a prefix is at least as large
    as every element after the prefix. *)
Lemma descending_firstn_skipn n l a b :
  descending l -> In a (firstn n l) -> In b (skipn n l) -> key b <= key a.
Proof.
  unfold descending. revert l. induction n as [|n IH]; intros l Hs Ha Hb.
  - simpl in Ha. contradiction.
  - destruct l as [|x r]; [contradiction|].
    inversion Hs as [|? ? Hr Hall]; subst. simpl in Ha, Hb.
    destruct Ha as [<-|Ha].
    + rewrite Forall_forall in Hall. apply Hall.
      now apply (In_skipn_In n r b).
    + now apply (IH r).
Qed.
End Sorting.

(** *** Sums *)

Lemma sum_from_ge acc l : Forall (fun d => 0 <= d) l -> acc <= sum_from acc l.
Proof.
  revert acc. induction l as [|x r IH]; intros acc H; simpl.
  - apply Qle_refl.
  - inversion H as [|? ? Hx Hr]; subst.
    apply Qle_trans with (acc + x); [|now apply IH].
    rewrite <- (Qplus_0_r acc) at 1. apply Qplus_le_compat; [apply Qle_refl|assumption].
Qed.

(** *** The 95% prefix *)

(** The loop always returns the ids of a prefix of the list it walks. *)
Lemma take_until_prefix acc target l :
  exists k, (k <= List.length l)%nat /\ take_until acc target l = map fst (firstn k l).
Proof.
  revert acc. induction l as [|[sid d] r IH]; intros acc; simpl.
  - exists 0%nat. auto.
  - destruct (Qle_bool target (acc + d)).
    + exists 1%nat. split; [lia|reflexivity].
    + destruct (IH (acc + d)) as (k & Hk & ->).
      exists (S k). split; [lia|reflexivity].
Qed.

(** When some non-empty prefix reaches the target, the loop stops at the
    shortest one. *)
Lemma take_until_least acc target l :
  (exists j, (1 <= j <= List.length l)%nat /\
             target <= sum_from acc (map snd (firstn j l))) ->
  exists k, (1 <= k <= List.length l)%nat /\
    take_until acc target l = map fst (firstn k l) /\
    target <= sum_from acc (map snd (firstn k l)) /\
    forall j, (1 <= j < k)%nat -> sum_from acc (map snd (firstn j l)) < target.
Proof.
  revert acc. induction l as [|[sid d] r IH]; intros acc (j & Hj & Hreach).
  - simpl in Hj. lia.
  - simpl take_until. destruct (Qle_bool target (acc + d)) eqn:E.
    + apply Qle_bool_iff in E. exists 1%nat. simpl. repeat split; auto; try lia.
    + apply Qle_bool_false in E.
      destruct j as [|[|j]]; [lia| |].
      * simpl in Hreach. exfalso. apply (Qlt_not_le _ _ E Hreach).
      * destruct (IH (acc + d)) as (k & Hk & Htake & Hk_reach & Hmin).
        { exists (S j). simpl in Hj. split; [lia|]. exact Hreach. }
        exists (S k). simpl List.length. split; [lia|]. split.
        { rewrite Htake. reflexivity. }
        split; [exact Hk_reach|].
        intros [|[|j']] Hj'; [lia|exact E|].
        apply (Hmin (S j')). lia.
Qed.

Lemma total_duration_nonneg (l : list (string * Q)) :
  (forall sid d, In (sid, d) l -> 0 <= d) -> 0 <= total_duration l.
Proof.
  intros H. unfold total_duration. apply sum_from_ge.
  apply Forall_forall. intros d Hd. apply in_map_iff in Hd.
  destruct Hd as ([sid d'] & <- & Hin). simpl. eauto.
Qed.

(** The durations of the worked example, in the order the rows give them. *)
Definition example_durations : list (string * Q) :=
  [("a", 70 # 1); ("b", 10 # 1); ("c", 10 # 1); ("d", 5 # 1); ("e", 5 # 1)].

(** The selection in exact arithmetic. With [sorted] the adjusted durations
    in descending order and [total] their sum: a zero total gives the empty
    list; otherwise the result is the ids of the shortest prefix of
    [sorted] whose running sum reaches [total * PERCENT_95]: the span that
    reaches the target is included and every shorter prefix (in particular
    the result without its last span) stays strictly below the target.
    Adjusted durations are non-negative and the percentile lies in
    (0, 1]. *)
Lemma exact_prefix_is_smallest (c : constants)
    (adjusted : list (string * Q)) :
  0 < PERCENT_95 c -> PERCENT_95 c <= 1 ->
  (forall sid d, In (sid, d) adjusted -> 0 <= d) ->
  let sorted := sort_desc snd adjusted in
  let total := total_duration sorted in
  Permutation sorted adjusted /\ descending snd sorted /\
  (total == 0 -> top_95_percent_spans c adjusted = []) /\
  (~ total == 0 ->
   exists k, (1 <= k <= List.length sorted)%nat /\
     top_95_percent_spans c adjusted = map fst (firstn k sorted) /\
     total * PERCENT_95 c <= total_duration (firstn k sorted) /\
     forall j, (j < k)%nat -> total_duration (firstn j sorted) < total * PERCENT_95 c).
Proof.
  intros Hp0 Hp1 Hnn sorted total.
  assert (Hperm : Permutation sorted adjusted) by apply sort_desc_perm.
  assert (Hnn' : forall sid d, In (sid, d) sorted -> 0 <= d).
  { intros sid d H. apply (Hnn sid). eapply Permutation_in; eauto. }
  split; [exact Hperm|]. split; [apply sort_desc_sorted|].
  unfold top_95_percent_spans. fold sorted. fold total. split.
  - intros H0. apply Qeq_eq_bool in H0. now rewrite H0.
  - intros Hne.
    destruct (Qeq_bool total 0) eqn:E; [apply Qeq_bool_eq in E; contradiction|].
    assert (Htot : 0 < total).
    { pose proof (total_duration_nonneg sorted Hnn') as H. fold total in H.
      apply Qle_lteq in H. destruct H as [H|H]; [exact H|].
      exfalso. apply Hne. now symmetry. }
    assert (Htarget : 0 < total * PERCENT_95 c) by now apply Qmult_lt_0_compat.
    destruct (take_until_least 0 (total * PERCENT_95 c) sorted) as (k & Hk & Htake & Hreach & Hmin).
    { exists (List.length sorted). split.
      - split; [|lia]. destruct sorted as [|x r]; simpl; [|lia].
        exfalso. apply Hne. reflexivity.
      - rewrite firstn_all. change (total * PERCENT_95 c <= total).
        rewrite <- (Qmult_1_r total) at 2.
        rewrite Qmult_le_l by assumption. exact Hp1. }
    exists k. repeat split; auto; try lia.
    intros [|j] Hj; [exact Htarget|].
    apply (Hmin (S j)). lia.
Qed.

(** The worked example in exact arithmetic: cumulative 70, 80, 90, 95
    against the target 95; the loop stops at d and leaves e out. *)
Example top_95_percent_spans_example :
  top_95_percent_spans default_constants example_durations = ["a"; "b"; "c"; "d"] /\
  total_duration (firstn 4 (sort_desc snd example_durations)) == 95 # 1 /\
  total_duration (firstn 3 (sort_desc snd example_durations)) <
    total_duration example_durations * PERCENT_95 default_constants.
Proof. repeat split. Qed.

(** *** What the rows leave in the two dictionaries *)

Definition mappings_ok (c : constants) (m : mappings) : Prop :=
  NoDup (Dict.keys (span_duration_mapping m)) /\
  forall sid d, In (sid, d) (span_duration_mapping m) -> clamped c d.

Lemma store_span_ok c spans m sid idx d :
  mappings_ok c m -> clamped c d -> mappings_ok c (store_span spans m sid idx d).
Proof.
  intros [Hnd Hcl] Hd. unfold store_span.
  assert (Hok : NoDup (Dict.keys (Dict.set (span_duration_mapping m) sid d)) /\
                forall sid' d', In (sid', d') (Dict.set (span_duration_mapping m) sid d) ->
                                clamped c d').
  { split; [now apply NoDup_keys_set|].
    intros sid' d' H. apply In_set in H. destruct H as [[-> ->]|H]; eauto. }
  destruct (identity_at spans idx); exact Hok.
Qed.

Lemma collect_span_ok c spans m x :
  mappings_ok c m -> mappings_ok c (collect_span c spans m x).
Proof.
  intros Hm. destruct x as [[sid idx] v]. unfold collect_span.
  destruct (positive_duration v) as [d|] eqn:E; [|exact Hm].
  apply positive_duration_Some in E. destruct E as [_ Hd].
  apply store_span_ok; [exact Hm|]. exists d. auto.
Qed.

Lemma py_max_In {A : Type} (key : A -> Q) (l : list A) x :
  py_max key l = Some x -> In x l.
Proof.
  destruct l as [|b r]; simpl; [discriminate|]. intros [= <-].
  revert b. induction r as [|y r IH]; intros b; simpl; [auto|].
  destruct (Qlt_bool (key b) (key y)).
  - right. apply IH.
  - destruct (IH b) as [H|H]; auto.
Qed.

Lemma adjusted_spans_In c self lg sid idx adj orig :
  In (sid, idx, adj, orig) (adjusted_spans c self lg) ->
  clamped c orig /\
  adj = adjust_duration c (span_average_durations self)
          (identity_at (span_list lg) idx) orig.
Proof.
  unfold adjusted_spans. rewrite in_flat_map.
  intros ([[sid' idx'] v] & _ & H).
  destruct (positive_duration v) as [d|] eqn:E; [|contradiction].
  apply positive_duration_Some in E. destruct E as [_ Hd].
  destruct H as [[= <- <- <- <-]|[]]. split; [|reflexivity].
  exists d. auto.
Qed.

Lemma valid_spans_In c lg sid idx d :
  In (sid, idx, d) (valid_spans c lg) -> clamped c d.
Proof.
  unfold valid_spans. rewrite in_flat_map.
  intros ([[sid' idx'] v] & _ & H).
  destruct (positive_duration v) as [raw|] eqn:E; [|contradiction].
  apply positive_duration_Some in E. destruct E as [_ Hd].
  destruct H as [[= <- <- <-]|[]]. exists raw. auto.
Qed.

Lemma process_log_ok c self m lg :
  mappings_ok c m -> mappings_ok c (process_log c self m lg).
Proof.
  intros Hm. unfold process_log.
  destruct (_ || _)%bool; [exact Hm|].
  destruct (only_top1_per_trace self).
  - destruct (_ && _)%bool.
    + destruct (py_max _ (adjusted_spans c self lg)) as [[[[sid idx] adj] orig]|] eqn:E;
        [|exact Hm].
      apply py_max_In, adjusted_spans_In in E.
      apply store_span_ok; tauto.
    + destruct (py_max _ (valid_spans c lg)) as [[[sid idx] d]|] eqn:E; [|exact Hm].
      apply py_max_In, valid_spans_In in E.
      now apply store_span_ok.
  - generalize (zip3 (span_id lg) (span_index lg) (exclusive_duration lg)).
    intros l. revert m Hm. induction l as [|x r IH]; intros m Hm; simpl; [exact Hm|].
    apply IH. now apply collect_span_ok.
Qed.

Lemma collect_ok c self logs : mappings_ok c (collect c self logs).
Proof.
  unfold collect.
  assert (H0 : mappings_ok c (mkMappings Dict.empty Dict.empty)).
  { split; simpl; [constructor|]. intros ? ? []. }
  revert H0. generalize (mkMappings Dict.empty Dict.empty).
  induction logs as [|lg r IH]; intros m Hm; simpl; [exact Hm|].
  apply IH. now apply process_log_ok.
Qed.

(** Every branch of lines 440-479 lists the keys of
    [span_duration_mapping], in order. *)
Lemma adjusted_span_durations_keys c self ask m :
  map fst (fst (adjusted_span_durations c self ask m)) =
  Dict.keys (span_duration_mapping m).
Proof.
  unfold adjusted_span_durations, _adjust_durations_directly,
    _adjust_durations_with_span_average, Dict.items, Dict.keys.
  destruct (_ && _)%bool; [destruct (choose_strategy m)|]; simpl;
    rewrite map_map; reflexivity.
Qed.

(** C10. The list returned by the percentile selector never holds a span id
    twice, whatever the rows, the options and the answers of the identity
    queries are: durations are keyed by span id before they are ranked. *)
Theorem top_95_percent_spans_NoDup (c : constants) (self : finder) (ask : lookup)
    (logs : list log) :
  NoDup (fst (_process_exclusive_duration_data c self ask logs)).
Proof.
  unfold _process_exclusive_duration_data.
  destruct (Dict.nonempty _); [|constructor].
  pose proof (adjusted_span_durations_keys c self ask (collect c self logs)) as Hk.
  destruct (adjusted_span_durations c self ask (collect c self logs)) as [adj issued].
  simpl in *. unfold top_95_percent_spans.
  destruct (Qeq_bool _ 0); [constructor|].
  destruct (take_until_prefix 0
              (total_duration (sort_desc snd adj) * PERCENT_95 c)
              (sort_desc snd adj)) as (k & _ & ->).
  rewrite <- firstn_map. apply NoDup_firstn_keep.
  apply (Permutation_NoDup (l := map fst adj)).
  - apply Permutation_map. symmetry. apply sort_desc_perm.
  - rewrite Hk. apply (collect_ok c self logs).
Qed.

(** *** Normalization *)

Lemma adjusted_In c averages (sm : Dict.t (string * string)) (dm : Dict.t Q) sid a :
  In (sid, a)
     (map (fun kv : string * Q =>
             (fst kv, adjust_duration c averages (Dict.get sm (fst kv)) (snd kv))) dm) ->
  exists d, In (sid, d) dm /\ a = adjust_duration c averages (Dict.get sm sid) d.
Proof.
  rewrite in_map_iff. intros ([k d] & [= <- <-] & Hin). simpl. eauto.
Qed.

Lemma adjust_duration_spec c averages dm identity sid raw :
  0 <= MAX_DURATION c -> 0 < raw ->
  Dict.get dm sid = Some (Qmin raw (MAX_DURATION c)) ->
  spec_adjusted c averages dm identity sid
    (adjust_duration c averages identity (Qmin raw (MAX_DURATION c))).
Proof.
  intros Hmax Hraw Hget. exists raw. split; [exact Hraw|]. split; [exact Hget|].
  assert (Hc : 0 <= Qmin raw (MAX_DURATION c))
    by (apply Qmin_nonneg; [now apply Qlt_le_weak|exact Hmax]).
  unfold adjust_duration. destruct identity as [[service_name span_name]|]; [|auto].
  destruct (Dict.get averages (combined_key service_name span_name)); [|auto].
  split; [|reflexivity]. apply Qmin_nonneg; [apply Q.le_max_l|exact Hmax].
Qed.

Lemma fetch_identities_replies ask (batches : list (list string)) :
  forall sm,
  fold_left (query_batch ask) batches sm =
  fold_left record_identity (replies ask batches) sm.
Proof.
  induction batches as [|b r IH]; intros sm; simpl; [reflexivity|].
  rewrite fold_left_app, IH. unfold query_batch. now destruct (ask b).
Qed.

(** The returned row names span [sid], with a non-empty service and
    operation. *)
Definition names_span (sid : string) (sl : service_log) : bool :=
  match sl_spanId sl, sl_serviceName sl, sl_spanName sl with
  | Some k, Some service_name, Some span_name =>
      (String.eqb k sid && truthy k && truthy service_name && truthy span_name)%bool
  | _, _, _ => false
  end.

(** The identity the identity queries give for span [sid]: the service and
    operation of the last returned row that names it, if there is one. *)
Definition last_identity (sid : string) (service_logs : list service_log)
  : option (string * string) :=
  match find (names_span sid) (rev service_logs) with
  | Some sl =>
      match sl_serviceName sl, sl_spanName sl with
      | Some service_name, Some span_name => Some (service_name, span_name)
      | _, _ => None
      end
  | None => None
  end.

Lemma record_identities_get (l : list service_log) sid :
  forall sm,
  Dict.get (fold_left record_identity l sm) sid =
  match find (names_span sid) (rev l) with
  | Some sl =>
      match sl_serviceName sl, sl_spanName sl with
      | Some service_name, Some span_name => Some (service_name, span_name)
      | _, _ => None
      end
  | None => Dict.get sm sid
  end.
Proof.
  induction l as [|sl r IH]; intros sm; simpl; [reflexivity|].
  rewrite IH, find_app_first.
  destruct (find (names_span sid) (rev r)); [reflexivity|].
  destruct sl as [[k|] [sn|] [pn|]]; simpl; unfold names_span, record_identity; simpl;
    try reflexivity.
  destruct (String.eqb k sid) eqn:E; simpl.
  - apply String.eqb_eq in E. subst k.
    destruct (truthy sid && truthy sn && truthy pn)%bool; [|reflexivity].
    apply get_set_same.
  - apply String.eqb_neq in E.
    destruct (truthy k && truthy sn && truthy pn)%bool; [|reflexivity].
    now apply get_set_other.
Qed.

Lemma fetch_identities_get ask batches sid :
  Dict.get (fetch_identities ask batches) sid = last_identity sid (replies ask batches).
Proof.
  unfold fetch_identities, last_identity.
  rewrite fetch_identities_replies, record_identities_get.
  now destruct (find (names_span sid) (rev (replies ask batches))).
Qed.

(** One row with one span of raw duration 500 whose identity is (svc, op). *)
Definition one_span_row : list log :=
  [mkLog ["s"] [0%Z] [JNum (500 # 1)] [InfoDict "svc" "" "op" ""]].

(** The same span in a row without [span_list]: its identity is known only
    to the identity query. *)
Definition unlabelled_row : list log :=
  [mkLog ["s"] [0%Z] [JNum (500 # 1)] []].

(** A lookup that answers for span "s" only. *)
Definition lookup_s : lookup :=
  fun _ => Returns [mkServiceLog (Some "s") (Some "svc") (Some "op")].

Definition finder_with_baseline (avg : Q) : finder :=
  mkFinder true false [(combined_key "svc" "op", avg)].

(** C5. With normalization active, the chosen adjustment routine
    ([_adjust_durations_directly] or [_adjust_durations_with_span_average])
    lists every recorded span once, in the order of
    [span_duration_mapping], and the pairs (span id, adjusted duration) it
    lists are exactly those that satisfy [spec_adjusted]: the span's stored
    duration is a positive raw duration cut at [MAX_DURATION]; if the
    routine resolved an identity for the span and the combined
    service/operation key has a baseline, the adjusted duration is
    max(0, clamped - baseline) cut again at [MAX_DURATION]; without
    identity or without baseline entry it is the clamped raw duration; and
    it is never negative. The identity of a span is the one its row
    attached when the direct routine is chosen, and the one of the last row
    the identity queries over the sampled span ids returned for it when
    the resample routine is chosen. *)
Theorem adjusted_durations_normalized (c : constants) (self : finder) (ask : lookup)
    (logs : list log) :
  0 <= MAX_DURATION c ->
  minus_average self = true ->
  Dict.nonempty (span_average_durations self) = true ->
  let m := collect c self logs in
  let adjusted := fst (adjusted_span_durations c self ask m) in
  map fst adjusted = Dict.keys (span_duration_mapping m) /\
  NoDup (map fst adjusted) /\
  (forall sid a,
     In (sid, a) adjusted <->
     spec_adjusted c (span_average_durations self) (span_duration_mapping m)
       (resolved_identity c ask m sid) sid a) /\
  (forall sid a, In (sid, a) adjusted -> 0 <= a) /\
  (forall sid,
     resolved_identity c ask m sid =
     match choose_strategy m with
     | Direct => Dict.get (span_service_mapping m) sid
     | Resample =>
         last_identity sid
           (replies ask (chunks batch_size (sampled_span_ids c (span_duration_mapping m))))
     end).
Proof.
  intros Hmax Hminus Hne m adjusted.
  destruct (collect_ok c self logs) as [Hnd Hcl]. fold m in Hnd, Hcl.
  assert (Hkeys : map fst adjusted = Dict.keys (span_duration_mapping m))
    by apply adjusted_span_durations_keys.
  assert (Hiff : forall sid a,
            In (sid, a) adjusted <->
            spec_adjusted c (span_average_durations self) (span_duration_mapping m)
              (resolved_identity c ask m sid) sid a).
  { intros sid a. subst adjusted.
    unfold adjusted_span_durations, resolved_identity. rewrite Hminus, Hne. simpl.
    split.
    - destruct (choose_strategy m);
        unfold _adjust_durations_directly, _adjust_durations_with_span_average, Dict.items;
        simpl; intros Hin; apply adjusted_In in Hin; destruct Hin as (d & Hin & ->);
        destruct (Hcl sid d Hin) as (raw & Hraw & ->);
        apply adjust_duration_spec; auto; now apply In_get_Some.
    - intros (raw & Hraw & Hget & _ & Ha). apply get_Some_In in Hget.
      destruct (choose_strategy m);
        unfold _adjust_durations_directly, _adjust_durations_with_span_average, Dict.items;
        simpl; apply in_map_iff; exists (sid, Qmin raw (MAX_DURATION c));
        (split; [|exact Hget]); simpl; f_equal; unfold adjust_duration;
        match goal with
        | |- context [match ?i with Some _ => _ | None => _ end] =>
            destruct i as [[service_name span_name]|]
        end; try (now symmetry);
        destruct (Dict.get (span_average_durations self)
                    (combined_key service_name span_name)); now symmetry. }
  split; [exact Hkeys|]. split; [rewrite Hkeys; exact Hnd|]. split; [exact Hiff|].
  split.
  - intros sid a Hin. apply Hiff in Hin. destruct Hin as (raw & _ & _ & H0 & _). exact H0.
  - intros sid. unfold resolved_identity.
    destruct (choose_strategy m); [reflexivity|]. apply fetch_identities_get.
Qed.

(** The resample routine on the example: the identity query resolves "s"
    to (svc, op), and raw 500 against a baseline of 200 gives 300. *)
Lemma adjusted_durations_normalized_witness :
  let m := collect default_constants (finder_with_baseline (200 # 1)) unlabelled_row in
  let adjusted :=
    fst (adjusted_span_durations default_constants (finder_with_baseline (200 # 1))
           lookup_s m) in
  choose_strategy m = Resample /\
  map fst adjusted = ["s"] /\
  In ("s", 300 # 1) adjusted.
Proof.
  intros m adjusted.
  destruct (adjusted_durations_normalized default_constants
              (finder_with_baseline (200 # 1)) lookup_s unlabelled_row)
    as (Hkeys & _ & Hiff & _ & _).
  - discriminate.
  - reflexivity.
  - reflexivity.
  - split; [reflexivity|]. split; [exact Hkeys|].
    apply Hiff. exists (500 # 1). split; [reflexivity|].
    split; [reflexivity|]. split; [discriminate|]. reflexivity.
Defined.

(** The two examples of C5, evaluated on both adjustment routines: raw 500
    against a baseline of 200 gives 300, against a baseline of 600 gives 0. *)
Example normalization_arithmetic :
  _adjust_durations_directly default_constants (finder_with_baseline (200 # 1))
    [("s", 500 # 1)] [("s", ("svc", "op"))] = [("s", 300 # 1)] /\
  fst (_adjust_durations_with_span_average default_constants
         (finder_with_baseline (200 # 1))
         (fun _ => Returns [mkServiceLog (Some "s") (Some "svc") (Some "op")])
         [("s", 500 # 1)]) = [("s", 300 # 1)] /\
  _adjust_durations_directly default_constants (finder_with_baseline (600 # 1))
    [("s", 500 # 1)] [("s", ("svc", "op"))] = [("s", 0)] /\
  fst (_adjust_durations_with_span_average default_constants
         (finder_with_baseline (600 # 1))
         (fun _ => Returns [mkServiceLog (Some "s") (Some "svc") (Some "op")])
         [("s", 500 # 1)]) = [("s", 0)].
Proof. repeat split. Qed.

(** *** The per-trace top-1 choice *)



(** The row of the example: A (raw 10, baseline 2), B (raw 12, baseline 10)
    and C (raw 8, baseline 1). *)
Definition top1_row : log :=
  mkLog ["A"; "B"; "C"] [0; 1; 2]%Z [JNum (10 # 1); JNum (12 # 1); JNum (8 # 1)]
    [InfoDict "sA" "" "op" ""; InfoDict "sB" "" "op" ""; InfoDict "sC" "" "op" ""].

Definition top1_finder : finder :=
  mkFinder true true
    [(combined_key "sA" "op", 2 # 1); (combined_key "sB" "op", 10 # 1);
     (combined_key "sC" "op", 1 # 1)].









(** The example of C6, evaluated: adjusted durations 8, 2 and 7; the span
    kept for the trace is A, not B with the largest raw duration. *)
Example top1_example :
  map adjusted_of (adjusted_spans default_constants top1_finder top1_row) =
    [8 # 1; 2 # 1; 7 # 1] /\
  py_max adjusted_of (adjusted_spans default_constants top1_finder top1_row) =
    Some ("A", 0%Z, 8 # 1, 10 # 1) /\
  Dict.keys (span_duration_mapping
               (collect default_constants top1_finder [top1_row])) = ["A"] /\
  fst (_process_exclusive_duration_data default_constants top1_finder
         (fun _ => Returns []) [top1_row]) = ["A"].
Proof. repeat split. Qed.

(** *** Batches *)

Lemma chunks_aux_spec {A : Type} (n : nat) :
  (0 < n)%nat ->
  forall fuel (l : list A), (List.length l <= fuel)%nat ->
  List.concat (chunks_aux fuel n l) = l /\
  Forall (fun b => (List.length b <= n)%nat) (chunks_aux fuel n l).
Proof.
  intros Hn. induction fuel as [|fuel IH]; intros l Hl.
  - destruct l; simpl in *; [auto|lia].
  - destruct l as [|x r]; simpl chunks_aux; [simpl; auto|].
    destruct (IH (skipn n (x :: r))) as [Hc Hf].
    { rewrite length_skipn.
      assert (Hx : List.length (x :: r) = S (List.length r)) by reflexivity.
      rewrite Hx in *. lia. }
    split.
    + rewrite concat_cons, Hc. apply firstn_skipn.
    + constructor; [apply firstn_le_length|exact Hf].
Qed.

Lemma chunks_spec {A : Type} (l : list A) :
  List.concat (chunks batch_size l) = l /\
  Forall (fun b => (List.length b <= batch_size)%nat) (chunks batch_size l).
Proof.
  apply chunks_aux_spec; [unfold batch_size; lia|lia].
Qed.

Lemma sampled_span_ids_length c dm :
  (List.length (sampled_span_ids c dm) <= HIGH_RT_TRACES c)%nat.
Proof.
  unfold sampled_span_ids.
  destruct (HIGH_RT_TRACES c <? List.length (Dict.keys dm))%nat eqn:E.
  - apply firstn_le_length.
  - apply Nat.ltb_ge in E. exact E.
Qed.

(** *** Choice of the identity-resolution strategy *)

Lemma coverage_above_half (m : mappings) :
  Dict.nonempty (span_duration_mapping m) = true ->
  (Qlt_bool (1 # 2) (coverage_rate m) = true <->
   (Dict.len (span_duration_mapping m) < 2 * Dict.len (span_service_mapping m))%nat).
Proof.
  intros Hne. rewrite Qlt_bool_iff. unfold coverage_rate, Qlt. simpl Qnum. simpl Qden.
  assert (Hpos : Dict.len (span_duration_mapping m) <> 0%nat).
  { unfold Dict.len. destruct (span_duration_mapping m); simpl in *; congruence. }
  assert (Hz : Z.pos (Pos.of_nat (Dict.len (span_duration_mapping m))) =
               Z.of_nat (Dict.len (span_duration_mapping m))).
  { rewrite <- positive_nat_Z. now rewrite Nat2Pos.id. }
  rewrite Hz. lia.
Qed.

Lemma choose_strategy_spec (m : mappings) :
  Dict.nonempty (span_duration_mapping m) = true ->
  choose_strategy m =
  if (Dict.len (span_duration_mapping m) <? 2 * Dict.len (span_service_mapping m))%nat
  then Direct else Resample.
Proof.
  intros Hne. unfold choose_strategy.
  destruct (Dict.nonempty (span_service_mapping m)) eqn:Es.
  - destruct (Qlt_bool (1 # 2) (coverage_rate m)) eqn:E.
    + apply coverage_above_half in E; auto. apply Nat.ltb_lt in E. now rewrite E.
    + destruct (Nat.ltb_spec (Dict.len (span_duration_mapping m))
                  (2 * Dict.len (span_service_mapping m))) as [H|H]; [|reflexivity].
      apply coverage_above_half in H; auto. congruence.
  - destruct (span_service_mapping m); [|discriminate]. simpl.
    destruct (Nat.ltb_spec (Dict.len (span_duration_mapping m)) 0); [lia|reflexivity].
Qed.

(** Two spans with a positive duration; only the first one has an entry in
    [span_list] that gives its service and operation. *)
Definition half_covered_row : log :=
  mkLog ["a"; "b"] [0; 1]%Z [JNum (10 # 1); JNum (10 # 1)] [InfoDict "sA" "" "op" ""].

Definition normalizing_finder : finder :=
  mkFinder true false [(combined_key "sA" "op", 2 # 1)].

(** C8 as stated fails at exactly 50%: with identities attached to one span
    out of two the code takes the resample route and issues the identity
    query for both spans. *)
Lemma half_coverage_resamples :
  coverage_rate (collect default_constants normalizing_finder [half_covered_row]) == 1 # 2 /\
  choose_strategy (collect default_constants normalizing_finder [half_covered_row]) = Resample /\
  snd (_process_exclusive_duration_data default_constants normalizing_finder
         (fun _ => Returns []) [half_covered_row]) = [["a"; "b"]] /\
  snd (_process_exclusive_duration_data default_constants normalizing_finder
         (fun _ => Returns []) [half_covered_row]) <> [].
Proof. repeat split. discriminate. Qed.

(** C8, amended. With normalization active and at least one span kept:
    identities attached to strictly more than half of the spans select the
    direct routine, which issues no identity query; identities attached to
    half of the spans or fewer - in particular to none - select the resample
    routine. Its queries cover the sampled span ids, at most
    [HIGH_RT_TRACES] of them, in batches of at most 500. *)
Theorem strategy_by_coverage (c : constants) (self : finder) (ask : lookup)
    (m : mappings) :
  minus_average self = true ->
  Dict.nonempty (span_average_durations self) = true ->
  Dict.nonempty (span_duration_mapping m) = true ->
  ((Dict.len (span_duration_mapping m) < 2 * Dict.len (span_service_mapping m))%nat ->
   choose_strategy m = Direct /\
   adjusted_span_durations c self ask m =
     (_adjust_durations_directly c self (span_duration_mapping m)
        (span_service_mapping m), [])) /\
  ((2 * Dict.len (span_service_mapping m) <= Dict.len (span_duration_mapping m))%nat ->
   choose_strategy m = Resample /\
   adjusted_span_durations c self ask m =
     _adjust_durations_with_span_average c self ask (span_duration_mapping m)) /\
  (let issued :=
     snd (_adjust_durations_with_span_average c self ask (span_duration_mapping m)) in
   List.concat issued = sampled_span_ids c (span_duration_mapping m) /\
   (List.length (List.concat issued) <= HIGH_RT_TRACES c)%nat /\
   Forall (fun b => (List.length b <= batch_size)%nat) issued).
Proof.
  intros Hminus Hne Hdm.
  pose proof (choose_strategy_spec m Hdm) as Hs.
  unfold adjusted_span_durations. rewrite Hminus, Hne. simpl andb. cbv iota.
  repeat split.
  - rewrite Hs. apply Nat.ltb_lt in H. now rewrite H.
  - rewrite Hs. apply Nat.ltb_lt in H. now rewrite H.
  - rewrite Hs. apply Nat.ltb_ge in H. now rewrite H.
  - rewrite Hs. apply Nat.ltb_ge in H. now rewrite H.
  - apply chunks_spec.
  - simpl. rewrite (proj1 (chunks_spec _)). apply sampled_span_ids_length.
  - apply chunks_spec.
Qed.

Lemma strategy_by_coverage_witness :
  let m := collect default_constants normalizing_finder [half_covered_row] in
  ((Dict.len (span_duration_mapping m) < 2 * Dict.len (span_service_mapping m))%nat ->
   choose_strategy m = Direct /\
   adjusted_span_durations default_constants normalizing_finder (fun _ => Returns []) m =
     (_adjust_durations_directly default_constants normalizing_finder
        (span_duration_mapping m) (span_service_mapping m), [])) /\
  ((2 * Dict.len (span_service_mapping m) <= Dict.len (span_duration_mapping m))%nat ->
   choose_strategy m = Resample /\
   adjusted_span_durations default_constants normalizing_finder (fun _ => Returns []) m =
     _adjust_durations_with_span_average default_constants normalizing_finder
       (fun _ => Returns []) (span_duration_mapping m)) /\
  (let issued :=
     snd (_adjust_durations_with_span_average default_constants normalizing_finder
            (fun _ => Returns []) (span_duration_mapping m)) in
   List.concat issued = sampled_span_ids default_constants (span_duration_mapping m) /\
   (List.length (List.concat issued) <= HIGH_RT_TRACES default_constants)%nat /\
   Forall (fun b => (List.length b <= batch_size)%nat) issued).
Proof.
  apply (strategy_by_coverage default_constants normalizing_finder (fun _ => Returns [])
           (collect default_constants normalizing_finder [half_covered_row]));
    reflexivity.
Defined.

(** *** Normalization requested without a baseline *)

Lemma process_log_without_baseline c only_top1 m lg :
  process_log c (mkFinder true only_top1 Dict.empty) m lg =
  process_log c (mkFinder false only_top1 Dict.empty) m lg.
Proof. reflexivity. Qed.

Lemma collect_without_baseline c only_top1 logs :
  collect c (mkFinder true only_top1 Dict.empty) logs =
  collect c (mkFinder false only_top1 Dict.empty) logs.
Proof.
  unfold collect. generalize (mkMappings Dict.empty Dict.empty).
  induction logs as [|lg r IH]; intros m; simpl; [reflexivity|].
  rewrite process_log_without_baseline. apply IH.
Qed.

(** The rows of the worked example of the percentile selection. *)
Definition example_rows : list log :=
  [mkLog ["a"; "b"; "c"; "d"; "e"] [0; 1; 2; 3; 4]%Z
     [JNum (70 # 1); JNum (10 # 1); JNum (10 # 1); JNum (5 # 1); JNum (5 # 1)] []].

(** A reference window with three spans; the identity query resolves the
    first two to (svc, op) and brings nothing for the third. *)
Definition reference_rows : list log :=
  [mkLog ["s1"; "s2"; "s3"] [0; 1; 2]%Z
     [JNum (100 # 1); JNum (300 # 1); JNum (50 # 1)] []].

Definition reference_lookup : lookup :=
  fun _ => Returns [mkServiceLog (Some "s1") (Some "svc") (Some "op");
                    mkServiceLog (Some "s2") (Some "svc") (Some "op")].

(** C4 as stated fails: a finder built with [minus_average=True] and no
    reference window has no baseline, and the selector still returns the
    95% list of the un-normalized durations instead of an error. *)
Lemma normalization_without_baseline_returns :
  span_average_durations
    (init mean default_constants true false None None (Returns []) (fun _ => Returns [])) =
    Dict.empty /\
  find_top_95_percent_spans default_constants
    (init mean default_constants true false None None (Returns []) (fun _ => Returns []))
    (Returns example_rows) (fun _ => Returns []) =
    (Returns ["a"; "b"; "c"; "d"], []) /\
  ~ (exists e,
       fst (find_top_95_percent_spans default_constants
              (init mean default_constants true false None None (Returns [])
                 (fun _ => Returns []))
              (Returns example_rows) (fun _ => Returns [])) = Raises e).
Proof.
  split; [reflexivity|]. split; [reflexivity|]. intros [e H]. discriminate H.
Qed.

Lemma find_top_95_without_baseline c (self : finder) response ask :
  span_average_durations self = Dict.empty ->
  find_top_95_percent_spans c self response ask =
  find_top_95_percent_spans c (mkFinder false (only_top1_per_trace self) Dict.empty)
    response ask /\
  snd (find_top_95_percent_spans c self response ask) = [].
Proof.
  destruct self as [minus only_top1 averages]. simpl. intros ->.
  assert (Heq : forall logs,
            _process_exclusive_duration_data c (mkFinder minus only_top1 Dict.empty) ask logs =
            _process_exclusive_duration_data c (mkFinder false only_top1 Dict.empty) ask logs).
  { intros logs. unfold _process_exclusive_duration_data.
    destruct minus; [|reflexivity].
    rewrite collect_without_baseline. reflexivity. }
  unfold find_top_95_percent_spans. destruct response as [logs|e]; [|now split].
  rewrite Heq. split; [reflexivity|].
  unfold _process_exclusive_duration_data.
  destruct (Dict.nonempty _); reflexivity.
Qed.

(** C4, amended. Normalization requested without a baseline is not an
    error. A finder constructed with [minus_average=True] while a bound of
    the reference window is missing (the start, the end or both: [None] or
    the empty string) has an empty baseline, whatever the reference window
    would have held; and a finder whose baseline is empty - for this or
    any other reason - selects exactly what it selects with normalization
    off and issues no identity query. *)
Theorem normalization_without_baseline_is_ignored (np_mean : list Q -> Q)
    (c : constants) (only_top1 : bool)
    (normal_start_time normal_end_time : option string)
    (reference response : outcome (list log)) (ask_reference ask : lookup) :
  (truthy_opt normal_start_time && truthy_opt normal_end_time)%bool = false ->
  let self := init np_mean c true only_top1 normal_start_time normal_end_time
                reference ask_reference in
  minus_average self = true /\
  span_average_durations self = Dict.empty /\
  find_top_95_percent_spans c self response ask =
    find_top_95_percent_spans c
      (init np_mean c false only_top1 normal_start_time normal_end_time
         reference ask_reference)
      response ask /\
  snd (find_top_95_percent_spans c self response ask) = [] /\
  (forall other : finder,
     span_average_durations other = Dict.empty ->
     find_top_95_percent_spans c other response ask =
       find_top_95_percent_spans c
         (mkFinder false (only_top1_per_trace other) Dict.empty) response ask /\
     snd (find_top_95_percent_spans c other response ask) = []).
Proof.
  intros Hmissing self.
  assert (Hempty : span_average_durations self = Dict.empty).
  { subst self. unfold init. simpl. now rewrite Hmissing. }
  split; [reflexivity|]. split; [exact Hempty|].
  destruct (find_top_95_without_baseline c self response ask Hempty) as [Heq Hno].
  split; [|split; [exact Hno|]].
  - rewrite Heq. reflexivity.
  - intros other. apply find_top_95_without_baseline.
Qed.

(** A finder built with a start of the reference window and no end. *)
Lemma normalization_without_baseline_is_ignored_witness :
  let self := init mean default_constants true false (Some "2025-08-28 14:58:03") None
                (Returns reference_rows) reference_lookup in
  minus_average self = true /\
  span_average_durations self = Dict.empty /\
  find_top_95_percent_spans default_constants self (Returns example_rows) lookup_s =
    find_top_95_percent_spans default_constants
      (init mean default_constants false false (Some "2025-08-28 14:58:03") None
         (Returns reference_rows) reference_lookup)
      (Returns example_rows) lookup_s /\
  snd (find_top_95_percent_spans default_constants self (Returns example_rows) lookup_s) = [] /\
  (forall other : finder,
     span_average_durations other = Dict.empty ->
     find_top_95_percent_spans default_constants other (Returns example_rows) lookup_s =
       find_top_95_percent_spans default_constants
         (mkFinder false (only_top1_per_trace other) Dict.empty)
         (Returns example_rows) lookup_s /\
     snd (find_top_95_percent_spans default_constants other (Returns example_rows)
            lookup_s) = []).
Proof.
  apply (normalization_without_baseline_is_ignored mean default_constants false
           (Some "2025-08-28 14:58:03") None (Returns reference_rows)
           (Returns example_rows) reference_lookup lookup_s).
  reflexivity.
Defined.

(** *** The baseline averager *)

Lemma collect_average_spans_spec (P : string -> Q -> Prop) (l : list (string * jvalue)) :
  forall dm,
  (forall sid d, In (sid, JNum d) l -> 0 < d -> P sid d) ->
  NoDup (Dict.keys dm) /\ (forall sid d, In (sid, d) dm -> P sid d) ->
  NoDup (Dict.keys (fold_left collect_average_span l dm)) /\
  (forall sid d, In (sid, d) (fold_left collect_average_span l dm) -> P sid d).
Proof.
  induction l as [|[sid v] l IH]; intros dm Hl Hdm; simpl; [exact Hdm|].
  apply IH; [intros; apply Hl; auto; now right|].
  unfold collect_average_span. simpl.
  destruct (positive_duration v) as [d|] eqn:E; [|exact Hdm].
  apply positive_duration_Some in E. destruct E as [-> Hd].
  destruct Hdm as [Hnd Hin]. split; [now apply NoDup_keys_set|].
  intros sid' d' H. apply In_set in H. destruct H as [[-> ->]|H]; [|auto].
  apply Hl; [now left|exact Hd].
Qed.

(** Only strictly positive numbers of the rows are collected, under
    distinct keys. *)
Lemma collect_average_spec (all : list log) :
  forall logs dm,
  (forall lg, In lg logs -> In lg all) ->
  (NoDup (Dict.keys dm) /\
   forall sid d, In (sid, d) dm ->
     0 < d /\ exists lg, In lg all /\
       In (sid, JNum d) (combine (span_id lg) (exclusive_duration lg))) ->
  NoDup (Dict.keys (fold_left collect_average_log logs dm)) /\
  forall sid d, In (sid, d) (fold_left collect_average_log logs dm) ->
    0 < d /\ exists lg, In lg all /\
      In (sid, JNum d) (combine (span_id lg) (exclusive_duration lg)).
Proof.
  induction logs as [|lg r IH]; intros dm Hall Hdm; simpl; [exact Hdm|].
  apply IH; [intros; apply Hall; now right|].
  unfold collect_average_log.
  destruct (List.length (span_id lg) =? List.length (exclusive_duration lg))%nat;
    [|exact Hdm].
  apply (collect_average_spans_spec
           (fun sid d => 0 < d /\ exists lg, In lg all /\
              In (sid, JNum d) (combine (span_id lg) (exclusive_duration lg))));
    [|exact Hdm].
  intros sid d Hin Hd. split; [exact Hd|]. exists lg. split; [|exact Hin].
  apply Hall. now left.
Qed.

Lemma collect_average_positive (logs : list log) :
  NoDup (Dict.keys (collect_average logs)) /\
  forall sid d, In (sid, d) (collect_average logs) ->
    0 < d /\ exists lg, In lg logs /\
      In (sid, JNum d) (combine (span_id lg) (exclusive_duration lg)).
Proof.
  apply (collect_average_spec logs logs Dict.empty); auto.
  split; [constructor|]. intros ? ? [].
Qed.

(** A reference window without a positive duration leaves nothing. *)
Lemma collect_average_nothing (logs : list log) :
  (forall lg v, In lg logs -> In v (exclusive_duration lg) ->
                positive_duration v = None) ->
  collect_average logs = Dict.empty.
Proof.
  intros Hnone. destruct (collect_average logs) as [|[sid d] r] eqn:E; [reflexivity|].
  exfalso. destruct (collect_average_positive logs) as [_ H].
  destruct (H sid d) as (Hd & lg & Hlg & Hin); [rewrite E; now left|].
  apply in_combine_r in Hin. specialize (Hnone lg (JNum d) Hlg Hin).
  simpl in Hnone. apply Qlt_bool_iff in Hd. rewrite Hd in Hnone. discriminate.
Qed.

(** The sample kept for the averages. *)
Lemma sample_for_average_spec c (dm : Dict.t Q) :
  NoDup (Dict.keys dm) ->
  let duration := fun x => Dict.get_default dm x 0 in
  let ids := fst (sample_for_average c dm) in
  let kept := snd (sample_for_average c dm) in
  ((TRACES_FOR_AVG_RT c < Dict.len dm)%nat ->
     ids = firstn (TRACES_FOR_AVG_RT c) (sort_desc duration (Dict.keys dm)) /\
     List.length ids = TRACES_FOR_AVG_RT c /\
     (forall a b, In a ids -> In b (Dict.keys dm) -> ~ In b ids ->
                  duration b <= duration a)) /\
  ((Dict.len dm <= TRACES_FOR_AVG_RT c)%nat -> ids = Dict.keys dm /\ kept = dm) /\
  NoDup ids /\ (forall x, In x ids -> In x (Dict.keys dm)) /\
  Dict.items kept = map (fun sid => (sid, duration sid)) ids.
Proof.
  intros Hnd duration ids kept. subst ids kept. unfold sample_for_average.
  assert (Hlen : List.length (Dict.keys dm) = Dict.len dm)
    by (unfold Dict.keys, Dict.len; apply length_map).
  rewrite Hlen. fold duration.
  set (sorted := sort_desc duration (Dict.keys dm)).
  assert (Hperm : Permutation sorted (Dict.keys dm)) by apply sort_desc_perm.
  assert (Hnd' : NoDup (firstn (TRACES_FOR_AVG_RT c) sorted)).
  { apply NoDup_firstn_keep. eapply Permutation_NoDup; [symmetry; exact Hperm|exact Hnd]. }
  destruct (Nat.ltb_spec (TRACES_FOR_AVG_RT c) (Dict.len dm)) as [Hlt|Hge]; simpl.
  - split; [|split; [intros; lia|]].
    + intros _. split; [reflexivity|]. split.
      * apply firstn_length_le. unfold sorted. rewrite sort_desc_length. lia.
      * intros a b Ha Hb Hnb.
        apply (descending_firstn_skipn duration (TRACES_FOR_AVG_RT c) sorted);
          [apply sort_desc_sorted|exact Ha|].
        apply (Permutation_in _ (Permutation_sym Hperm)) in Hb.
        rewrite <- (firstn_skipn (TRACES_FOR_AVG_RT c) sorted) in Hb.
        apply in_app_or in Hb. destruct Hb; [contradiction|assumption].
    + split; [exact Hnd'|]. split.
      * intros x Hx. apply In_firstn_In in Hx. eapply Permutation_in; eauto.
      * unfold Dict.items. rewrite fold_set_fresh; auto.
  - split; [intros; lia|]. split; [auto|]. split; [exact Hnd|]. split; [auto|].
    unfold Dict.items, Dict.keys. rewrite map_map.
    clear - Hnd. unfold duration.
    assert (H : forall kv, In kv dm -> (fst kv, Dict.get_default dm (fst kv) 0) = kv).
    { intros [k v] Hin. simpl. unfold Dict.get_default.
      now rewrite (In_get_Some dm k v Hnd Hin). }
    rewrite (map_ext_in _ (fun kv => kv) _ H). now rewrite map_id.
Qed.

(** The batches feed [service_durations] with the rows they bring back. *)
Lemma average_batches_replies ask dm (batches : list (list string)) :
  forall sd,
  fold_left (average_batch ask dm) batches sd =
  fold_left (record_service_duration dm) (replies ask batches) sd.
Proof.
  induction batches as [|b r IH]; intros sd; simpl; [reflexivity|].
  rewrite fold_left_app, IH. unfold average_batch.
  now destruct (ask b).
Qed.

(** Key and value a returned row adds to [service_durations]. *)
Definition sel_sample (dm : Dict.t Q) (sl : service_log) : option (string * Q) :=
  match sl_spanId sl, sl_serviceName sl, sl_spanName sl with
  | Some sid, Some service_name, Some span_name =>
      match Dict.get dm sid with
      | Some duration =>
          if (truthy service_name && truthy span_name)%bool
          then Some (combined_key service_name span_name, duration)
          else None
      | None => None
      end
  | _, _, _ => None
  end.

Lemma record_service_duration_sel dm sd sl :
  record_service_duration dm sd sl = add_selected (sel_sample dm) sd sl.
Proof.
  unfold record_service_duration, add_selected, sel_sample.
  destruct (sl_spanId sl) as [sid|], (sl_serviceName sl) as [sn|],
    (sl_spanName sl) as [pn|]; try reflexivity.
  destruct (Dict.get dm sid); [|reflexivity].
  now destruct (truthy sn && truthy pn)%bool.
Qed.

Lemma selected_sample dm key sl :
  selected (sel_sample dm) key sl = sample_of dm key sl.
Proof.
  unfold selected, sel_sample, sample_of.
  destruct (sl_spanId sl) as [sid|], (sl_serviceName sl) as [sn|],
    (sl_spanName sl) as [pn|]; try reflexivity.
  destruct (Dict.get dm sid); [|reflexivity].
  destruct (truthy sn && truthy pn)%bool; reflexivity.
Qed.

Lemma service_durations_spec dm (records : list service_log) :
  let sd := fold_left (record_service_duration dm) records Dict.empty in
  NoDup (Dict.keys sd) /\
  forall key, Dict.get_default sd key [] = flat_map (sample_of dm key) records.
Proof.
  assert (Hfold : forall sd, fold_left (record_service_duration dm) records sd =
                             fold_left (add_selected (sel_sample dm)) records sd).
  { induction records as [|sl r IH]; intros sd; simpl; [reflexivity|].
    now rewrite record_service_duration_sel, IH. }
  simpl. rewrite Hfold.
  destruct (fold_add_selected (sel_sample dm) records Dict.empty) as [Hg Hnd].
  split; [apply Hnd; constructor|].
  intros key. rewrite Hg. simpl.
  apply flat_map_ext. intros sl. apply selected_sample.
Qed.

(** The last loop stores the average of every non-empty list. *)
Lemma store_average_get np_mean (sd : Dict.t (list Q)) key :
  forall averages, NoDup (Dict.keys sd) ->
  Dict.get (fold_left (store_average np_mean) (Dict.items sd) averages) key =
  match Dict.get sd key with
  | Some (x :: l) => Some (np_mean (x :: l))
  | _ => Dict.get averages key
  end.
Proof.
  unfold Dict.items, Dict.keys.
  induction sd as [|[k l] r IH]; intros averages Hnd; simpl; [reflexivity|].
  inversion Hnd as [|? ? Hk Hr]; subst. rewrite IH by assumption.
  destruct (String.eqb k key) eqn:E.
  - apply String.eqb_eq in E. subst k.
    assert (Dict.get r key = None) as -> by (now apply get_None_keys).
    unfold store_average. simpl. destruct l; [reflexivity|].
    apply get_set_same.
  - destruct (Dict.get r key) as [[|x l']|]; try reflexivity.
    + unfold store_average. simpl. destruct l; [reflexivity|].
      apply get_set_other. now apply String.eqb_neq.
    + unfold store_average. simpl. destruct l; [reflexivity|].
      apply get_set_other. now apply String.eqb_neq.
Qed.

Lemma query_span_names_get np_mean c ask dm key :
  Dict.get (fst (_query_span_names_for_spans np_mean c ask Dict.empty dm)) key =
  match samples ask (snd (sample_for_average c dm))
          (chunks batch_size (fst (sample_for_average c dm))) key with
  | [] => None
  | x :: l => Some (np_mean (x :: l))
  end.
Proof.
  unfold _query_span_names_for_spans, samples.
  destruct (sample_for_average c dm) as [ids kept]. simpl.
  rewrite average_batches_replies.
  destruct (service_durations_spec kept (replies ask (chunks batch_size ids))) as [Hnd Hg].
  simpl in Hnd, Hg. rewrite store_average_get by assumption.
  rewrite <- Hg. unfold Dict.get_default.
  destruct (Dict.get _ key) as [[|x l]|]; reflexivity.
Qed.

Lemma missing_baseline_is_zero c averages service_name span_name d :
  Dict.get averages (combined_key service_name span_name) = None ->
  0 <= d -> d <= MAX_DURATION c ->
  adjust_duration c averages (Some (service_name, span_name)) d = d /\
  d == Qmin (Qmax 0 (d - 0)) (MAX_DURATION c).
Proof.
  intros Hget H0 Hmax. unfold adjust_duration. rewrite Hget. split; [reflexivity|].
  assert (Hd : d - 0 == d) by ring.
  rewrite Q.min_l.
  - rewrite Q.max_r; [now symmetry|]. now rewrite Hd.
  - apply Q.max_lub; [now apply Qle_trans with d|]. now rewrite Hd.
Qed.

(** The (span id, duration) entries of the reference rows whose two arrays
    have the same length, in order. *)
Definition reference_entries (logs : list log) : list (string * jvalue) :=
  flat_map (fun lg =>
              if (List.length (span_id lg) =? List.length (exclusive_duration lg))%nat
              then combine (span_id lg) (exclusive_duration lg)
              else [])
    logs.

(** The entry is an occurrence of span [sid] with a strictly positive
    numeric duration. *)
Definition is_sample_of (sid : string) (e : string * jvalue) : bool :=
  (String.eqb (fst e) sid
   && match positive_duration (snd e) with Some _ => true | None => false end)%bool.

(** The duration of the last such occurrence in the reference rows. *)
Definition last_sample (logs : list log) (sid : string) : option Q :=
  match find (is_sample_of sid) (rev (reference_entries logs)) with
  | Some e => positive_duration (snd e)
  | None => None
  end.

Lemma collect_average_entries (logs : list log) :
  forall dm,
  fold_left collect_average_log logs dm =
  fold_left collect_average_span (reference_entries logs) dm.
Proof.
  induction logs as [|lg r IH]; intros dm; simpl; [reflexivity|].
  rewrite IH, fold_left_app. f_equal. unfold collect_average_log.
  now destruct (List.length (span_id lg) =? List.length (exclusive_duration lg))%nat.
Qed.

Lemma collect_average_spans_get (l : list (string * jvalue)) sid :
  forall dm,
  Dict.get (fold_left collect_average_span l dm) sid =
  match find (is_sample_of sid) (rev l) with
  | Some e => positive_duration (snd e)
  | None => Dict.get dm sid
  end.
Proof.
  induction l as [|[k v] r IH]; intros dm; simpl; [reflexivity|].
  rewrite IH, find_app_first.
  destruct (find (is_sample_of sid) (rev r)); [reflexivity|].
  simpl. unfold is_sample_of, collect_average_span. simpl.
  destruct (positive_duration v) as [d|] eqn:Ep.
  - destruct (String.eqb k sid) eqn:E; simpl.
    + apply String.eqb_eq in E. subst. rewrite Ep. apply get_set_same.
    + apply String.eqb_neq in E. now apply get_set_other.
  - now rewrite andb_false_r.
Qed.

(** What [collect_average] holds for a span id: the duration of its last
    occurrence with a positive duration. *)
Lemma collect_average_get (logs : list log) sid :
  Dict.get (collect_average logs) sid = last_sample logs sid.
Proof.
  unfold collect_average, last_sample.
  now rewrite collect_average_entries, collect_average_spans_get.
Qed.

Lemma collect_average_complete (logs : list log) lg sid d :
  In lg logs ->
  List.length (span_id lg) = List.length (exclusive_duration lg) ->
  In (sid, JNum d) (combine (span_id lg) (exclusive_duration lg)) -> 0 < d ->
  In sid (Dict.keys (collect_average logs)).
Proof.
  intros Hlg Hlen Hin Hd.
  assert (He : In (sid, JNum d) (rev (reference_entries logs))).
  { apply in_rev. rewrite rev_involutive. unfold reference_entries.
    apply in_flat_map. exists lg. split; [exact Hlg|].
    rewrite Hlen, Nat.eqb_refl. exact Hin. }
  assert (Hs : is_sample_of sid (sid, JNum d) = true).
  { unfold is_sample_of. simpl. rewrite String.eqb_refl.
    apply Qlt_bool_iff in Hd. now rewrite Hd. }
  assert (Hget : exists d', Dict.get (collect_average logs) sid = Some d').
  { rewrite collect_average_get. unfold last_sample.
    destruct (find (is_sample_of sid) (rev (reference_entries logs))) as [e|] eqn:E.
    - apply find_some in E. destruct E as [_ E]. unfold is_sample_of in E.
      apply andb_true_iff in E. destruct E as [_ E].
      destruct (positive_duration (snd e)) as [d'|]; [eauto|discriminate].
    - exfalso. pose proof (find_none _ _ E _ He) as Hf. congruence. }
  destruct Hget as [d' Hd']. now apply (get_Some_keys _ _ d').
Qed.

(** The span whose duration a returned row contributes to [key]. *)
Definition resolved_span (dm : Dict.t Q) (key : string) (sl : service_log)
  : list string :=
  match sl_spanId sl, sl_serviceName sl, sl_spanName sl with
  | Some sid, Some service_name, Some span_name =>
      match Dict.get dm sid with
      | Some _ =>
          if (truthy service_name && truthy span_name
              && String.eqb (combined_key service_name span_name) key)%bool
          then [sid] else []
      | None => []
      end
  | _, _, _ => []
  end.

(** The spans resolved to [key], one occurrence per returned row. *)
Definition resolved_spans (ask : lookup) (dm : Dict.t Q) (batches : list (list string))
    (key : string) : list string :=
  flat_map (resolved_span dm key) (replies ask batches).

(** The span ids the returned rows name, one occurrence per row. *)
Definition reply_ids (service_logs : list service_log) : list string :=
  flat_map (fun sl => match sl_spanId sl with
                      | Some sid => [sid]
                      | None => []
                      end) service_logs.

Lemma samples_resolved ask dm batches key :
  samples ask dm batches key =
  map (fun sid => Dict.get_default dm sid 0) (resolved_spans ask dm batches key).
Proof.
  unfold samples, resolved_spans.
  induction (replies ask batches) as [|sl r IH]; simpl; [reflexivity|].
  rewrite map_app, <- IH. f_equal. unfold sample_of, resolved_span.
  destruct (sl_spanId sl) as [sid|], (sl_serviceName sl) as [sn|],
    (sl_spanName sl) as [pn|]; try reflexivity.
  unfold Dict.get_default. destruct (Dict.get dm sid) eqn:E; [|reflexivity].
  destruct (_ && _)%bool; simpl; [|reflexivity]. now rewrite E.
Qed.

Lemma resolved_spans_In ask dm batches key sid :
  In sid (resolved_spans ask dm batches key) ->
  In sid (Dict.keys dm) /\ In sid (reply_ids (replies ask batches)).
Proof.
  unfold resolved_spans, reply_ids. rewrite !in_flat_map.
  intros (sl & Hsl & H). unfold resolved_span in H.
  destruct (sl_spanId sl) as [k|] eqn:Ek, (sl_serviceName sl) as [sn|],
    (sl_spanName sl) as [pn|]; try contradiction.
  destruct (Dict.get dm k) as [d|] eqn:E; [|contradiction].
  destruct (_ && _)%bool; [|contradiction].
  destruct H as [<-|[]]. split.
  - now apply (get_Some_keys _ _ d).
  - exists sl. split; [exact Hsl|]. rewrite Ek. now left.
Qed.

Lemma resolved_spans_NoDup ask dm batches key :
  NoDup (reply_ids (replies ask batches)) ->
  NoDup (resolved_spans ask dm batches key).
Proof.
  unfold resolved_spans, reply_ids.
  induction (replies ask batches) as [|sl r IH]; simpl; intros Hnd; [constructor|].
  assert (Hsub : forall x, In x (flat_map (resolved_span dm key) r) ->
            In x (flat_map (fun sl => match sl_spanId sl with
                                      | Some sid => [sid]
                                      | None => []
                                      end) r)).
  { intros x Hx. apply in_flat_map in Hx. destruct Hx as (sl' & Hsl' & Hx).
    apply in_flat_map. exists sl'. split; [exact Hsl'|].
    unfold resolved_span in Hx.
    destruct (sl_spanId sl') as [k|], (sl_serviceName sl') as [sn|],
      (sl_spanName sl') as [pn|]; try contradiction.
    destruct (Dict.get dm k); [|contradiction].
    destruct (_ && _)%bool; [exact Hx|contradiction]. }
  unfold resolved_span at 1.
  destruct (sl_spanId sl) as [k|]; [|simpl in *; auto].
  simpl in Hnd. inversion Hnd as [|? ? Hk Hr]; subst.
  destruct (sl_serviceName sl) as [sn|], (sl_spanName sl) as [pn|]; simpl; auto.
  destruct (Dict.get dm k); simpl; auto.
  destruct (_ && _)%bool; simpl; auto.
  constructor; auto.
Qed.

(** A reference window with two spans; the identity query returns the row
    of the first span twice. *)
Definition twice_reported_rows : list log :=
  [mkLog ["s1"; "s2"] [0; 1]%Z [JNum (100 # 1); JNum (400 # 1)] []].

Definition twice_reporting_lookup : lookup :=
  fun _ => Returns [mkServiceLog (Some "s1") (Some "svc") (Some "op");
                    mkServiceLog (Some "s1") (Some "svc") (Some "op");
                    mkServiceLog (Some "s2") (Some "svc") (Some "op")].

(** C7 as stated fails: the two retained spans, both resolved to (svc, op),
    last 100 and 400, whose mean is 250; the stored baseline is 200, the
    mean of the three durations appended for the three returned rows. *)
Lemma baseline_counts_returned_rows :
  collect_average twice_reported_rows = [("s1", 100 # 1); ("s2", 400 # 1)] /\
  fst (sample_for_average default_constants (collect_average twice_reported_rows)) =
    ["s1"; "s2"] /\
  fst (_calculate_span_averages mean default_constants (Returns twice_reported_rows)
         twice_reporting_lookup) =
    [(combined_key "svc" "op", mean [100 # 1; 100 # 1; 400 # 1])] /\
  mean [100 # 1; 100 # 1; 400 # 1] == 200 # 1 /\
  mean [100 # 1; 400 # 1] == 250 # 1 /\
  ~ mean [100 # 1; 100 # 1; 400 # 1] == mean [100 # 1; 400 # 1].
Proof.
  repeat split. discriminate.
Qed.

(** C7, amended. [_calculate_span_averages] over the rows of a reference
    window, whatever [np.mean] returns:
    (1) the collected map holds, under distinct keys, exactly the spans
        with a strictly positive numeric duration in a row whose id and
        duration arrays have the same length, each with the duration of
        its last such occurrence;
    (2) when more than [TRACES_FOR_AVG_RT] spans were collected, exactly
        the first [TRACES_FOR_AVG_RT] ids of the descending sort by
        duration are retained, and every retained span lasts at least as
        long as every span left out; otherwise all are retained;
    (3) the average stored under a combined service/operation key is
        [np.mean] of the list that holds, for every row the identity
        queries returned, in order, that names a retained span with
        non-empty service and operation combining to the key, the
        duration of that span - one sample per returned row, so that a
        span returned twice counts twice; when no span id is returned
        twice these are the durations of distinct retained spans; a key
        without such a row has no entry;
    (4) a window without any positive duration gives the empty map;
    (5) for the consumer a missing key is the same as a baseline of 0: the
        adjusted duration is the stored one, which is what subtracting 0
        gives. *)
Theorem compute_baselines (np_mean : list Q -> Q) (c : constants) (logs : list log)
    (ask : lookup) :
  let dm := collect_average logs in
  let duration := fun x => Dict.get_default dm x 0 in
  let ids := fst (sample_for_average c dm) in
  let kept := snd (sample_for_average c dm) in
  let batches := chunks batch_size ids in
  let baseline := fst (_calculate_span_averages np_mean c (Returns logs) ask) in
  (NoDup (Dict.keys dm) /\
   (forall sid, Dict.get dm sid = last_sample logs sid) /\
   (forall sid d, In (sid, d) dm -> 0 < d) /\
   (forall lg sid d, In lg logs ->
      List.length (span_id lg) = List.length (exclusive_duration lg) ->
      In (sid, JNum d) (combine (span_id lg) (exclusive_duration lg)) -> 0 < d ->
      In sid (Dict.keys dm))) /\
  ((TRACES_FOR_AVG_RT c < Dict.len dm)%nat ->
     ids = firstn (TRACES_FOR_AVG_RT c) (sort_desc duration (Dict.keys dm)) /\
     List.length ids = TRACES_FOR_AVG_RT c /\
     (forall a b, In a ids -> In b (Dict.keys dm) -> ~ In b ids ->
                  duration b <= duration a)) /\
  ((Dict.len dm <= TRACES_FOR_AVG_RT c)%nat -> ids = Dict.keys dm /\ kept = dm) /\
  Dict.items kept = map (fun sid => (sid, duration sid)) ids /\
  (forall key,
     Dict.get baseline key =
     match samples ask kept batches key with
     | [] => None
     | x :: l => Some (np_mean (x :: l))
     end) /\
  (forall key,
     samples ask kept batches key = map duration (resolved_spans ask kept batches key) /\
     (forall sid, In sid (resolved_spans ask kept batches key) ->
                  In sid ids /\ In sid (reply_ids (replies ask batches))) /\
     (NoDup (reply_ids (replies ask batches)) ->
      NoDup (resolved_spans ask kept batches key))) /\
  ((forall lg v, In lg logs -> In v (exclusive_duration lg) ->
                 positive_duration v = None) ->
   baseline = Dict.empty) /\
  (forall service_name span_name d,
     Dict.get baseline (combined_key service_name span_name) = None ->
     0 <= d -> d <= MAX_DURATION c ->
     adjust_duration c baseline (Some (service_name, span_name)) d = d /\
     d == Qmin (Qmax 0 (d - 0)) (MAX_DURATION c)).
Proof.
  intros dm duration ids kept batches baseline.
  destruct (collect_average_positive logs) as [Hnd Hpos]. fold dm in Hnd, Hpos.
  destruct (sample_for_average_spec c dm Hnd) as (Hbig & Hsmall & Hndi & Hsub & Hitems).
  fold duration ids kept in Hbig, Hsmall, Hitems, Hndi, Hsub.
  assert (Hkeys : Dict.keys kept = ids).
  { unfold Dict.keys. unfold Dict.items in Hitems. rewrite Hitems, map_map. simpl.
    apply map_id. }
  assert (Hkept : forall sid, In sid ids -> Dict.get_default kept sid 0 = duration sid).
  { intros sid Hsid.
    assert (Hndk : NoDup (Dict.keys kept)) by (rewrite Hkeys; exact Hndi).
    unfold Dict.get_default at 1.
    rewrite (In_get_Some kept sid (duration sid) Hndk); [reflexivity|].
    unfold Dict.items in Hitems. rewrite Hitems. apply in_map_iff.
    exists sid. split; [reflexivity|exact Hsid]. }
  split.
  { split; [exact Hnd|]. split; [apply collect_average_get|].
    split; [intros sid d H; now apply Hpos in H|].
    intros lg sid d H1 H2 H3 H4.
    exact (collect_average_complete logs lg sid d H1 H2 H3 H4). }
  split; [exact Hbig|]. split; [exact Hsmall|].
  split; [exact Hitems|]. split; [|split; [|split]].
  - intros key. subst baseline ids kept batches. unfold _calculate_span_averages. fold dm.
    destruct (Dict.nonempty dm) eqn:E.
    + apply query_span_names_get.
    + destruct dm; [|discriminate]. reflexivity.
  - intros key.
    assert (Hin : forall sid, In sid (resolved_spans ask kept batches key) ->
                    In sid ids /\ In sid (reply_ids (replies ask batches))).
    { intros sid H. apply resolved_spans_In in H. now rewrite Hkeys in H. }
    split; [|split; [exact Hin|apply resolved_spans_NoDup]].
    rewrite samples_resolved. apply map_ext_in. intros sid Hsid.
    apply Hkept. now apply Hin.
  - intros Hnone. subst baseline. unfold _calculate_span_averages.
    rewrite (collect_average_nothing logs Hnone). reflexivity.
  - intros. now apply missing_baseline_is_zero.
Qed.

(** On the reference window of the example the two resolved spans last 100
    and 300, and the average stored for (svc, op) is their mean. *)
Lemma compute_baselines_witness :
  Dict.get (fst (_calculate_span_averages mean default_constants (Returns reference_rows)
                   reference_lookup)) (combined_key "svc" "op") =
    Some (mean [100 # 1; 300 # 1]) /\
  resolved_spans reference_lookup
    (snd (sample_for_average default_constants (collect_average reference_rows)))
    (chunks batch_size
       (fst (sample_for_average default_constants (collect_average reference_rows))))
    (combined_key "svc" "op") = ["s1"; "s2"].
Proof.
  destruct (compute_baselines mean default_constants reference_rows reference_lookup)
    as (_ & _ & _ & _ & Hmean & _).
  split; [|reflexivity].
  rewrite Hmean. reflexivity.
Defined.

Example compute_baselines_example :
  exists avg,
    fst (_calculate_span_averages mean default_constants (Returns reference_rows)
           reference_lookup) = [(combined_key "svc" "op", avg)] /\
    avg == 200 # 1.
Proof. eexists. split; reflexivity. Qed.

(** With a cap of two, the two longest spans are the ones retained. *)
Example sample_for_average_example :
  fst (sample_for_average (mkConstants 2000 2 (95 # 100) (5000000 # 1))
         (collect_average reference_rows)) = ["s2"; "s1"].
Proof. reflexivity. Qed.

(** *** Clamping *)

(** X1. Every duration the row loop of the selection path stores lies in
    [[0, MAX_DURATION]], in each of its three modes. *)
Lemma selection_durations_clamped c self logs sid d :
  0 <= MAX_DURATION c ->
  In (sid, d) (span_duration_mapping (collect c self logs)) ->
  0 <= d /\ d <= MAX_DURATION c.
Proof.
  intros Hmax Hin. destruct (collect_ok c self logs) as [_ Hcl].
  destruct (Hcl sid d Hin) as (raw & Hraw & ->). split.
  - apply Qmin_nonneg; [now apply Qlt_le_weak|exact Hmax].
  - apply Qmin_le_r.
Qed.

(** X2. So does every adjusted duration that is ranked, whichever branch
    of lines 440-479 produced it. *)
Lemma adjusted_span_durations_clamped c self ask logs sid a :
  0 <= MAX_DURATION c ->
  In (sid, a) (fst (adjusted_span_durations c self ask (collect c self logs))) ->
  0 <= a /\ a <= MAX_DURATION c.
Proof.
  intros Hmax. destruct (collect_ok c self logs) as [_ Hcl].
  assert (Hadj : forall identity d, clamped c d ->
            0 <= adjust_duration c (span_average_durations self) identity d /\
            adjust_duration c (span_average_durations self) identity d <= MAX_DURATION c).
  { intros identity d (raw & Hraw & ->).
    assert (H0 : 0 <= Qmin raw (MAX_DURATION c))
      by (apply Qmin_nonneg; [now apply Qlt_le_weak|exact Hmax]).
    unfold adjust_duration. destruct identity as [[sn pn]|]; [|split; auto; apply Qmin_le_r].
    destruct (Dict.get _ _); [|split; auto; apply Qmin_le_r].
    split; [|apply Qmin_le_r]. apply Qmin_nonneg; [apply Q.le_max_l|exact Hmax]. }
  unfold adjusted_span_durations.
  destruct (_ && _)%bool; [destruct (choose_strategy _)|];
    unfold _adjust_durations_directly, _adjust_durations_with_span_average, Dict.items;
    simpl; intros Hin.
  - apply adjusted_In in Hin. destruct Hin as (d & Hin & ->). eauto.
  - apply adjusted_In in Hin. destruct Hin as (d & Hin & ->). eauto.
  - apply in_map_iff in Hin. destruct Hin as ([k d] & [= <- <-] & Hin). simpl.
    destruct (Hcl k d Hin) as (raw & Hraw & ->). split; [|apply Qmin_le_r].
    apply Qmin_nonneg; [|exact Hmax].
    apply Qmin_nonneg; [now apply Qlt_le_weak|exact Hmax].
Qed.

Lemma selection_durations_clamped_witness :
  0 <= MAX_DURATION default_constants /\ MAX_DURATION default_constants <= MAX_DURATION default_constants.
Proof.
  apply (selection_durations_clamped default_constants
           (mkFinder false false Dict.empty) [mkLog ["x"] [0%Z] [JNum (5000001 # 1)] []] "x").
  - discriminate.
  - vm_compute. left. reflexivity.
Defined.

Lemma adjusted_span_durations_clamped_witness :
  0 <= 300 # 1 /\ 300 # 1 <= MAX_DURATION default_constants.
Proof.
  apply (adjusted_span_durations_clamped default_constants
           (finder_with_baseline (200 # 1)) (fun _ => Returns []) one_span_row "s").
  - discriminate.
  - vm_compute. left. reflexivity.
Defined.

(** A reference window with one span that lasts longer than
    [MAX_DURATION]. *)
Definition outlier_rows : list log :=
  [mkLog ["x"] [0%Z] [JNum (5000001 # 1)] []].

(** C9 fails on the baseline path. The selection path stores the outlier
    cut at [MAX_DURATION]; [_calculate_span_averages] stores it as it is
    (line 822 has no [min(duration, MAX_DURATION)]), and the average it
    feeds exceeds [MAX_DURATION]. *)
Theorem baseline_samples_not_clamped :
  span_duration_mapping
    (collect default_constants (mkFinder false false Dict.empty) outlier_rows) =
    [("x", MAX_DURATION default_constants)] /\
  collect_average outlier_rows = [("x", 5000001 # 1)] /\
  MAX_DURATION default_constants < 5000001 # 1 /\
  (forall np_mean : list Q -> Q,
     fst (_calculate_span_averages np_mean default_constants (Returns outlier_rows)
            (fun _ => Returns [mkServiceLog (Some "x") (Some "svc") (Some "op")])) =
     [(combined_key "svc" "op", np_mean [5000001 # 1])]) /\
  exists avg,
    Dict.get (fst (_calculate_span_averages mean default_constants (Returns outlier_rows)
                     (fun _ => Returns [mkServiceLog (Some "x") (Some "svc") (Some "op")])))
      (combined_key "svc" "op") = Some avg /\
    MAX_DURATION default_constants < avg.
Proof.
  repeat split. eexists. split; reflexivity.
Qed.

End LatencyFacts.

(* ================================================================== *)
(** ** The percentile loop in the arithmetic of the interpreter *)

Module PercentileFacts.
Import LatencySpanFinder LatencyFacts Arithmetic.

Section Selector.
Context {num : Type} (A : arithmetic num).

(** No element is smaller than a later one. *)
Definition sorted_desc {T : Type} (key : T -> num) : list T -> Prop :=
  StronglySorted (fun a b => ltb A (key a) (key b) = false).

(** [<] orders the numbers of [l] the way it orders floats that are no
    NaN: no two of them are smaller than each other, and a number that is
    not smaller than a second one, itself not smaller than a third, is not
    smaller than the third. *)
Definition orderedb (l : list num) : bool :=
  forallb (fun x =>
    forallb (fun y =>
      ((negb (ltb A x y) || negb (ltb A y x))
       && forallb (fun z => ltb A x y || ltb A y z || negb (ltb A x z)) l)%bool) l) l.

Lemma orderedb_spec (l : list num) :
  orderedb l = true ->
  (forall x y, In x l -> In y l -> ltb A x y = true -> ltb A y x = false) /\
  (forall x y z, In x l -> In y l -> In z l ->
     ltb A x y = false -> ltb A y z = false -> ltb A x z = false).
Proof.
  unfold orderedb. intros H. rewrite forallb_forall in H. split.
  - intros x y Hx Hy Hlt. specialize (H x Hx). rewrite forallb_forall in H.
    specialize (H y Hy). apply andb_true_iff in H. destruct H as [H _].
    rewrite Hlt in H. simpl in H. now apply negb_true_iff in H.
  - intros x y z Hx Hy Hz Hxy Hyz. specialize (H x Hx). rewrite forallb_forall in H.
    specialize (H y Hy). apply andb_true_iff in H. destruct H as [_ H].
    rewrite forallb_forall in H. specialize (H z Hz).
    rewrite Hxy, Hyz in H. simpl in H. now apply negb_true_iff in H.
Qed.

Lemma arith_insert_desc_perm {T : Type} (key : T -> num) x l :
  Permutation (insert_desc A key x l) (x :: l).
Proof.
  induction l as [|y r IH]; simpl; [reflexivity|].
  destruct (ltb A (key x) (key y)); [|reflexivity].
  rewrite IH. apply perm_swap.
Qed.

Lemma arith_sort_desc_perm {T : Type} (key : T -> num) l :
  Permutation (sort_desc A key l) l.
Proof.
  induction l as [|x r IH]; simpl; [reflexivity|].
  rewrite arith_insert_desc_perm. now constructor.
Qed.

Lemma arith_insert_desc_sorted {T : Type} (key : T -> num) (dom : list num) x l :
  orderedb dom = true ->
  (forall y, In y (x :: l) -> In (key y) dom) ->
  sorted_desc key l -> sorted_desc key (insert_desc A key x l).
Proof.
  intros Hord. destruct (orderedb_spec dom Hord) as [Hasym Htrans].
  unfold sorted_desc. induction l as [|y r IH]; simpl; intros Hdom Hs.
  - repeat constructor.
  - inversion Hs as [|? ? Hr Hall]; subst.
    destruct (ltb A (key x) (key y)) eqn:E.
    + constructor.
      * apply IH; [|exact Hr]. intros z [<-|Hz]; apply Hdom; simpl; auto.
      * apply Forall_forall. intros a Ha.
        apply (Permutation_in _ (arith_insert_desc_perm key x r)) in Ha.
        destruct Ha as [<-|Ha].
        -- apply Hasym; auto; apply Hdom; simpl; auto.
        -- rewrite Forall_forall in Hall. auto.
    + constructor; [assumption|].
      constructor; [exact E|].
      apply Forall_forall. intros a Ha. rewrite Forall_forall in Hall.
      apply (Htrans _ (key y)); auto; apply Hdom; simpl; auto.
Qed.

Lemma arith_sort_desc_sorted {T : Type} (key : T -> num) (dom : list num) l :
  orderedb dom = true ->
  (forall y, In y l -> In (key y) dom) ->
  sorted_desc key (sort_desc A key l).
Proof.
  intros Hord. induction l as [|x r IH]; simpl; intros Hdom; [constructor|].
  apply (arith_insert_desc_sorted key dom); [exact Hord| |apply IH; auto].
  intros y [<-|Hy]; [auto|].
  apply Hdom. right. eapply Permutation_in; [apply arith_sort_desc_perm|exact Hy].
Qed.

(** The key of [a] is neither smaller nor larger than [e]. *)
Definition tied {T : Type} (key : T -> num) (e : num) (a : T) : bool :=
  (negb (ltb A (key a) e) && negb (ltb A e (key a)))%bool.

Lemma arith_insert_desc_stable {T : Type} (key : T -> num) (dom : list num) x l e :
  orderedb dom = true ->
  (forall y, In y (x :: l) -> In (key y) dom) -> In e dom ->
  filter (tied key e) (insert_desc A key x l) = filter (tied key e) (x :: l).
Proof.
  intros Hord. destruct (orderedb_spec dom Hord) as [_ Htrans].
  induction l as [|y r IH]; intros Hdom He; [reflexivity|].
  simpl insert_desc. destruct (ltb A (key x) (key y)) eqn:E; [|reflexivity].
  simpl filter. rewrite IH; [|intros z [<-|Hz]; apply Hdom; simpl; auto|exact He].
  simpl filter.
  destruct (tied key e y) eqn:Ey; [|reflexivity].
  destruct (tied key e x) eqn:Ex; [|reflexivity].
  exfalso. unfold tied in Ex, Ey.
  apply andb_true_iff in Ex. destruct Ex as [Ex _]. apply negb_true_iff in Ex.
  apply andb_true_iff in Ey. destruct Ey as [_ Ey]. apply negb_true_iff in Ey.
  assert (Hxy : ltb A (key x) (key y) = false).
  { apply (Htrans _ e); auto; apply Hdom; simpl; auto. }
  congruence.
Qed.

(** The sort is stable: spans whose durations are tied keep the order they
    had. *)
Lemma arith_sort_desc_stable {T : Type} (key : T -> num) (dom : list num) l e :
  orderedb dom = true ->
  (forall y, In y l -> In (key y) dom) -> In e dom ->
  filter (tied key e) (sort_desc A key l) = filter (tied key e) l.
Proof.
  intros Hord. induction l as [|x r IH]; intros Hdom He; [reflexivity|].
  simpl sort_desc. rewrite (arith_insert_desc_stable key dom); auto.
  - simpl. rewrite IH; auto. intros y Hy. apply Hdom. now right.
  - intros y [<-|Hy]; [apply Hdom; now left|].
    apply Hdom. right. eapply Permutation_in; [apply arith_sort_desc_perm|exact Hy].
Qed.

(** The running sum the loop compares with the target after [k] spans. *)
Definition running (acc : num) (l : list (string * num)) (k : nat) : num :=
  fold_left (add A) (map snd (firstn k l)) acc.

(** The loop returns the ids of the shortest non-empty prefix whose running
    sum reaches the target, and of the whole list when none does. *)
Lemma take_until_spec target (l : list (string * num)) :
  forall acc,
  exists k, (k <= List.length l)%nat /\
    take_until A acc target l = map fst (firstn k l) /\
    (forall j, (1 <= j < k)%nat -> geb A (running acc l j) target = false) /\
    ((1 <= k)%nat /\ geb A (running acc l k) target = true \/
     k = List.length l /\ geb A (running acc l k) target = false
     \/ k = 0%nat /\ l = []).
Proof.
  unfold running. induction l as [|[sid d] r IH]; intros acc.
  - exists 0%nat. simpl. repeat split; auto. intros j Hj. lia.
  - simpl take_until. destruct (geb A (add A acc d) target) eqn:E.
    + exists 1%nat. simpl. repeat split; auto; try lia.
    + destruct (IH (add A acc d)) as (k & Hk & Htake & Hbelow & Hend).
      exists (S k). simpl List.length. split; [lia|]. split.
      { rewrite Htake. reflexivity. }
      split.
      * intros [|[|j]] Hj; [lia|exact E|].
        simpl. apply (Hbelow (S j)). lia.
      * destruct Hend as [[Hk1 Hreach]|[[-> Hnot]|[-> ->]]].
        -- left. split; [lia|]. exact Hreach.
        -- right. left. split; [reflexivity|]. exact Hnot.
        -- right. left. split; [reflexivity|]. exact E.
Qed.

(** C2, amended. Lines 481-511 in the arithmetic of the interpreter,
    whatever the builtin [sum] returns. With [sorted] the adjusted
    durations after the descending sort, [total] what [sum] gives on them
    and [target] the product [total * PERCENT_95] as the program computes
    it: [sorted] is a rearrangement of the input, and when [<] orders the
    durations (no NaN) it is descending and keeps tied spans in the order
    of the input; a total equal to zero gives the empty
    list; otherwise the result is the ids of the shortest non-empty prefix
    of [sorted] whose running sum, accumulated from 0 left to right in the
    program's arithmetic, is [>=] the target - the span that reaches the
    target is included and no shorter non-empty prefix reaches it - and it
    is the whole list when no prefix reaches the target. *)
Theorem top_95_percent_spans_shortest_prefix (py_sum : list num -> num)
    (PERCENT_95 : num) (adjusted : list (string * num)) :
  let sorted := sort_desc A snd adjusted in
  let total := py_sum (map snd sorted) in
  let target := mul A total PERCENT_95 in
  let result := top_95_percent_spans A py_sum PERCENT_95 adjusted in
  Permutation sorted adjusted /\
  (orderedb (map snd adjusted) = true ->
   sorted_desc snd sorted /\
   forall e, In e (map snd adjusted) ->
     filter (tied snd e) sorted = filter (tied snd e) adjusted) /\
  (eqb A total (zero A) = true -> result = []) /\
  (eqb A total (zero A) = false ->
   exists k, (k <= List.length sorted)%nat /\
     result = map fst (firstn k sorted) /\
     (forall j, (1 <= j < k)%nat ->
        geb A (fold_left (add A) (map snd (firstn j sorted)) (zero A)) target = false) /\
     ((1 <= k)%nat /\
      geb A (fold_left (add A) (map snd (firstn k sorted)) (zero A)) target = true
      \/
      k = List.length sorted /\
      forall j, (1 <= j <= k)%nat ->
        geb A (fold_left (add A) (map snd (firstn j sorted)) (zero A)) target = false)).
Proof.
  intros sorted total target result.
  split; [apply arith_sort_desc_perm|]. split; [|split].
  - intros Hord.
    assert (Hdom : forall y, In y adjusted -> In (snd y) (map snd adjusted))
      by (intros y Hy; now apply in_map).
    split; [now apply (arith_sort_desc_sorted snd (map snd adjusted))|].
    intros e He. now apply (arith_sort_desc_stable snd (map snd adjusted)).
  - intros H0. subst result. unfold top_95_percent_spans.
    fold sorted. fold total. now rewrite H0.
  - intros Hne. subst result. unfold top_95_percent_spans.
    fold sorted. fold total. rewrite Hne. fold target.
    destruct (take_until_spec target sorted (zero A)) as (k & Hk & Htake & Hbelow & Hend).
    unfold running in Hbelow, Hend.
    exists k. split; [exact Hk|]. split; [exact Htake|]. split; [exact Hbelow|].
    destruct Hend as [Hreach|[[-> Hnot]|[-> Hnil]]].
    + left. exact Hreach.
    + right. split; [reflexivity|]. intros j Hj.
      destruct (Nat.eq_dec j (List.length sorted)) as [->|Hlt]; [exact Hnot|].
      apply Hbelow. lia.
    + right. rewrite Hnil. simpl. split; [reflexivity|]. intros j Hj. lia.
Qed.

End Selector.

(** *** Exact arithmetic *)

Lemma sum_from_fold acc (l : list Q) : sum_from acc l = fold_left Qplus l acc.
Proof.
  revert acc. induction l as [|x r IH]; intros acc; simpl; [reflexivity|]. apply IH.
Qed.

Lemma sort_desc_exact {T : Type} (key : T -> Q) (l : list T) :
  sort_desc exact key l = LatencySpanFinder.sort_desc key l.
Proof.
  induction l as [|x r IH]; simpl; [reflexivity|]. rewrite IH. clear IH.
  induction (LatencySpanFinder.sort_desc key r) as [|y r' IH']; simpl; [reflexivity|].
  unfold Qlt_bool. destruct (Qle_bool (key y) (key x)); simpl; [reflexivity|].
  now rewrite IH'.
Qed.

Lemma take_until_exact acc target (l : list (string * Q)) :
  take_until exact acc target l = LatencySpanFinder.take_until acc target l.
Proof.
  revert acc. induction l as [|[sid d] r IH]; intros acc; simpl; [reflexivity|].
  now rewrite IH.
Qed.

(** In exact arithmetic, with [sum] adding up from the left, the lines are
    [LatencySpanFinder.top_95_percent_spans]. *)
Lemma top_95_percent_spans_exact (c : constants) (adjusted : list (string * Q)) :
  top_95_percent_spans exact (sum_left exact) (PERCENT_95 c) adjusted =
  LatencySpanFinder.top_95_percent_spans c adjusted.
Proof.
  unfold top_95_percent_spans, LatencySpanFinder.top_95_percent_spans,
    LatencySpanFinder.total_duration, sum_left.
  rewrite sort_desc_exact, sum_from_fold. simpl.
  destruct (Qeq_bool _ 0); [reflexivity|]. apply take_until_exact.
Qed.

(** *** Binary64 *)

Import Binary64.

Lemma top_95_percent_spans_shortest_prefix_witness :
  let sorted := sort_desc binary64 snd example_floats in
  let total := sum_compensated (map snd sorted) in
  let target := mul binary64 total percent_95 in
  let result := top_95_percent_spans binary64 sum_compensated percent_95 example_floats in
  Permutation sorted example_floats /\
  (sorted_desc binary64 snd sorted /\
   forall e, In e (map snd example_floats) ->
     filter (tied binary64 snd e) sorted = filter (tied binary64 snd e) example_floats) /\
  exists k, (k <= List.length sorted)%nat /\
    result = map fst (firstn k sorted) /\
    (forall j, (1 <= j < k)%nat ->
       geb binary64 (fold_left (add binary64) (map snd (firstn j sorted)) (zero binary64))
         target = false) /\
    ((1 <= k)%nat /\
     geb binary64 (fold_left (add binary64) (map snd (firstn k sorted)) (zero binary64))
       target = true
     \/
     k = List.length sorted /\
     forall j, (1 <= j <= k)%nat ->
       geb binary64 (fold_left (add binary64) (map snd (firstn j sorted)) (zero binary64))
         target = false).
Proof.
  destruct (top_95_percent_spans_shortest_prefix binary64 sum_compensated percent_95
              example_floats) as (Hperm & Hsorted & _ & Hloop).
  split; [exact Hperm|]. split.
  - apply Hsorted. vm_compute. reflexivity.
  - apply Hloop. vm_compute. reflexivity.
Defined.

(** The example of C2 in binary64, with either [sum]: the total is 100, the
    target 95, the running sums are 70, 80, 90 and 95; the loop stops at d
    and leaves e out. *)
Example top_95_percent_spans_binary64_example :
  orderedb binary64 (map snd example_floats) = true /\
  top_95_percent_spans binary64 sum_compensated percent_95 example_floats =
    ["a"; "b"; "c"; "d"] /\
  top_95_percent_spans binary64 sum_left_to_right percent_95 example_floats =
    ["a"; "b"; "c"; "d"] /\
  geb binary64
    (fold_left (add binary64) (map snd (firstn 4 example_floats)) (zero binary64))
    (mul binary64 (sum_compensated (map snd example_floats)) percent_95) = true /\
  geb binary64
    (fold_left (add binary64) (map snd (firstn 3 example_floats)) (zero binary64))
    (mul binary64 (sum_compensated (map snd example_floats)) percent_95) = false.
Proof. repeat split; vm_compute; reflexivity. Qed.

(** C2 as stated fails in binary64. On [rounding_example] the program
    returns a, b and c, with either [sum]; yet the durations of a and b
    already add up to 95% of the total - exactly 95% of 8.2 on paper, and
    more than [0.95] times the total when the four floats and the float
    [0.95] are added and multiplied without rounding - so that removing the
    last element c leaves a prefix that still reaches the target, and the
    selection in exact arithmetic on the same numbers returns a and b. *)
Lemma top_95_percent_spans_rounding :
  top_95_percent_spans binary64 sum_compensated percent_95 rounding_example =
    ["a"; "b"; "c"] /\
  top_95_percent_spans binary64 sum_left_to_right percent_95 rounding_example =
    ["a"; "b"; "c"] /\
  exists a b c d p : Q,
    map (fun kv => exact_value (snd kv)) rounding_example =
      [Some a; Some b; Some c; Some d] /\
    exact_value percent_95 = Some p /\
    (p * (a + b + c + d) <= a + b)%Q /\
    ((95 # 100) * (a + b + c + d) <= a + b)%Q /\
    LatencySpanFinder.top_95_percent_spans
      (mkConstants 2000 3000 p (5000000 # 1))
      [("a", a); ("b", b); ("c", c); ("d", d)] = ["a"; "b"].
Proof.
  split; [vm_compute; reflexivity|]. split; [vm_compute; reflexivity|].
  do 5 eexists. split; [vm_compute; reflexivity|]. split; [vm_compute; reflexivity|].
  split; [|split].
  - vm_compute. discriminate.
  - vm_compute. discriminate.
  - vm_compute. reflexivity.
Qed.

End PercentileFacts.

(* ================================================================== *)
(** * Further functions and properties *)

(** ** More on the error root-cause selector *)

Module ErrorSpanExtras.
Import ErrorSpanFinder DictFacts ErrorSpanFacts.

(** A span that carries a non-empty trace id. *)
Definition has_trace (s : span) : bool :=
  match traceId s with
  | Some t => truthy t
  | None => false
  end.

Section WithInt.
Variable int : string -> outcome Z.

(** X3. Whatever the span ids are (duplicates included), every id that
    [find_root_cause_spans] returns is the id of a span of some trace that
    has the three fields and a status code above 1. *)
Theorem root_causes_are_errored (all_spans : list span) (out : list string)
    (x : string) :
  find_root_cause_spans int all_spans = Returns out ->
  In x out ->
  exists t s, In s all_spans /\ in_trace t s = true /\ has_fields s = true /\
              spanId s = x /\ (1 < status_of int s)%Z.
Proof.
  intros Hf Hx.
  apply (find_root_cause_spans_spec int all_spans out Hf) in Hx.
  destruct Hx as (t & Hlt & _).
  destruct (last_status_errored int _ _ Hlt) as (s & Hs & Hid & Hst).
  apply filter_In in Hs. destruct Hs as [Hs Ht].
  assert (Hp : parses int s).
  { apply (proj1 (find_root_cause_spans_returns int all_spans)) with (t := t); eauto. }
  exists t, s. repeat split; auto; [apply Hp|lia].
Qed.

(** X4. The list [process_one_trace_log] returns for one trace never holds
    an id twice, even when the trace repeats a span id. *)
Theorem process_one_trace_log_NoDup (trace : list span) (out : list string) :
  process_one_trace_log int trace = Returns out -> NoDup out.
Proof.
  intros H.
  destruct (process_one_trace_log_spec int trace) as (out' & Hout & Hnd & _).
  - eapply process_one_trace_log_returns; eauto.
  - congruence.
Qed.

(** X5. Spans without a trace id (missing or empty) play no part: removing
    them changes neither the returned list nor whether the call raises -
    none of their fields is read and their status code is never parsed. *)
Theorem spans_without_trace_are_ignored (all_spans : list span) :
  find_root_cause_spans int (filter has_trace all_spans) =
  find_root_cause_spans int all_spans.
Proof.
  unfold find_root_cause_spans, trace_groups. f_equal.
  generalize (@Dict.empty (list span)).
  induction all_spans as [|s r IH]; intros g; simpl; [reflexivity|].
  unfold has_trace at 1. unfold group_span at 3. unfold traceId.
  destruct (Dict.get s "traceId") as [t|] eqn:Et.
  - destruct (truthy t) eqn:Etr; simpl.
    + rewrite IH. unfold group_span at 2. now rewrite Et, Etr.
    + apply IH.
  - apply IH.
Qed.

Lemma process_groups_app (a b : list (string * list span)) :
  process_groups int (a ++ b) =
  (o1 <- process_groups int a ;; o2 <- process_groups int b ;; Returns (o1 ++ o2)).
Proof.
  induction a as [|[t l] r IH]; simpl.
  - now destruct (process_groups int b).
  - destruct (process_one_trace_log int l) as [o|e]; simpl; [|reflexivity].
    rewrite IH. destruct (process_groups int r) as [o1|e]; simpl; [|reflexivity].
    destruct (process_groups int b) as [o2|e]; simpl; [|reflexivity].
    now rewrite app_assoc.
Qed.

End WithInt.

Lemma get_app_fresh {V : Type} (g0 g : Dict.t V) k :
  ~ In k (Dict.keys g0) -> Dict.get (g0 ++ g) k = Dict.get g k.
Proof.
  unfold Dict.keys. induction g0 as [|[k0 v0] r IH]; simpl; intros H; [reflexivity|].
  destruct (String.eqb k0 k) eqn:E.
  - apply String.eqb_eq in E. subst. exfalso. apply H. now left.
  - apply IH. intros Hin. apply H. now right.
Qed.

Lemma set_app_fresh {V : Type} (g0 g : Dict.t V) k v :
  ~ In k (Dict.keys g0) -> Dict.set (g0 ++ g) k v = g0 ++ Dict.set g k v.
Proof.
  unfold Dict.keys. induction g0 as [|[k0 v0] r IH]; simpl; intros H; [reflexivity|].
  destruct (String.eqb k0 k) eqn:E.
  - apply String.eqb_eq in E. subst. exfalso. apply H. now left.
  - rewrite IH; [reflexivity|]. intros Hin. apply H. now right.
Qed.

(** Groups that exist already and are not touched stay in front. *)
Lemma group_spans_frame (l : list span) (g0 : Dict.t (list span)) :
  (forall s t, In s l -> in_trace t s = true -> ~ In t (Dict.keys g0)) ->
  forall g, fold_left group_span l (g0 ++ g) = g0 ++ fold_left group_span l g.
Proof.
  induction l as [|s r IH]; intros Hfresh g; simpl; [reflexivity|].
  assert (Hstep : group_span (g0 ++ g) s = g0 ++ group_span g s).
  { unfold group_span. destruct (Dict.get s "traceId") as [t|] eqn:Et; [|reflexivity].
    destruct (truthy t) eqn:Etr; [|reflexivity].
    assert (Hk : ~ In t (Dict.keys g0)).
    { apply (Hfresh s t); [now left|]. unfold in_trace, traceId.
      now rewrite Et, Etr, String.eqb_refl. }
    unfold Dict.append, Dict.get_default.
    now rewrite get_app_fresh, set_app_fresh. }
  rewrite Hstep. apply IH. intros s' t Hin. apply Hfresh. now right.
Qed.

Lemma root_causes_are_errored_witness :
  exists t s, In s chain_ABC /\ in_trace t s = true /\ has_fields s = true /\
              spanId s = "C" /\ (1 < status_of py_int s)%Z.
Proof.
  apply (root_causes_are_errored py_int chain_ABC ["C"] "C").
  - reflexivity.
  - simpl. auto.
Defined.

(** A trace in which the id "a" occurs twice. *)
Definition repeated_id_trace : list span :=
  [ mkSpan "a" "" "2" (Some "t1");
    mkSpan "b" "a" "0" (Some "t1");
    mkSpan "a" "" "3" (Some "t1") ].

Lemma process_one_trace_log_NoDup_witness : NoDup ["a"].
Proof.
  apply (process_one_trace_log_NoDup py_int repeated_id_trace ["a"]). reflexivity.
Defined.

(** Two traces, each with one errored leaf span. *)
Definition trace_one : list span := [mkSpan "p" "" "2" (Some "t1")].
Definition trace_two : list span := [mkSpan "q" "" "3" (Some "t2")].

(** X6. Traces are analysed independently: when no trace id occurs in both
    of two span lists, the call on their concatenation behaves like the
    call on the first list followed by the call on the second - it returns
    the first result followed by the second, and raises where the first of
    the two calls raises. *)
Theorem independent_traces_compose (int : string -> outcome Z)
    (spans1 spans2 : list span) :
  (forall s1 s2 t, In s1 spans1 -> In s2 spans2 ->
                   in_trace t s1 = true -> in_trace t s2 = true -> False) ->
  find_root_cause_spans int (spans1 ++ spans2) =
  (o1 <- find_root_cause_spans int spans1 ;;
   o2 <- find_root_cause_spans int spans2 ;;
   Returns (o1 ++ o2)).
Proof.
  intros Hdis. unfold find_root_cause_spans, Dict.items.
  rewrite <- process_groups_app. f_equal.
  unfold trace_groups. rewrite fold_left_app.
  fold (trace_groups spans1).
  rewrite <- (app_nil_r (trace_groups spans1)) at 1.
  apply group_spans_frame.
  intros s2 t Hs2 Ht Hk.
  destruct (group_spans_spec spans1 Dict.empty) as (_ & Hkeys & _).
  fold (trace_groups spans1) in Hkeys. apply Hkeys in Hk.
  destruct Hk as [[]|(s1 & Hs1 & Ht1)]. eapply Hdis; eauto.
Qed.

Lemma independent_traces_compose_witness :
  find_root_cause_spans py_int (trace_one ++ trace_two) =
  (o1 <- find_root_cause_spans py_int trace_one ;;
   o2 <- find_root_cause_spans py_int trace_two ;;
   Returns (o1 ++ o2)).
Proof.
  apply (independent_traces_compose py_int trace_one trace_two).
  intros s1 s2 t [<-|[]] [<-|[]]. rewrite !in_trace_mkSpan.
  cbn [truthy andb].
  intros H1 H2. apply String.eqb_eq in H1. apply String.eqb_eq in H2.
  rewrite <- H2 in H1. discriminate H1.
Defined.

End ErrorSpanExtras.

(* ================================================================== *)
(** ** More on the percentile selector and the baseline averager *)

Module LatencyExtras.
Import LatencySpanFinder DictFacts LatencyFacts.

Local Open Scope Q_scope.

(** *** Where the stored durations and identities come from *)

(** The row passes the length test of lines 294-303. *)
Definition well_formed (lg : log) : bool :=
  ((List.length (span_id lg) =? List.length (exclusive_duration lg))%nat
   && (List.length (span_id lg) =? List.length (span_index lg))%nat)%bool.

Definition row_entries (lg : log) : list (string * Z * jvalue) :=
  zip3 (span_id lg) (span_index lg) (exclusive_duration lg).

(** [v] is the duration of span [sid] in some well-formed row of [all], a
    strictly positive number, cut at [MAX_DURATION]. *)
Definition from_rows (c : constants) (all : list log) (sid : string) (v : Q) : Prop :=
  exists lg idx d,
    In lg all /\ well_formed lg = true /\
    In (sid, idx, JNum d) (row_entries lg) /\ 0 < d /\
    v = Qmin d (MAX_DURATION c).

Definition tracked (c : constants) (all : list log) (m : mappings) : Prop :=
  (forall sid v, In (sid, v) (span_duration_mapping m) -> from_rows c all sid v) /\
  NoDup (Dict.keys (span_service_mapping m)) /\
  (forall sid sn pn, In (sid, (sn, pn)) (span_service_mapping m) ->
     In sid (Dict.keys (span_duration_mapping m)) /\
     truthy sn = true /\ truthy pn = true).

Lemma identity_at_truthy spans idx sn pn :
  identity_at spans idx = Some (sn, pn) -> truthy sn = true /\ truthy pn = true.
Proof.
  unfold identity_at. destruct spans as [|i r]; [discriminate|].
  destruct (_ && _)%bool; [|discriminate].
  destruct (_extract_service_and_span_name _) as [a b].
  destruct (truthy a) eqn:Ea, (truthy b) eqn:Eb; simpl; try discriminate.
  intros [= <- <-]. auto.
Qed.

Lemma store_span_tracked c all spans m sid idx d :
  tracked c all m -> from_rows c all sid d ->
  tracked c all (store_span spans m sid idx d).
Proof.
  intros (Hdm & Hnd & Hsm) Hd. unfold store_span.
  assert (Hdm' : forall sid' v, In (sid', v) (Dict.set (span_duration_mapping m) sid d) ->
                                from_rows c all sid' v).
  { intros sid' v H. apply In_set in H. destruct H as [[-> ->]|H]; auto. }
  assert (Hkeep : forall sid' sn pn, In (sid', (sn, pn)) (span_service_mapping m) ->
            In sid' (Dict.keys (Dict.set (span_duration_mapping m) sid d)) /\
            truthy sn = true /\ truthy pn = true).
  { intros sid' sn pn H. destruct (Hsm _ _ _ H) as (H1 & H2 & H3).
    repeat split; auto. apply keys_set. now right. }
  destruct (identity_at spans idx) as [[sn pn]|] eqn:E; simpl.
  - split; [exact Hdm'|]. split; [now apply NoDup_keys_set|].
    intros sid' sn' pn' H. apply In_set in H. destruct H as [[-> [= -> ->]]|H].
    + apply identity_at_truthy in E. destruct E. repeat split; auto.
      apply keys_set. now left.
    + now apply Hkeep.
  - repeat split; auto; now apply (Hkeep sid0 sn pn).
Qed.

Lemma well_formed_test lg :
  (negb (List.length (span_id lg) =? List.length (exclusive_duration lg))%nat
   || negb (List.length (span_id lg) =? List.length (span_index lg))%nat)%bool
  = negb (well_formed lg).
Proof. unfold well_formed. now rewrite negb_andb. Qed.

Lemma adjusted_spans_from c self lg sid idx adj orig :
  In (sid, idx, adj, orig) (adjusted_spans c self lg) ->
  exists d, In (sid, idx, JNum d) (row_entries lg) /\ 0 < d /\
            orig = Qmin d (MAX_DURATION c).
Proof.
  unfold adjusted_spans. rewrite in_flat_map.
  intros ([[sid' idx'] v] & Hin & H).
  destruct (positive_duration v) as [d|] eqn:E; [|contradiction].
  apply positive_duration_Some in E. destruct E as [-> Hd].
  destruct H as [[= <- <- <- <-]|[]]. exists d. auto.
Qed.

Lemma valid_spans_from c lg sid idx v :
  In (sid, idx, v) (valid_spans c lg) ->
  exists d, In (sid, idx, JNum d) (row_entries lg) /\ 0 < d /\
            v = Qmin d (MAX_DURATION c).
Proof.
  unfold valid_spans. rewrite in_flat_map.
  intros ([[sid' idx'] w] & Hin & H).
  destruct (positive_duration w) as [d|] eqn:E; [|contradiction].
  apply positive_duration_Some in E. destruct E as [-> Hd].
  destruct H as [[= <- <- <-]|[]]. exists d. auto.
Qed.

Lemma collect_spans_tracked c all lg (l : list (string * Z * jvalue)) :
  In lg all -> well_formed lg = true ->
  (forall x, In x l -> In x (row_entries lg)) ->
  forall m, tracked c all m ->
  tracked c all (fold_left (collect_span c (span_list lg)) l m).
Proof.
  intros Hlg Hwf. induction l as [|[[sid idx] v] l IH]; intros Hsub m Hm; simpl;
    [exact Hm|].
  apply IH; [intros; apply Hsub; now right|].
  destruct (positive_duration v) as [d|] eqn:E; [|exact Hm].
  apply positive_duration_Some in E. destruct E as [-> Hd].
  apply store_span_tracked; [exact Hm|].
  exists lg, idx, d. repeat split; auto. apply Hsub. now left.
Qed.

Lemma process_log_tracked c self all m lg :
  In lg all -> tracked c all m -> tracked c all (process_log c self m lg).
Proof.
  intros Hlg Hm. unfold process_log. rewrite well_formed_test.
  destruct (well_formed lg) eqn:Ewf; simpl; [|exact Hm].
  destruct (only_top1_per_trace self).
  - destruct (_ && _)%bool.
    + destruct (py_max _ (adjusted_spans c self lg)) as [[[[sid idx] adj] orig]|] eqn:E;
        [|exact Hm].
      apply py_max_In, adjusted_spans_from in E. destruct E as (d & H1 & H2 & H3).
      apply store_span_tracked; [exact Hm|]. exists lg, idx, d. auto.
    + destruct (py_max _ (valid_spans c lg)) as [[[sid idx] v]|] eqn:E; [|exact Hm].
      apply py_max_In, valid_spans_from in E. destruct E as (d & H1 & H2 & H3).
      apply store_span_tracked; [exact Hm|]. exists lg, idx, d. auto.
  - apply collect_spans_tracked; auto.
Qed.

Lemma collect_tracked_from c self all (l : list log) :
  (forall lg, In lg l -> In lg all) ->
  forall m, tracked c all m -> tracked c all (fold_left (process_log c self) l m).
Proof.
  induction l as [|lg r IH]; intros Hsub m Hm; simpl; [exact Hm|].
  apply IH; [intros; apply Hsub; now right|].
  apply process_log_tracked; [apply Hsub; now left|exact Hm].
Qed.

Lemma collect_tracked c self logs : tracked c logs (collect c self logs).
Proof.
  unfold collect. apply collect_tracked_from; [auto|].
  split; [intros ? ? []|]. split; [constructor|]. intros ? ? ? [].
Qed.

Lemma top_95_percent_spans_subset c adjusted x :
  In x (top_95_percent_spans c adjusted) -> In x (map fst adjusted).
Proof.
  unfold top_95_percent_spans. destruct (Qeq_bool _ 0); [intros []|].
  destruct (take_until_prefix 0 (total_duration (sort_desc snd adjusted) * PERCENT_95 c)
              (sort_desc snd adjusted)) as (k & _ & ->).
  intros H. apply in_map_iff in H. destruct H as (kv & <- & Hin).
  apply in_map. apply In_firstn_In in Hin.
  eapply Permutation_in; [apply sort_desc_perm|exact Hin].
Qed.

Lemma selected_spans_are_keys c self ask logs x :
  In x (fst (_process_exclusive_duration_data c self ask logs)) ->
  In x (Dict.keys (span_duration_mapping (collect c self logs))).
Proof.
  unfold _process_exclusive_duration_data.
  destruct (Dict.nonempty _); [|intros []].
  pose proof (adjusted_span_durations_keys c self ask (collect c self logs)) as Hk.
  destruct (adjusted_span_durations c self ask (collect c self logs)) as [adj issued].
  simpl in *. intros H. rewrite <- Hk. now apply top_95_percent_spans_subset in H.
Qed.

Lemma selected_spans_distinct c self ask logs :
  NoDup (fst (_process_exclusive_duration_data c self ask logs)).
Proof.
  unfold _process_exclusive_duration_data.
  destruct (Dict.nonempty _); [|constructor].
  pose proof (adjusted_span_durations_keys c self ask (collect c self logs)) as Hk.
  destruct (adjusted_span_durations c self ask (collect c self logs)) as [adj issued].
  simpl in *. unfold top_95_percent_spans.
  destruct (Qeq_bool _ 0); [constructor|].
  destruct (take_until_prefix 0 (total_duration (sort_desc snd adj) * PERCENT_95 c)
              (sort_desc snd adj)) as (k & _ & ->).
  rewrite <- firstn_map. apply NoDup_firstn_keep.
  apply (Permutation_NoDup (l := map fst adj));
    [apply Permutation_map; symmetry; apply sort_desc_perm|].
  rewrite Hk. apply (collect_ok c self logs).
Qed.

(** X8. Every span id the selector returns is the id of a span with a
    strictly positive numeric exclusive duration in a row that passed the
    length test: ids of rows that were skipped and of spans without
    positive duration are never returned. *)
Theorem selected_spans_come_from_rows (c : constants) (self : finder)
    (ask : lookup) (logs : list log) (x : string) :
  In x (fst (_process_exclusive_duration_data c self ask logs)) ->
  exists lg idx d,
    In lg logs /\ well_formed lg = true /\
    In (x, idx, JNum d) (row_entries lg) /\ 0 < d.
Proof.
  intros H. apply selected_spans_are_keys in H.
  apply keys_get_Some in H. destruct H as [v Hv]. apply get_Some_In in Hv.
  destruct (collect_tracked c self logs) as (Hdm & _).
  destruct (Hdm x v Hv) as (lg & idx & d & H1 & H2 & H3 & H4 & _).
  exists lg, idx, d. auto.
Qed.

Lemma selected_spans_come_from_rows_witness :
  exists lg idx d,
    In lg example_rows /\ well_formed lg = true /\
    In ("a", idx, JNum d) (row_entries lg) /\ 0 < d.
Proof.
  apply (selected_spans_come_from_rows default_constants
           (mkFinder false false Dict.empty) (fun _ => Returns []) example_rows "a").
  vm_compute. left. reflexivity.
Defined.

Lemma keys_length {V : Type} (d : Dict.t V) : List.length (Dict.keys d) = Dict.len d.
Proof. unfold Dict.keys, Dict.len. apply length_map. Qed.

(** X9. Identities are recorded only for spans whose duration is recorded,
    and only when both names are non-empty; so the coverage
    [len(span_service_mapping) / len(span_duration_mapping)] never
    exceeds 100%. *)
Theorem identities_within_durations (c : constants) (self : finder) (logs : list log) :
  let m := collect c self logs in
  (Dict.len (span_service_mapping m) <= Dict.len (span_duration_mapping m))%nat /\
  forall sid sn pn, In (sid, (sn, pn)) (span_service_mapping m) ->
    In sid (Dict.keys (span_duration_mapping m)) /\ sn <> "" /\ pn <> "".
Proof.
  intros m. destruct (collect_tracked c self logs) as (_ & Hnd & Hsm).
  fold m in Hnd, Hsm. split.
  - rewrite <- !keys_length. apply NoDup_incl_length; [exact Hnd|].
    intros sid Hin. apply keys_get_Some in Hin. destruct Hin as [[sn pn] Hget].
    apply get_Some_In in Hget. now apply Hsm in Hget.
  - intros sid sn pn H. destruct (Hsm _ _ _ H) as (H1 & H2 & H3).
    repeat split; auto; intros ->; discriminate.
Qed.

Lemma set_length_le {V : Type} (d : Dict.t V) k v :
  (Dict.len (Dict.set d k v) <= S (Dict.len d))%nat.
Proof.
  unfold Dict.len. induction d as [|[k0 v0] r IH]; simpl; [lia|].
  destruct (String.eqb k0 k); simpl; lia.
Qed.

Lemma store_span_length spans m sid idx d :
  (Dict.len (span_duration_mapping (store_span spans m sid idx d))
   <= S (Dict.len (span_duration_mapping m)))%nat.
Proof.
  unfold store_span. destruct (identity_at spans idx); simpl; apply set_length_le.
Qed.

Lemma top1_rows_length c self (logs : list log) :
  only_top1_per_trace self = true ->
  forall m,
  (Dict.len (span_duration_mapping (fold_left (process_log c self) logs m))
   <= Dict.len (span_duration_mapping m) + List.length logs)%nat.
Proof.
  intros Htop. induction logs as [|lg r IH]; intros m; simpl; [lia|].
  eapply Nat.le_trans; [apply IH|].
  assert (Dict.len (span_duration_mapping (process_log c self m lg))
          <= S (Dict.len (span_duration_mapping m)))%nat; [|lia].
  unfold process_log. rewrite Htop.
  destruct (_ || _)%bool; [lia|].
  destruct (_ && _)%bool.
  - destruct (py_max _ _) as [[[[sid idx] adj] orig]|]; [apply store_span_length|lia].
  - destruct (py_max _ _) as [[[sid idx] v]|]; [apply store_span_length|lia].
Qed.

(** Two rows (traces) with three and two spans. *)
Definition two_rows : list log :=
  [ mkLog ["a"; "b"; "c"] [0; 1; 2]%Z [JNum (3 # 1); JNum (9 # 1); JNum (4 # 1)] [];
    mkLog ["d"; "e"] [0; 1]%Z [JNum (7 # 1); JNum (2 # 1)] [] ].

(** X10. With [only_top1_per_trace] every row contributes at most one span:
    neither the number of ranked spans nor the length of the returned list
    exceeds the number of rows. *)
Theorem top1_keeps_one_span_per_row (c : constants) (self : finder) (ask : lookup)
    (logs : list log) :
  only_top1_per_trace self = true ->
  (Dict.len (span_duration_mapping (collect c self logs)) <= List.length logs)%nat /\
  (List.length (fst (_process_exclusive_duration_data c self ask logs))
   <= List.length logs)%nat.
Proof.
  intros Htop.
  assert (Hlen : (Dict.len (span_duration_mapping (collect c self logs))
                  <= List.length logs)%nat).
  { unfold collect.
    apply (top1_rows_length c self logs Htop (mkMappings Dict.empty Dict.empty)). }
  split; [exact Hlen|].
  eapply Nat.le_trans; [|exact Hlen]. rewrite <- keys_length.
  apply NoDup_incl_length; [apply selected_spans_distinct|].
  intros x. apply selected_spans_are_keys.
Qed.

Lemma top1_keeps_one_span_per_row_witness :
  (Dict.len (span_duration_mapping
               (collect default_constants (mkFinder false true Dict.empty) two_rows))
   <= List.length two_rows)%nat /\
  (List.length (fst (_process_exclusive_duration_data default_constants
                       (mkFinder false true Dict.empty) (fun _ => Returns []) two_rows))
   <= List.length two_rows)%nat.
Proof.
  apply (top1_keeps_one_span_per_row default_constants (mkFinder false true Dict.empty)
           (fun _ => Returns []) two_rows).
  reflexivity.
Defined.

(** *** The identity queries *)

Lemma sampled_span_ids_spec c (dm : Dict.t Q) :
  NoDup (Dict.keys dm) ->
  NoDup (sampled_span_ids c dm) /\
  forall x, In x (sampled_span_ids c dm) -> In x (Dict.keys dm).
Proof.
  intros Hnd. unfold sampled_span_ids.
  destruct (HIGH_RT_TRACES c <? List.length (Dict.keys dm))%nat; [|auto].
  set (sorted := sort_desc (fun x => Dict.get_default dm x 0) (Dict.keys dm)).
  assert (Hperm : Permutation sorted (Dict.keys dm)) by apply sort_desc_perm.
  split.
  - apply NoDup_firstn_keep. eapply Permutation_NoDup; [symmetry; exact Hperm|exact Hnd].
  - intros x Hx. apply In_firstn_In in Hx. eapply Permutation_in; eauto.
Qed.

(** X11. Whatever the rows and the options are, the identity queries of one
    call of the selector ask for distinct span ids, all of them ids with a
    recorded duration, at most [HIGH_RT_TRACES] in total and at most 500 per
    query; and no query at all is issued when [minus_average] is off or the
    baseline is empty. *)
Theorem identity_queries_are_bounded (c : constants) (self : finder) (ask : lookup)
    (logs : list log) :
  let issued := snd (_process_exclusive_duration_data c self ask logs) in
  NoDup (List.concat issued) /\
  (forall x, In x (List.concat issued) ->
     In x (Dict.keys (span_duration_mapping (collect c self logs)))) /\
  (List.length (List.concat issued) <= HIGH_RT_TRACES c)%nat /\
  Forall (fun b => (List.length b <= batch_size)%nat) issued /\
  (minus_average self = false \/ span_average_durations self = Dict.empty ->
   issued = []).
Proof.
  intros issued. subst issued. unfold _process_exclusive_duration_data.
  destruct (collect_ok c self logs) as [Hnd _].
  set (m := collect c self logs) in *.
  assert (Hnil : NoDup (List.concat (@nil (list string))) /\
                 (forall x, In x (List.concat (@nil (list string))) ->
                            In x (Dict.keys (span_duration_mapping m))) /\
                 (List.length (List.concat (@nil (list string))) <= HIGH_RT_TRACES c)%nat /\
                 Forall (fun b : list string => (List.length b <= batch_size)%nat) []).
  { simpl. repeat split; [constructor|intros x []|lia|constructor]. }
  destruct (Dict.nonempty (span_duration_mapping m)); simpl; [|tauto].
  unfold adjusted_span_durations.
  destruct (minus_average self) eqn:Em; simpl.
  - destruct (Dict.nonempty (span_average_durations self)) eqn:Ea; simpl.
    + destruct (choose_strategy m); simpl.
      * destruct Hnil as (H1 & H2 & H3 & H4). repeat split; auto.
      * destruct (chunks_spec (sampled_span_ids c (span_duration_mapping m))) as [Hc Hf].
        destruct (sampled_span_ids_spec c _ Hnd) as [Hs1 Hs2].
        rewrite Hc. repeat split; auto.
        -- apply sampled_span_ids_length.
        -- intros [H|H]; [discriminate|]. rewrite H in Ea. discriminate.
    + destruct Hnil as (H1 & H2 & H3 & H4). repeat split; auto.
  - destruct Hnil as (H1 & H2 & H3 & H4). repeat split; auto.
Qed.

Lemma record_identity_other sm sl sid :
  sl_spanId sl <> Some sid ->
  Dict.get (record_identity sm sl) sid = Dict.get sm sid.
Proof.
  intros Hne. unfold record_identity.
  destruct (sl_spanId sl) as [k|], (sl_serviceName sl) as [sn|],
    (sl_spanName sl) as [pn|]; try reflexivity.
  destruct (_ && _)%bool; [|reflexivity].
  apply get_set_other. congruence.
Qed.

Lemma record_identities_other (l : list service_log) sid :
  (forall sl, In sl l -> sl_spanId sl <> Some sid) ->
  forall sm, Dict.get (fold_left record_identity l sm) sid = Dict.get sm sid.
Proof.
  induction l as [|sl r IH]; intros Hne sm; simpl; [reflexivity|].
  rewrite IH by (intros; apply Hne; now right).
  apply record_identity_other. apply Hne. now left.
Qed.

Lemma fetch_identities_missing ask batches sid :
  (forall sl, In sl (replies ask batches) -> sl_spanId sl <> Some sid) ->
  Dict.get (fetch_identities ask batches) sid = None.
Proof.
  intros H. unfold fetch_identities. rewrite fetch_identities_replies.
  now rewrite record_identities_other.
Qed.

Lemma replies_all_failed ask (batches : list (list string)) :
  (forall batch, exists e, ask batch = Raises e) -> replies ask batches = [].
Proof.
  intros Hfail. unfold replies. induction batches as [|b r IH]; simpl; [reflexivity|].
  destruct (Hfail b) as [e ->]. exact IH.
Qed.

(** X12. In the resample routine a span that no answered identity query
    mentions keeps its duration unchanged: no average is subtracted from
    it, whether its batch failed, it was left out of the sample, or the
    answer did not list it. *)
Theorem unresolved_span_keeps_duration (c : constants) (self : finder) (ask : lookup)
    (dm : Dict.t Q) (sid : string) (d : Q) :
  In (sid, d) dm ->
  (forall sl, In sl (replies ask (chunks batch_size (sampled_span_ids c dm))) ->
              sl_spanId sl <> Some sid) ->
  In (sid, d) (fst (_adjust_durations_with_span_average c self ask dm)).
Proof.
  intros Hin Hmiss. unfold _adjust_durations_with_span_average. simpl.
  apply in_map_iff. exists (sid, d). split; [|exact Hin]. simpl.
  now rewrite fetch_identities_missing.
Qed.

Lemma unresolved_span_keeps_duration_witness :
  In ("u", 500 # 1)
     (fst (_adjust_durations_with_span_average default_constants
             (finder_with_baseline (200 # 1)) lookup_s
             [("s", 500 # 1); ("u", 500 # 1)])).
Proof.
  apply (unresolved_span_keeps_duration default_constants
           (finder_with_baseline (200 # 1)) lookup_s
           [("s", 500 # 1); ("u", 500 # 1)] "u" (500 # 1)).
  - simpl. auto.
  - intros sl Hsl. vm_compute in Hsl. destruct Hsl as [<-|[]]. discriminate.
Defined.

(** X13. When every identity query fails, the resample routine returns the
    recorded durations as they are, in their order: the failure of the
    collaborator shows only as missing normalization. *)
Theorem failed_lookups_leave_durations (c : constants) (self : finder) (ask : lookup)
    (dm : Dict.t Q) :
  (forall batch, exists e, ask batch = Raises e) ->
  fst (_adjust_durations_with_span_average c self ask dm) = Dict.items dm.
Proof.
  intros Hfail. unfold _adjust_durations_with_span_average, Dict.items. simpl.
  rewrite <- (map_id dm) at 2. apply map_ext_in. intros [sid d] _. simpl.
  rewrite fetch_identities_missing; [reflexivity|].
  rewrite replies_all_failed by assumption. intros sl [].
Qed.

Lemma failed_lookups_leave_durations_witness :
  fst (_adjust_durations_with_span_average default_constants
         (finder_with_baseline (200 # 1)) (fun _ => Raises TypeError)
         [("s", 500 # 1)]) = Dict.items [("s", 500 # 1)].
Proof.
  apply (failed_lookups_leave_durations default_constants
           (finder_with_baseline (200 # 1)) (fun _ => Raises TypeError) [("s", 500 # 1)]).
  intros batch. exists TypeError. reflexivity.
Defined.

(** *** The baseline *)

Lemma baseline_empty_when_queries_fail np_mean c (response : outcome (list log))
    (ask : lookup) :
  (exists e, response = Raises e) \/ (forall batch, exists e, ask batch = Raises e) ->
  fst (_calculate_span_averages np_mean c response ask) = Dict.empty.
Proof.
  intros [[e ->]|Hfail]; [reflexivity|].
  unfold _calculate_span_averages. destruct response as [logs|e]; [|reflexivity].
  destruct (Dict.nonempty _); [|reflexivity].
  unfold _query_span_names_for_spans.
  destruct (sample_for_average c (collect_average logs)) as [ids kept]. simpl.
  rewrite average_batches_replies, replies_all_failed by assumption. reflexivity.
Qed.

(** X14. No baseline without answers: when the exclusive-duration query over
    the reference window fails, or every identity query fails, the baseline
    map is empty. *)
Theorem failed_queries_give_empty_baseline (np_mean : list Q -> Q) (c : constants)
    (response : outcome (list log)) (ask : lookup) :
  (exists e, response = Raises e) \/ (forall batch, exists e, ask batch = Raises e) ->
  fst (_calculate_span_averages np_mean c response ask) = Dict.empty.
Proof. apply baseline_empty_when_queries_fail. Qed.

Lemma failed_queries_give_empty_baseline_witness :
  fst (_calculate_span_averages mean default_constants (Returns reference_rows)
         (fun _ => Raises TypeError)) = Dict.empty.
Proof.
  apply (failed_queries_give_empty_baseline mean default_constants
           (Returns reference_rows) (fun _ => Raises TypeError)).
  right. intros batch. exists TypeError. reflexivity.
Defined.

Lemma sum_from_pos acc l :
  0 < acc -> Forall (fun d => 0 < d) l -> 0 < sum_from acc l.
Proof.
  revert acc. induction l as [|x r IH]; intros acc Hacc Hl; simpl; [exact Hacc|].
  inversion Hl as [|? ? Hx Hr]; subst. apply IH; [|exact Hr].
  apply Qlt_trans with acc; [exact Hacc|].
  rewrite <- (Qplus_0_r acc) at 1. apply Qplus_lt_r. exact Hx.
Qed.

Lemma mean_pos x l : 0 < x -> Forall (fun d => 0 < d) l -> 0 < mean (x :: l).
Proof.
  intros Hx Hl. unfold mean. simpl sum_from. apply Qlt_shift_div_l.
  - unfold Qlt. simpl. lia.
  - rewrite Qmult_0_l. apply sum_from_pos; [|exact Hl].
    now rewrite Qplus_0_l.
Qed.

Lemma sample_of_In dm key sl d :
  In d (sample_of dm key sl) -> exists sid, Dict.get dm sid = Some d.
Proof.
  unfold sample_of.
  destruct (sl_spanId sl) as [sid|], (sl_serviceName sl) as [sn|],
    (sl_spanName sl) as [pn|]; try contradiction.
  destruct (Dict.get dm sid) as [v|] eqn:E; [|contradiction].
  destruct (_ && _)%bool; [|contradiction].
  intros [<-|[]]. eauto.
Qed.

Lemma kept_durations_positive c (logs : list log) sid d :
  Dict.get (snd (sample_for_average c (collect_average logs))) sid = Some d -> 0 < d.
Proof.
  destruct (collect_average_positive logs) as [Hnd Hpos].
  destruct (sample_for_average_spec c (collect_average logs) Hnd)
    as (_ & _ & _ & Hsub & Hitems).
  intros Hget. apply get_Some_In in Hget.
  unfold Dict.items in Hitems. rewrite Hitems in Hget.
  apply in_map_iff in Hget. destruct Hget as (k & [= <- <-] & Hk).
  apply Hsub in Hk. apply keys_get_Some in Hk. destruct Hk as [v Hv].
  unfold Dict.get_default. rewrite Hv.
  apply get_Some_In in Hv. now apply Hpos in Hv.
Qed.

(** X15. Every average stored in the baseline is strictly positive: it is
    the mean of at least one strictly positive duration. This holds for
    the exact mean and for any averaging function that gives a positive
    result on positive durations. *)
Theorem baseline_averages_are_positive (np_mean : list Q -> Q) (c : constants)
    (response : outcome (list log)) (ask : lookup) (key : string) (avg : Q) :
  (forall x l, 0 < x -> Forall (fun d => 0 < d) l -> 0 < np_mean (x :: l)) ->
  Dict.get (fst (_calculate_span_averages np_mean c response ask)) key = Some avg ->
  0 < avg.
Proof.
  intros Hmean.
  destruct response as [logs|e]; [|discriminate].
  unfold _calculate_span_averages.
  destruct (Dict.nonempty (collect_average logs)); [|discriminate].
  rewrite query_span_names_get.
  destruct (samples ask _ _ key) as [|x l] eqn:Es; [discriminate|].
  intros [= <-].
  assert (Hall : Forall (fun d => 0 < d) (x :: l)).
  { rewrite <- Es. apply Forall_forall. intros d Hd. unfold samples in Hd.
    apply in_flat_map in Hd. destruct Hd as (sl & _ & Hd).
    apply sample_of_In in Hd. destruct Hd as [sid Hsid].
    eapply kept_durations_positive; eauto. }
  inversion Hall; subst. now apply Hmean.
Qed.

Lemma baseline_averages_are_positive_witness : 0 < 400 # 2.
Proof.
  apply (baseline_averages_are_positive mean default_constants (Returns reference_rows)
           reference_lookup (combined_key "svc" "op") (400 # 2)).
  - apply mean_pos.
  - reflexivity.
Defined.

(** X16. The identity queries of the baseline computation ask for distinct
    span ids, each with a collected (positive) duration in the reference
    window, at most [TRACES_FOR_AVG_RT] in total and at most 500 per
    query. *)
Theorem baseline_queries_are_bounded (np_mean : list Q -> Q) (c : constants)
    (logs : list log) (ask : lookup) :
  let issued := snd (_calculate_span_averages np_mean c (Returns logs) ask) in
  NoDup (List.concat issued) /\
  (forall x, In x (List.concat issued) -> In x (Dict.keys (collect_average logs))) /\
  (List.length (List.concat issued) <= TRACES_FOR_AVG_RT c)%nat /\
  Forall (fun b => (List.length b <= batch_size)%nat) issued.
Proof.
  intros issued. subst issued. unfold _calculate_span_averages.
  destruct (Dict.nonempty (collect_average logs)).
  - destruct (collect_average_positive logs) as [Hnd _].
    destruct (sample_for_average_spec c (collect_average logs) Hnd)
      as (Hbig & Hsmall & Hnd' & Hsub & _).
    unfold _query_span_names_for_spans.
    destruct (sample_for_average c (collect_average logs)) as [ids kept].
    simpl in *. destruct (chunks_spec ids) as [Hc Hf]. rewrite Hc.
    repeat split; auto.
    destruct (Nat.lt_ge_cases (TRACES_FOR_AVG_RT c) (Dict.len (collect_average logs)))
      as [Hlt|Hge].
    + destruct (Hbig Hlt) as (_ & -> & _). lia.
    + destruct (Hsmall Hge) as [-> _]. now rewrite keys_length.
  - simpl. repeat split; [constructor|intros x []|lia|constructor].
Qed.

(** *** Rows that fail the length test *)

Lemma collect_skips_malformed c self (logs : list log) :
  forall m,
  fold_left (process_log c self) (filter well_formed logs) m =
  fold_left (process_log c self) logs m.
Proof.
  induction logs as [|lg r IH]; intros m; simpl; [reflexivity|].
  destruct (well_formed lg) eqn:E; simpl; [apply IH|].
  rewrite IH. f_equal. unfold process_log. rewrite well_formed_test, E. reflexivity.
Qed.

(** X17. A row whose three arrays differ in length is skipped as a whole:
    the selector returns the same list and issues the same queries as on
    the input without such rows. *)
Theorem malformed_rows_are_skipped (c : constants) (self : finder) (ask : lookup)
    (logs : list log) :
  _process_exclusive_duration_data c self ask (filter well_formed logs) =
  _process_exclusive_duration_data c self ask logs.
Proof.
  unfold _process_exclusive_duration_data, collect.
  now rewrite collect_skips_malformed.
Qed.

(** *** The shape of the returned list *)

Lemma take_until_head acc target sid d r :
  exists rest, take_until acc target ((sid, d) :: r) = sid :: rest.
Proof.
  simpl. destruct (Qle_bool target (acc + d)); eauto.
Qed.

(** X18. The returned list is empty exactly when the total of the adjusted
    durations is zero; otherwise its first span has the largest adjusted
    duration of all. This needs no assumption on the percentile. *)
Theorem first_selected_is_largest (c : constants) (adjusted : list (string * Q)) :
  (top_95_percent_spans c adjusted = [] <->
   total_duration (sort_desc snd adjusted) == 0) /\
  (forall x rest, top_95_percent_spans c adjusted = x :: rest ->
     exists d, In (x, d) adjusted /\
               forall sid' d', In (sid', d') adjusted -> d' <= d).
Proof.
  unfold top_95_percent_spans.
  pose proof (sort_desc_perm snd adjusted) as Hperm.
  pose proof (sort_desc_sorted snd adjusted) as Hsorted.
  destruct (Qeq_bool (total_duration (sort_desc snd adjusted)) 0) eqn:E.
  - apply Qeq_bool_eq in E. split; [tauto|]. intros x rest H. discriminate H.
  - apply Qeq_bool_neq in E.
    destruct (sort_desc snd adjusted) as [|[sid d] r] eqn:Es.
    { exfalso. apply E. reflexivity. }
    destruct (take_until_head 0 (total_duration ((sid, d) :: r) * PERCENT_95 c) sid d r)
      as [rest0 Hrest].
    rewrite Hrest. split.
    + split; [discriminate|]. intros H. contradiction.
    + intros x rest [= <- _]. exists d. split.
      * apply (Permutation_in _ Hperm). now left.
      * intros sid' d' Hin.
        apply (Permutation_in _ (Permutation_sym Hperm)) in Hin.
        destruct Hin as [[= <- <-]|Hin]; [apply Qle_refl|].
        inversion Hsorted as [|? ? _ Hall]; subst.
        rewrite Forall_forall in Hall. apply (Hall (sid', d') Hin).
Qed.



Lemma take_until_mono (l : list (string * Q)) :
  forall acc t1 t2, t1 <= t2 ->
  exists rest, take_until acc t2 l = take_until acc t1 l ++ rest.
Proof.
  induction l as [|[sid d] r IH]; intros acc t1 t2 Hle; simpl.
  - exists []. reflexivity.
  - destruct (Qle_bool t2 (acc + d)) eqn:E2.
    + apply Qle_bool_iff in E2.
      assert (E1 : Qle_bool t1 (acc + d) = true)
        by (apply Qle_bool_iff; now apply Qle_trans with t2).
      rewrite E1. exists []. reflexivity.
    + destruct (Qle_bool t1 (acc + d)).
      * exists (take_until (acc + d) t2 r). reflexivity.
      * destruct (IH (acc + d) t1 t2 Hle) as [rest ->].
        exists rest. reflexivity.
Qed.

Lemma total_positive (l : list (string * Q)) :
  (forall sid d, In (sid, d) l -> 0 <= d) ->
  ~ total_duration l == 0 -> 0 < total_duration l.
Proof.
  intros Hnn Hne. pose proof (total_duration_nonneg l Hnn) as H.
  apply Qle_lteq in H. destruct H as [H|H]; [exact H|].
  exfalso. apply Hne. now symmetry.
Qed.

Lemma sorted_nonneg (adjusted : list (string * Q)) :
  (forall sid d, In (sid, d) adjusted -> 0 <= d) ->
  forall sid d, In (sid, d) (sort_desc snd adjusted) -> 0 <= d.
Proof.
  intros Hnn sid d H. apply (Hnn sid).
  eapply Permutation_in; [apply sort_desc_perm|exact H].
Qed.

(** The constants with another percentile. *)
Definition with_percentile (c : constants) (p : Q) : constants :=
  mkConstants (HIGH_RT_TRACES c) (TRACES_FOR_AVG_RT c) p (MAX_DURATION c).

(** X20. Raising the percentile only lengthens the answer: with
    non-negative adjusted durations, the list returned for a smaller
    percentile is a prefix of the list returned for a larger one. *)
Theorem higher_percentile_extends (c : constants) (p1 p2 : Q)
    (adjusted : list (string * Q)) :
  p1 <= p2 ->
  (forall sid d, In (sid, d) adjusted -> 0 <= d) ->
  exists rest,
    top_95_percent_spans (with_percentile c p2) adjusted =
    top_95_percent_spans (with_percentile c p1) adjusted ++ rest.
Proof.
  intros Hle Hnn. unfold top_95_percent_spans. simpl PERCENT_95.
  destruct (Qeq_bool (total_duration (sort_desc snd adjusted)) 0) eqn:E.
  - exists []. reflexivity.
  - apply Qeq_bool_neq in E.
    apply take_until_mono. apply Qmult_le_l; [|exact Hle].
    apply total_positive; [|exact E]. now apply sorted_nonneg.
Qed.

Lemma higher_percentile_extends_witness :
  exists rest,
    top_95_percent_spans (with_percentile default_constants (95 # 100)) example_durations =
    top_95_percent_spans (with_percentile default_constants (1 # 2)) example_durations
    ++ rest.
Proof.
  apply (higher_percentile_extends default_constants (1 # 2) (95 # 100) example_durations).
  - discriminate.
  - intros sid d H. simpl in H.
    repeat (destruct H as [H|H]; [injection H as <- <-; discriminate|]).
    contradiction.
Defined.





(** *** A span id that occurs more than once *)

(** The entries of the rows that pass the length test, in order. *)
Definition all_entries (logs : list log) : list (string * Z * jvalue) :=
  flat_map (fun lg => if well_formed lg then row_entries lg else []) logs.

(** The entry is an occurrence of span [sid] with a positive duration. *)
Definition is_duration_of (sid : string) (e : string * Z * jvalue) : bool :=
  (String.eqb (fst (fst e)) sid
   && match positive_duration (snd e) with Some _ => true | None => false end)%bool.

(** The clamped duration of the last such occurrence. *)
Definition last_duration (c : constants) (logs : list log) (sid : string) : option Q :=
  match find (is_duration_of sid) (rev (all_entries logs)) with
  | Some e => option_map (fun d => Qmin d (MAX_DURATION c)) (positive_duration (snd e))
  | None => None
  end.

(** What one entry does to [span_duration_mapping]. *)
Definition record_duration (c : constants) (dm : Dict.t Q) (e : string * Z * jvalue)
  : Dict.t Q :=
  match positive_duration (snd e) with
  | Some d => Dict.set dm (fst (fst e)) (Qmin d (MAX_DURATION c))
  | None => dm
  end.

Lemma collect_span_durations c spans (l : list (string * Z * jvalue)) :
  forall m,
  span_duration_mapping (fold_left (collect_span c spans) l m) =
  fold_left (record_duration c) l (span_duration_mapping m).
Proof.
  induction l as [|[[sid idx] v] r IH]; intros m; simpl; [reflexivity|].
  rewrite IH. f_equal. unfold record_duration. simpl.
  destruct (positive_duration v); [|reflexivity].
  unfold store_span. now destruct (identity_at spans idx).
Qed.

Lemma collect_durations c self (logs : list log) :
  only_top1_per_trace self = false ->
  forall m,
  span_duration_mapping (fold_left (process_log c self) logs m) =
  fold_left (record_duration c) (all_entries logs) (span_duration_mapping m).
Proof.
  intros Hall. induction logs as [|lg r IH]; intros m; simpl; [reflexivity|].
  rewrite IH, fold_left_app. f_equal.
  unfold process_log. rewrite well_formed_test, Hall.
  destruct (well_formed lg); simpl; [|reflexivity].
  apply collect_span_durations.
Qed.

Lemma record_durations_get c (l : list (string * Z * jvalue)) sid :
  forall dm,
  Dict.get (fold_left (record_duration c) l dm) sid =
  match find (is_duration_of sid) (rev l) with
  | Some e => option_map (fun d => Qmin d (MAX_DURATION c)) (positive_duration (snd e))
  | None => Dict.get dm sid
  end.
Proof.
  induction l as [|[[k idx] v] r IH]; intros dm; simpl; [reflexivity|].
  rewrite IH, find_app_first.
  destruct (find (is_duration_of sid) (rev r)); [reflexivity|].
  simpl. unfold is_duration_of, record_duration. simpl.
  destruct (positive_duration v) as [d|] eqn:Ep.
  - destruct (String.eqb k sid) eqn:E; simpl.
    + apply String.eqb_eq in E. subst. rewrite Ep. simpl. apply get_set_same.
    + apply String.eqb_neq in E. now apply get_set_other.
  - now rewrite andb_false_r.
Qed.

(** Span "a" occurs in both rows; its first duration is larger. *)
Definition repeated_span_rows : list log :=
  [ mkLog ["a"; "b"] [0; 1]%Z [JNum (9 # 1); JNum (4 # 1)] [];
    mkLog ["a"] [0%Z] [JNum (2 # 1)] [] ].

(** X23. When every span of a row is kept ([only_top1_per_trace] off), the
    duration recorded for a span id is the clamped duration of its last
    occurrence with a positive duration in the rows that pass the length
    test: a later occurrence overwrites an earlier one, whichever is
    larger, and an id without such an occurrence is not recorded. *)
Theorem last_occurrence_wins (c : constants) (self : finder) (logs : list log)
    (sid : string) :
  only_top1_per_trace self = false ->
  Dict.get (span_duration_mapping (collect c self logs)) sid = last_duration c logs sid.
Proof.
  intros Hall. unfold collect, last_duration.
  rewrite (collect_durations c self logs Hall). simpl.
  now rewrite record_durations_get.
Qed.

Lemma last_occurrence_wins_witness :
  Dict.get (span_duration_mapping
              (collect default_constants (mkFinder false false Dict.empty)
                 repeated_span_rows)) "a" =
  last_duration default_constants repeated_span_rows "a".
Proof.
  apply (last_occurrence_wins default_constants (mkFinder false false Dict.empty)
           repeated_span_rows "a").
  reflexivity.
Defined.

Example last_occurrence_wins_example :
  last_duration default_constants repeated_span_rows "a" = Some (2 # 1) /\
  fst (_process_exclusive_duration_data default_constants
         (mkFinder false false Dict.empty) (fun _ => Returns []) repeated_span_rows) =
    ["b"; "a"].
Proof. split; reflexivity. Qed.

(** *** A baseline that could not be computed *)

(** X24. A finder built with [minus_average=True] whose baseline queries
    failed (the reference query, or every identity query) selects exactly
    what a finder without normalization selects, and issues the same
    queries: the failure is absorbed at construction and the selection
    falls back to raw durations. *)
Theorem failed_baseline_means_no_normalization (np_mean : list Q -> Q)
    (c : constants) (only_top1 : bool)
    (normal_start_time normal_end_time : option string)
    (reference response : outcome (list log)) (ask_reference ask : lookup) :
  (exists e, reference = Raises e) \/
  (forall batch, exists e, ask_reference batch = Raises e) ->
  find_top_95_percent_spans c
    (init np_mean c true only_top1 normal_start_time normal_end_time reference
       ask_reference)
    response ask =
  find_top_95_percent_spans c (mkFinder false only_top1 Dict.empty) response ask.
Proof.
  intros Hfail.
  assert (Hinit : init np_mean c true only_top1 normal_start_time normal_end_time
                    reference ask_reference = mkFinder true only_top1 Dict.empty).
  { unfold init. f_equal.
    destruct (_ && _)%bool; [|reflexivity].
    now apply baseline_empty_when_queries_fail. }
  rewrite Hinit. unfold find_top_95_percent_spans.
  destruct response as [logs|e]; [|reflexivity].
  unfold _process_exclusive_duration_data.
  now rewrite collect_without_baseline.
Qed.

Lemma failed_baseline_means_no_normalization_witness :
  find_top_95_percent_spans default_constants
    (init mean default_constants true false (Some "2025-08-28 14:58:03")
       (Some "2025-08-28 15:03:03") (Raises TypeError) (fun _ => Returns []))
    (Returns example_rows) (fun _ => Returns []) =
  find_top_95_percent_spans default_constants (mkFinder false false Dict.empty)
    (Returns example_rows) (fun _ => Returns []).
Proof.
  apply (failed_baseline_means_no_normalization mean default_constants false
           (Some "2025-08-28 14:58:03") (Some "2025-08-28 15:03:03")
           (Raises TypeError) (Returns example_rows) (fun _ => Returns [])
           (fun _ => Returns [])).
  left. exists TypeError. reflexivity.
Defined.

(** *** The top-1 choice on a row without identities *)

Lemma max_from_map {A B : Type} (f : A -> B) (key : B -> Q) (l : list A) :
  forall b, max_from key (f b) (map f l) = f (max_from (fun x => key (f x)) b l).
Proof.
  induction l as [|y r IH]; intros b; simpl; [reflexivity|].
  destruct (Qlt_bool (key (f b)) (key (f y))); apply IH.
Qed.

Lemma adjusted_spans_unlabelled c self lg :
  (forall sid idx v, In (sid, idx, v) (row_entries lg) ->
                     identity_at (span_list lg) idx = None) ->
  adjusted_spans c self lg =
  map (fun x : string * Z * Q => (x, snd x)) (valid_spans c lg).
Proof.
  unfold adjusted_spans, valid_spans, row_entries.
  induction (zip3 (span_id lg) (span_index lg) (exclusive_duration lg))
    as [|[[sid idx] v] r IH]; intros Hnone; simpl; [reflexivity|].
  rewrite map_app, <- IH by (intros; eapply Hnone; right; eauto).
  f_equal. destruct (positive_duration v); [|reflexivity].
  rewrite (Hnone sid idx v) by now left. reflexivity.
Qed.

(** The row of the top-1 example without [span_list], and an identity
    query that knows the three spans. *)
Definition top1_unlabelled_row : log :=
  mkLog ["A"; "B"; "C"] [0; 1; 2]%Z [JNum (10 # 1); JNum (12 # 1); JNum (8 # 1)] [].

Definition lookup_ABC : lookup :=
  fun _ => Returns [mkServiceLog (Some "A") (Some "sA") (Some "op");
                    mkServiceLog (Some "B") (Some "sB") (Some "op");
                    mkServiceLog (Some "C") (Some "sC") (Some "op")].

(** X25. With [only_top1_per_trace], a row whose [span_list] gives no
    service and operation for any of its spans is ranked by clamped raw
    duration, normalization or not: the row loop stores what it stores with
    normalization off. *)
Theorem top1_without_row_identities_ranks_raw (c : constants) (self : finder)
    (m : mappings) (lg : log) :
  only_top1_per_trace self = true ->
  (forall sid idx v, In (sid, idx, v) (row_entries lg) ->
                     identity_at (span_list lg) idx = None) ->
  process_log c self m lg = process_log c (mkFinder false true Dict.empty) m lg.
Proof.
  intros Htop Hnone. unfold process_log. rewrite Htop. simpl.
  destruct (_ || _)%bool; [reflexivity|].
  destruct (minus_average self && Dict.nonempty (span_average_durations self))%bool;
    [|reflexivity].
  rewrite (adjusted_spans_unlabelled c self lg Hnone).
  destruct (valid_spans c lg) as [|x r]; [reflexivity|].
  cbn [py_max map].
  rewrite (max_from_map (fun x : string * Z * Q => (x, snd x)) adjusted_of r x).
  change (fun x0 : string * Z * Q => adjusted_of (x0, snd x0))
    with (fun x0 : string * Z * Q => snd x0).
  destruct (max_from (fun x0 : string * Z * Q => snd x0) x r) as [[sid idx] d].
  reflexivity.
Qed.

Lemma top1_without_row_identities_ranks_raw_witness :
  process_log default_constants top1_finder (mkMappings Dict.empty Dict.empty)
    top1_unlabelled_row =
  process_log default_constants (mkFinder false true Dict.empty)
    (mkMappings Dict.empty Dict.empty) top1_unlabelled_row.
Proof.
  apply (top1_without_row_identities_ranks_raw default_constants top1_finder
           (mkMappings Dict.empty Dict.empty) top1_unlabelled_row).
  - reflexivity.
  - intros sid idx v _. reflexivity.
Defined.

(** On the example with (raw, baseline) = A(10,2), B(12,10), C(8,1): with
    the identities in the row the span kept is A; with the identities
    known to the identity query only it is B, whose adjusted duration 2 is
    the only one ranked. *)
Example top1_unlabelled_example :
  fst (_process_exclusive_duration_data default_constants top1_finder lookup_ABC
         [top1_row]) = ["A"] /\
  fst (_process_exclusive_duration_data default_constants top1_finder lookup_ABC
         [top1_unlabelled_row]) = ["B"] /\
  fst (adjusted_span_durations default_constants top1_finder lookup_ABC
         (collect default_constants top1_finder [top1_unlabelled_row])) =
    [("B", 2 # 1)].
Proof. repeat split. Qed.

End LatencyExtras.
